(** * WhatsApp job filter: the incremental ingestion and deduplication pipeline

    A shallow embedding of [main.py]: header parsing, message and record
    deduplication, the persisted cursor, and the retrying classification
    client, with the properties the specification states about them.

    Python [str] values are modelled as lists of characters below U+0100
    ([list ascii]); dictionaries with a fixed key set as records, the other
    ones as [gmap]; Python sets as [gset]. *)

From Stdlib Require Import ZArith QArith Qabs Ascii String.
From Stdlib Require Floats.PrimFloat.
From stdpp Require Import gmap strings list sorting.

Open Scope Z_scope.

(** ** Python strings *)

Abbreviation str := (list ascii).

(** A string literal of the source. *)
Definition lit (s : string) : str := String.list_ascii_of_string s.

Module Str.

Definition code (c : ascii) : Z := Z.of_N (N_of_ascii c).
Definition chr (n : Z) : ascii := ascii_of_N (Z.to_N n).

(** [str.isspace] on one character, which is also what [\s] matches and
    what [str.strip()] removes. *)
Definition isspace (c : ascii) : bool :=
  let n := code c in
  ((9 <=? n) && (n <=? 13)) || ((28 <=? n) && (n <=? 32))
  || (n =? 133) || (n =? 160).

Fixpoint lstrip (s : str) : str :=
  match s with
  | c :: s' => if isspace c then lstrip s' else s
  | [] => []
  end.

Fixpoint rstrip (s : str) : str :=
  match s with
  | c :: s' =>
      match rstrip s' with
      | [] => if isspace c then [] else [c]
      | r => c :: r
      end
  | [] => []
  end.

(** [s.strip()] *)
Definition strip (s : str) : str := rstrip (lstrip s).

(** [str.lower] on one character: A-Z and the upper-case letters of
    U+00C0..U+00DE (without the multiplication sign U+00D7). *)
Definition lower_char (c : ascii) : ascii :=
  let n := code c in
  if ((65 <=? n) && (n <=? 90))
     || ((192 <=? n) && (n <=? 222) && negb (n =? 215))
  then chr (n + 32) else c.

(** [s.lower()] *)
Definition lower (s : str) : str := map lower_char s.

(** [sep.join(parts)] *)
Fixpoint join (sep : str) (parts : list str) : str :=
  match parts with
  | [] => []
  | [p] => p
  | p :: ps => p ++ sep ++ join sep ps
  end.

Definition digit (n : Z) : ascii := chr (48 + n).

Definition is_digit (c : ascii) : bool :=
  let n := code c in (48 <=? n) && (n <=? 57).

Definition digit_val (c : ascii) : Z := code c - 48.

(** The last [w] decimal digits of [n], most significant first. *)
Fixpoint digits_fixed (w : nat) (n : Z) : str :=
  match w with
  | O => []
  | S w' => digits_fixed w' (n / 10) ++ [digit (n mod 10)]
  end.

Fixpoint dec_aux (fuel : nat) (n : Z) (acc : str) : str :=
  match fuel with
  | O => acc
  | S f =>
      let acc' := digit (n mod 10) :: acc in
      if n / 10 =? 0 then acc' else dec_aux f (n / 10) acc'
  end.

(** [str(n)] for a natural number [n]. *)
Definition dec (n : Z) : str := dec_aux (S (Z.to_nat (Z.log2 n))) n [].

(** ["%0wd" % n] for a natural number [n]: zero-padded to width [w],
    longer when [n] needs it. *)
Definition pad (w : nat) (n : Z) : str :=
  if n <? 10 ^ Z.of_nat w then digits_fixed w n else dec n.

End Str.

(** ** Naive datetimes

    Every [datetime] of the program comes from [datetime.strptime] with a
    template that has no [%z], or from [datetime.fromisoformat] on what the
    program wrote itself: they carry no time zone. *)

Record datetime := mkDatetime {
  year : Z; month : Z; day : Z;
  hour : Z; minute : Z; second : Z; microsecond : Z
}.

Global Instance datetime_eq_dec : EqDecision datetime.
Proof. solve_decision. Defined.

Module DT.

Definition is_leap (y : Z) : bool :=
  ((y mod 4 =? 0) && negb (y mod 100 =? 0)) || (y mod 400 =? 0).

Definition days_in_month (y m : Z) : Z :=
  match m with
  | 1 | 3 | 5 | 7 | 8 | 10 | 12 => 31
  | 4 | 6 | 9 | 11 => 30
  | 2 => if is_leap y then 29 else 28
  | _ => 0
  end.

(** The range checks of the [datetime] constructor ([MINYEAR] = 1,
    [MAXYEAR] = 9999). *)
Definition valid (t : datetime) : bool :=
  (1 <=? year t) && (year t <=? 9999)
  && (1 <=? month t) && (month t <=? 12)
  && (1 <=? day t) && (day t <=? days_in_month (year t) (month t))
  && (0 <=? hour t) && (hour t <=? 23)
  && (0 <=? minute t) && (minute t <=? 59)
  && (0 <=? second t) && (second t <=? 59)
  && (0 <=? microsecond t) && (microsecond t <=? 999999).

Definition fields (t : datetime) : list Z :=
  [year t; month t; day t; hour t; minute t; second t; microsecond t].

(** Lexicographic order on the fields: [a < b] on naive datetimes. *)
Fixpoint lex_ltb (a b : list Z) : bool :=
  match a, b with
  | x :: a', y :: b' => (x <? y) || ((x =? y) && lex_ltb a' b')
  | [], _ :: _ => true
  | _, _ => false
  end.

Definition ltb (a b : datetime) : bool := lex_ltb (fields a) (fields b).
Definition leb (a b : datetime) : bool := negb (ltb b a).

(** [t.isoformat()] *)
Definition isoformat (t : datetime) : str :=
  Str.pad 4 (year t) ++ lit "-" ++ Str.pad 2 (month t) ++ lit "-"
  ++ Str.pad 2 (day t) ++ lit "T" ++ Str.pad 2 (hour t) ++ lit ":"
  ++ Str.pad 2 (minute t) ++ lit ":" ++ Str.pad 2 (second t)
  ++ (if microsecond t =? 0 then [] else lit "." ++ Str.pad 6 (microsecond t)).

End DT.

Infix "<dt" := DT.ltb (at level 70).
Infix "<=dt" := DT.leb (at level 70).

(** ** Messages *)

Record message := mkMessage {
  sender : str;
  timestamp : datetime;
  text : str
}.

Global Instance message_eq_dec : EqDecision message.
Proof. solve_decision. Defined.

(** [message_dedup_key] *)
Definition message_dedup_key (m : message) : str :=
  sender m ++ lit "|" ++ DT.isoformat (timestamp m) ++ lit "|"
  ++ Str.strip (text m).

(** The loop of [deduplicate_messages], with its [seen] set. *)
Fixpoint deduplicate_messages_from (seen : gset str) (messages : list message)
  : list message :=
  match messages with
  | [] => []
  | m :: rest =>
      let key := message_dedup_key m in
      if decide (key ∈ seen) then deduplicate_messages_from seen rest
      else m :: deduplicate_messages_from ({[key]} ∪ seen) rest
  end.

(** [deduplicate_messages] *)
Definition deduplicate_messages (messages : list message) : list message :=
  deduplicate_messages_from ∅ messages.

(** ** Regular expressions

    The two patterns of the program (the header pattern of
    [parse_pre_plain_text] and the patterns [datetime.strptime] builds from a
    format) use character classes, concatenation, alternation, named groups,
    a greedy [+], a lazy [*?] and a greedy [?] on one class, and [$]. They are
    run by a backtracking matcher that tries the alternatives in the order
    the [re] module does. *)

Module Re.

Inductive cls :=
| Any                        (* .     : anything but a newline *)
| Lit (c : ascii)            (* c *)
| NoneOf (cs : list ascii)   (* [^cs] *)
| Range (lo hi : ascii)      (* [lo-hi] *)
| Digit                      (* \d *)
| Space.                     (* \s *)

Inductive re :=
| Empty
| Chr (k : cls)
| Cat (r1 r2 : re)
| Alt (r1 r2 : re)
| Plus (k : cls)             (* k+  *)
| LazyStar (k : cls)         (* k*? *)
| Opt (k : cls)              (* k?  *)
| Group (name : string) (r : re)
| Eos.                       (* $ *)

(** What [match.groupdict()] holds, in the order the groups closed. *)
Definition captures := list (string * str).

Fixpoint group (caps : captures) (name : string) : option str :=
  match caps with
  | [] => None
  | (n, v) :: caps' => if String.eqb n name then Some v else group caps' name
  end.

(** The text between the start of [s] and its suffix [s']. *)
Definition consumed (s s' : str) : str := take (length s - length s') s.
Global Arguments consumed : simpl never.

Section Exec.
(** [ic] is [re.IGNORECASE]. *)
Variable ic : bool.
Context {R : Type}.

Definition cls_match (k : cls) (c : ascii) : bool :=
  match k with
  | Any => negb (Ascii.eqb c "010")
  | Lit a =>
      if ic then Ascii.eqb (Str.lower_char a) (Str.lower_char c)
      else Ascii.eqb a c
  | NoneOf cs => negb (existsb (Ascii.eqb c) cs)
  | Range lo hi => (Str.code lo <=? Str.code c) && (Str.code c <=? Str.code hi)
  | Digit => Str.is_digit c
  | Space => Str.isspace c
  end.

(** As many [k] as possible, then fewer. *)
Fixpoint star_greedy (k : cls) (s : str) (cont : str -> option R) : option R :=
  match s with
  | c :: s' =>
      if cls_match k c then
        match star_greedy k s' cont with
        | Some x => Some x
        | None => cont s
        end
      else cont s
  | [] => cont s
  end.

(** As few [k] as possible, then more. *)
Fixpoint star_lazy (k : cls) (s : str) (cont : str -> option R) : option R :=
  match cont s with
  | Some x => Some x
  | None =>
      match s with
      | c :: s' => if cls_match k c then star_lazy k s' cont else None
      | [] => None
      end
  end.

(** [exec r s caps cont]: match [r] at the start of [s], and hand the
    rest of the input and the groups to [cont]; when [cont] fails, the
    next way of matching [r] is tried. *)
Fixpoint exec (r : re) (s : str) (caps : captures)
    (cont : str -> captures -> option R) : option R :=
  match r with
  | Empty => cont s caps
  | Chr k =>
      match s with
      | c :: s' => if cls_match k c then cont s' caps else None
      | [] => None
      end
  | Cat r1 r2 => exec r1 s caps (fun s' caps' => exec r2 s' caps' cont)
  | Alt r1 r2 =>
      match exec r1 s caps cont with
      | Some x => Some x
      | None => exec r2 s caps cont
      end
  | Plus k =>
      match s with
      | c :: s' =>
          if cls_match k c then star_greedy k s' (fun s'' => cont s'' caps)
          else None
      | [] => None
      end
  | LazyStar k => star_lazy k s (fun s' => cont s' caps)
  | Opt k =>
      match s with
      | c :: s' =>
          if cls_match k c then
            match cont s' caps with
            | Some x => Some x
            | None => cont s caps
            end
          else cont s caps
      | [] => cont s caps
      end
  | Group name r' =>
      exec r' s caps (fun s' caps' =>
        cont s' (caps' ++ [(name, consumed s s')]))
  | Eos =>
      match s with
      | [] => cont s caps
      | [c] => if Ascii.eqb c "010" then cont s caps else None
      | _ => None
      end
  end.
End Exec.

(** [re.match(r, s)]: the groups of the first match at the start of [s],
    and the input after the match. *)
Definition re_match (ic : bool) (r : re) (s : str) : option (captures * str) :=
  exec ic r s [] (fun s' caps => Some (caps, s')).

(** Concatenation of a sequence of patterns. *)
Definition cat (rs : list re) : re := foldr Cat Empty rs.

End Re.

(** ** [datetime.strftime] and [datetime.strptime]

    For the directives the program uses: [%m %d %Y %y %H %I %M %p], in the C
    locale. *)

Module Strftime.

Definition hour12 (h : Z) : Z := if h mod 12 =? 0 then 12 else h mod 12.

(** [%Y] as the C library of Linux writes it: the year is not padded, so
    that a year below 1000 comes out with fewer than four digits. *)
Definition year_text (y : Z) : str :=
  if y <? 1000 then Str.dec y else Str.pad 4 y.

Definition field (c : ascii) (t : datetime) : str :=
  match c with
  | "m"%char => Str.pad 2 (month t)
  | "d"%char => Str.pad 2 (day t)
  | "Y"%char => year_text (year t)
  | "y"%char => Str.pad 2 (year t mod 100)
  | "H"%char => Str.pad 2 (hour t)
  | "I"%char => Str.pad 2 (hour12 (hour t))
  | "M"%char => Str.pad 2 (minute t)
  | "p"%char => if hour t <? 12 then lit "AM" else lit "PM"
  | _ => [c]
  end.

(** [t.strftime(fmt)] *)
Fixpoint strftime (fmt : str) (t : datetime) : str :=
  match fmt with
  | "%"%char :: c :: fmt' => field c t ++ strftime fmt' t
  | c :: fmt' => c :: strftime fmt' t
  | [] => []
  end.

End Strftime.

Module Strptime.
Import Re.

Definition two (a b : cls) : re := Cat (Chr a) (Chr b).

(** The pattern of one directive, as [_strptime.TimeRE] has it. *)
Definition directive (c : ascii) : option re :=
  match c with
  | "d"%char => Some (Group "d"
      (Alt (two (Lit "3") (Range "0" "1"))
      (Alt (two (Range "1" "2") Digit)
      (Alt (two (Lit "0") (Range "1" "9"))
      (Alt (Chr (Range "1" "9"))
           (two (Lit " ") (Range "1" "9")))))))
  | "H"%char => Some (Group "H"
      (Alt (two (Lit "2") (Range "0" "3"))
      (Alt (two (Range "0" "1") Digit)
           (Chr Digit))))
  | "I"%char => Some (Group "I"
      (Alt (two (Lit "1") (Range "0" "2"))
      (Alt (two (Lit "0") (Range "1" "9"))
           (Chr (Range "1" "9")))))
  | "m"%char => Some (Group "m"
      (Alt (two (Lit "1") (Range "0" "2"))
      (Alt (two (Lit "0") (Range "1" "9"))
           (Chr (Range "1" "9")))))
  | "M"%char => Some (Group "M" (Alt (two (Range "0" "5") Digit) (Chr Digit)))
  | "y"%char => Some (Group "y" (two Digit Digit))
  | "Y"%char => Some (Group "Y" (Cat (two Digit Digit) (two Digit Digit)))
  | "p"%char => Some (Group "p"
      (Alt (two (Lit "a") (Lit "m")) (two (Lit "p") (Lit "m"))))
  | _ => None
  end.

(** [TimeRE.pattern]: a directive becomes its pattern, a run of white space
    becomes [\s+], any other character stands for itself. [in_ws] tells
    that the previous character of the format was white space. A directive
    outside the table, or a [%] that ends the format, is a [ValueError]. *)
Fixpoint pattern (in_ws : bool) (fmt : str) : option re :=
  match fmt with
  | ["%"%char] => None
  | "%"%char :: c :: fmt' =>
      match directive c, pattern false fmt' with
      | Some r, Some r' => Some (Cat r r')
      | _, _ => None
      end
  | c :: fmt' =>
      if Str.isspace c then
        match pattern true fmt' with
        | Some r' => Some (if in_ws then r' else Cat (Plus Space) r')
        | None => None
        end
      else
        match pattern false fmt' with
        | Some r' => Some (Cat (Chr (Lit c)) r')
        | None => None
        end
  | [] => Some Empty
  end.

(** [int(s)] on the text of a numeric group. *)
Definition int_of (s : str) : Z :=
  foldl (fun acc c => 10 * acc + Str.digit_val c) 0 (Str.strip s).

(** The fields [_strptime] fills in while it walks over the groups. *)
Record parts := mkParts {
  p_year : option Z; p_month : Z; p_day : Z; p_hour : Z; p_minute : Z
}.

Definition parts0 : parts := mkParts None 1 1 0 0.

(** The hour of a 12-hour clock with its meridiem text, lower-cased: no
    text counts as AM. *)
Definition hour_of (h : Z) (ampm : str) : Z :=
  if decide (ampm = [] \/ ampm = lit "am") then (if h =? 12 then 0 else h)
  else if decide (ampm = lit "pm") then (if h =? 12 then h else h + 12)
  else h.

(** One round of the loop of [_strptime] over the groups that matched. *)
Definition step (caps : captures) (p : parts) (g : string * str) : parts :=
  let '(name, v) := g in
  if String.eqb name "y" then
    let y := int_of v in
    mkParts (Some (if y <=? 68 then y + 2000 else y + 1900))
            (p_month p) (p_day p) (p_hour p) (p_minute p)
  else if String.eqb name "Y" then
    mkParts (Some (int_of v)) (p_month p) (p_day p) (p_hour p) (p_minute p)
  else if String.eqb name "m" then
    mkParts (p_year p) (int_of v) (p_day p) (p_hour p) (p_minute p)
  else if String.eqb name "d" then
    mkParts (p_year p) (p_month p) (int_of v) (p_hour p) (p_minute p)
  else if String.eqb name "H" then
    mkParts (p_year p) (p_month p) (p_day p) (int_of v) (p_minute p)
  else if String.eqb name "I" then
    let ampm := Str.lower (default [] (group caps "p")) in
    mkParts (p_year p) (p_month p) (p_day p) (hour_of (int_of v) ampm)
            (p_minute p)
  else if String.eqb name "M" then
    mkParts (p_year p) (p_month p) (p_day p) (p_hour p) (int_of v)
  else p.

(** The [datetime] constructor: a [ValueError] outside the ranges. *)
Definition make_datetime (p : parts) : option datetime :=
  let t := mkDatetime (default 1900 (p_year p)) (p_month p) (p_day p)
                      (p_hour p) (p_minute p) 0 0 in
  if DT.valid t then Some t else None.

(** [datetime.strptime(data, fmt)]; [None] is a [ValueError]: the pattern
    of the format does not match at the start of [data], or it leaves
    input unconverted, or the fields are no date. *)
Definition strptime (data fmt : str) : option datetime :=
  match pattern false fmt with
  | None => None
  | Some r =>
      match re_match true r data with
      | Some (caps, []) => make_datetime (foldl (step caps) parts0 caps)
      | _ => None
      end
  end.

End Strptime.

(** ** HeaderParser *)

(** The pattern of [parse_pre_plain_text]:
    [^\[(?P<time>[^,\]]+),\s(?P<date>[^\]]+)\]\s(?P<sender>.*?):\s?$] *)
Definition header_re : Re.re :=
  Re.cat [ Re.Chr (Re.Lit "[");
           Re.Group "time" (Re.Plus (Re.NoneOf ["," ; "]"]%char));
           Re.Chr (Re.Lit ","); Re.Chr Re.Space;
           Re.Group "date" (Re.Plus (Re.NoneOf ["]"]%char));
           Re.Chr (Re.Lit "]"); Re.Chr Re.Space;
           Re.Group "sender" (Re.LazyStar Re.Any);
           Re.Chr (Re.Lit ":"); Re.Opt Re.Space; Re.Eos ].

Definition date_formats : list str :=
  map lit [ "%m/%d/%Y %I:%M %p"; "%d/%m/%Y %I:%M %p";
            "%m/%d/%y %I:%M %p"; "%d/%m/%y %I:%M %p";
            "%m/%d/%Y %H:%M"; "%d/%m/%Y %H:%M";
            "%m/%d/%y %H:%M"; "%d/%m/%y %H:%M" ]%string.

(** The loop over [date_formats]: the first template that parses wins. *)
Fixpoint first_strptime (combined : str) (formats : list str) : option datetime :=
  match formats with
  | [] => None
  | fmt :: formats' =>
      match Strptime.strptime combined fmt with
      | Some t => Some t
      | None => first_strptime combined formats'
      end
  end.

(** What [parse_pre_plain_text] returns on a match. *)
Record header := mkHeader { h_sender : str; h_timestamp : datetime }.

Definition parse_pre_plain_text (pre_plain_text : str) : option header :=
  match Re.re_match false header_re (Str.strip pre_plain_text) with
  | None => None
  | Some (caps, _) =>
      let time_part := Str.strip (default [] (Re.group caps "time")) in
      let date_part := Str.strip (default [] (Re.group caps "date")) in
      let sender := Str.strip (default [] (Re.group caps "sender")) in
      let combined := date_part ++ lit " " ++ time_part in
      match first_strptime combined date_formats with
      | None => None
      | Some parsed_dt => Some (mkHeader sender parsed_dt)
      end
  end.

(** ** Scraping the rendered nodes *)

(** One node as the page script returns it. *)
Record raw_message := mkRaw { pre_plain_text : str; raw_text : str }.

(** [list.sort(key=...)] is stable: insertion from the right keeps equal
    keys in their order. *)
Fixpoint insert_by_timestamp (m : message) (l : list message) : list message :=
  match l with
  | [] => [m]
  | x :: l' =>
      if timestamp x <=dt timestamp m then x :: insert_by_timestamp m l'
      else m :: l
  end.

Definition sort_by_timestamp (l : list message) : list message :=
  foldl (fun acc m => insert_by_timestamp m acc) [] l.

(** The loop of [scrape_messages] over the raw nodes. *)
Fixpoint parse_raw_messages (raw_messages : list raw_message) : list message :=
  match raw_messages with
  | [] => []
  | item :: rest =>
      let parsed := parse_pre_plain_text (pre_plain_text item) in
      let text := Str.strip (raw_text item) in
      match parsed with
      | Some h =>
          if decide (text = []) then parse_raw_messages rest
          else mkMessage (h_sender h) (h_timestamp h) text :: parse_raw_messages rest
      | None => parse_raw_messages rest
      end
  end.

(** [scrape_messages], from the nodes the page returned. *)
Definition scrape_messages (raw_messages : list raw_message) : list message :=
  sort_by_timestamp (parse_raw_messages raw_messages).

(** ** RecordDeduplicator *)

(** A classified job as [main] builds it. *)
Record job := mkJob {
  date : str; job_sender : str; company : str; role : str;
  location : str; experience : str; skills : str; contact_email : str
}.

Global Instance job_eq_dec : EqDecision job.
Proof. solve_decision. Defined.

Definition bar : str := lit "|".

(** The f-string of the two keys: seven cells joined by a bar, trimmed,
    lower-cased. *)
Definition cells_key (c0 c1 c2 c3 c4 c5 c6 : str) : str :=
  Str.lower (Str.strip
    (c0 ++ bar ++ c1 ++ bar ++ c2 ++ bar ++ c3 ++ bar ++ c4 ++ bar ++ c5
     ++ bar ++ c6)).

(** [job_dedup_key] *)
Definition job_dedup_key (j : job) : str :=
  cells_key (date j) (company j) (role j) (location j) (experience j)
            (skills j) (contact_email j).

(** The key of the first seven cells of a row. *)
Definition row_cells_key (row : list str) : str :=
  cells_key (row !!! 0%nat) (row !!! 1%nat) (row !!! 2%nat) (row !!! 3%nat)
            (row !!! 4%nat) (row !!! 5%nat) (row !!! 6%nat).

(** The key of a row of the worksheet; a row with fewer than 7 cells is
    skipped. *)
Definition row_key (row : list str) : option str :=
  if (length row <? 7)%nat then None else Some (row_cells_key row).

(** The first loop of [deduplicate_jobs_for_sheet], over [existing_rows[1:]]. *)
Fixpoint existing_keys_from (keys : gset str) (rows : list (list str)) : gset str :=
  match rows with
  | [] => keys
  | row :: rows' =>
      match row_key row with
      | None => existing_keys_from keys rows'
      | Some k => existing_keys_from ({[k]} ∪ keys) rows'
      end
  end.

Definition existing_keys (existing_rows : list (list str)) : gset str :=
  existing_keys_from ∅ (drop 1 existing_rows).

(** The second loop, over the batch, with its [batch_seen] set. *)
Fixpoint unique_jobs_from (existing batch_seen : gset str) (jobs : list job)
  : list job :=
  match jobs with
  | [] => []
  | j :: jobs' =>
      let key := job_dedup_key j in
      if decide (key ∈ existing \/ key ∈ batch_seen)
      then unique_jobs_from existing batch_seen jobs'
      else j :: unique_jobs_from existing ({[key]} ∪ batch_seen) jobs'
  end.

(** [deduplicate_jobs_for_sheet], on the rows [worksheet.get_all_values()]
    returns. *)
Definition deduplicate_jobs_for_sheet (worksheet : list (list str))
    (jobs : list job) : list job :=
  match jobs with
  | [] => []
  | _ => unique_jobs_from (existing_keys worksheet) ∅ jobs
  end.

(** ** Values decoded from JSON *)

#[warnings="-register-all"]
Inductive pyval :=
| PNone
| PBool (b : bool)
| PInt (n : Z)
| PFloat (f : PrimFloat.float)
| PStr (s : str)
| PList (l : list pyval)
| PDict (d : gmap str pyval).

(** [bool(v)] *)
Definition truthy (v : pyval) : bool :=
  match v with
  | PNone => false
  | PBool b => b
  | PInt n => negb (n =? 0)
  | PFloat f => negb (PrimFloat.eqb f PrimFloat.zero)
  | PStr s => match s with [] => false | _ => true end
  | PList l => match l with [] => false | _ => true end
  | PDict d => negb (bool_decide (dom d = ∅))
  end.

(** ** Effects: the world the program acts on

    A run reads and writes the cursor file, calls the classification service,
    sleeps, reads and appends rows of the worksheet, sends a summary, and
    starts the outreach script. *)

Inductive exn :=
| RuntimeError | ValueError | TypeError | AttributeError | OverflowError
| ExternalError    (* raised by the Sheets, by the mail transport, or by the
                      start of the outreach script *)
| Unmodelled.      (* no exception of the program: the run has reached a step
                      that is not modelled (its outcome depends on the Python
                      version or on rounding, or its input is no value of the
                      program), and is not followed further *)

(** What one classification attempt comes to: [call_openrouter_api] raises,
    or its content is no JSON ([json.loads] raises), or it decodes to a
    value. *)
Inductive reply := CallRaises | NotJson | Json (v : pyval).

Inductive event :=
| Call (attempt : Z)
| Sleep (seconds : Q)
| Outreach.          (* the outreach script ran, and sent what mail it sends *)

(** [data/last_processed.json]. The JSON text is not modelled: the file
    holds the document [json.dumps] wrote, or text that [json.loads]
    rejects. *)
Inductive file_state := Absent | Garbled | Holds (doc : pyval).

Record world := mkWorld {
  w_file : file_state;
  w_calls : nat;                 (* calls made to the service so far *)
  w_trace : list event;          (* calls, sleeps and runs of the outreach
                                    script, oldest first *)
  w_sheet : list (list str);     (* rows of the worksheet *)
  w_mails : list (list job)      (* summaries sent, oldest first *)
}.

(** What [run_outreach_task] comes to. The script it starts,
    [scripts/company_outreach.py], opens the worksheet of [main], rewrites
    its header row and the status cells of its rows, and sends mail of its
    own; its return code is not looked at. *)
Inductive outreach_task :=
| OutreachSkipped    (* [RUN_OUTREACH_ON_MAIN] is not 1, true or yes, or the
                        script is missing *)
| OutreachRaises     (* [subprocess.run] raises *)
| OutreachRuns (rewrite : list (list str) -> list (list str)).
                     (* the script ran: the rows it leaves in the worksheet *)

(** What the program does not control. *)
Record externals := mkExternals {
  service : nat -> reply;        (* the reply to the n-th call *)
  str_of : pyval -> str;         (* [str(v)] on a value that is no [str] *)
  sheets_up : bool;              (* the Sheets API answers *)
  smtp_up : bool;                (* the mail transport answers *)
  user_entered : str -> str;     (* what the worksheet shows for a cell that
                                    was entered as this text *)
  outreach : outreach_task
}.

Inductive res (A : Type) := Ok (a : A) | Raise (e : exn).
Arguments Ok {A} a.
Arguments Raise {A} e.

(** State and exceptions: the world a computation leaves behind is kept also
    when it raises. *)
Definition M (A : Type) : Type := world -> res A * world.

Definition ret {A} (a : A) : M A := fun w => (Ok a, w).
Definition raise {A} (e : exn) : M A := fun w => (Raise e, w).
Definition bind {A B} (m : M A) (f : A -> M B) : M B :=
  fun w => match m w with
           | (Ok a, w') => f a w'
           | (Raise e, w') => (Raise e, w')
           end.

Declare Scope py_scope.
Delimit Scope py_scope with py.
Notation "'let*' x := m 'in' k" := (bind m (fun x => k))
  (at level 10, x name, m at level 100, k at level 200) : py_scope.
Open Scope py_scope.

(** ** ClassificationClient *)

(** [clean_key] *)
Definition clean_key (value : option str) : str :=
  let key := Str.strip (default [] value) in
  if decide (key = []) then []
  else if decide (Str.lower key ∈ [lit "replace_me"; lit "none"; lit "null"])
  then [] else key.

Definition k_relevant : str := lit "relevant".

Definition schema_template : gmap str pyval :=
  list_to_map [ (k_relevant, PBool false);
                (lit "company", PStr []); (lit "role", PStr []);
                (lit "location", PStr []); (lit "experience", PStr []);
                (lit "skills", PStr []); (lit "contact_email", PStr []) ].

(** One call of [call_openrouter_api] followed by [json.loads]. *)
Definition call_service (ext : externals) (attempt : Z) : M reply :=
  fun w => (Ok (service ext (w_calls w)),
            mkWorld (w_file w) (S (w_calls w)) (w_trace w ++ [Call attempt])
                    (w_sheet w) (w_mails w)).

(** [time.sleep] on Linux turns the duration into a signed 64-bit count of
    nanoseconds: up to [sleep_max] seconds that count exists, from
    [sleep_overflow] seconds on it does not. In between, which of the two
    holds depends on the version and on the rounding of the float. *)
Definition sleep_max : Q := 9223372036.
Definition sleep_overflow : Q := 9223372037.

(** [time.sleep]: an [OverflowError] on a duration too large to convert, a
    [ValueError] on a negative one. *)
Definition sleep (seconds : Q) : M unit :=
  fun w =>
    if Qle_bool (Qabs seconds) sleep_max then
      if Qle_bool 0 seconds
      then (Ok tt, mkWorld (w_file w) (w_calls w)
                           (w_trace w ++ [Sleep seconds])
                           (w_sheet w) (w_mails w))
      else (Raise ValueError, w)
    else if Qle_bool sleep_overflow (Qabs seconds) then (Raise OverflowError, w)
    else (Raise Unmodelled, w).

(** [initial_delay * (2 ** (attempt - 1))], with [initial_delay] a float: the
    power is an [int], and its conversion to a float raises an
    [OverflowError] from [2 ** 1024] on. Below that the product of a float
    by a power of two is exact, or infinite; [time.sleep] refuses an infinite
    duration like every duration too large. *)
Definition backoff_seconds (initial_delay : Q) (attempt : Z) : M Q :=
  if 1024 <? attempt then raise OverflowError
  else ret (initial_delay * inject_Z (2 ^ (attempt - 1)))%Q.

(** [{**schema_template, **payload}] with [relevant] coerced by [bool]. *)
Definition merge_result (payload : gmap str pyval) : gmap str pyval :=
  let result := payload ∪ schema_template in
  <[k_relevant := PBool (truthy (default (PBool false) (result !! k_relevant)))]>
    result.

(** The loop of [analyze_job_post] over [range(1, retries + 1)]. Whatever
    is raised inside the [try] (by the call, by [json.loads], or by the merge
    when the decoded value is no dictionary) is handled by the [except];
    what the handler itself raises, when it computes the pause or sleeps,
    leaves the function. *)
Fixpoint analyze_attempts (ext : externals) (retries : Z) (initial_delay : Q)
    (attempts : list Z) : M (gmap str pyval) :=
  match attempts with
  | [] => ret schema_template
  | attempt :: rest =>
      let* r := call_service ext attempt in
      match r with
      | Json (PDict payload) => ret (merge_result payload)
      | _ =>
          if retries <=? attempt then ret schema_template
          else
            let* sleep_seconds := backoff_seconds initial_delay attempt in
            let* _ := sleep sleep_seconds in
            analyze_attempts ext retries initial_delay rest
      end
  end.

(** [analyze_job_post]. The prompt is built from [text] and sent with every
    call; the replies are those of [service ext]. *)
Definition analyze_job_post (ext : externals) (text : str)
    (openrouter_key : option str) (retries : Z) (initial_delay : Q)
  : M (gmap str pyval) :=
  let or_key := clean_key openrouter_key in
  if decide (or_key = []) then raise RuntimeError
  else analyze_attempts ext retries initial_delay (seqZ 1 retries).

Definition default_retries : Z := 3.
Definition default_initial_delay : Q := 2.

(** ** IncrementalCursor *)

Module Iso.

(** The value of a run of exactly [n] decimal digits. *)
Definition number (n : nat) (s : str) : option Z :=
  if decide (length s = n /\ forallb Str.is_digit s = true)
  then Some (foldl (fun acc c => 10 * acc + Str.digit_val c) 0 s)
  else None.

(** The fraction of a second: 3 or 6 digits, in microseconds. *)
Definition fraction (s : str) : option Z :=
  match number 6 s, number 3 s with
  | Some us, _ => Some us
  | None, Some ms => Some (ms * 1000)
  | None, None => None
  end.

(** [HH], [HH:MM], [HH:MM:SS], [HH:MM:SS.fff] or [HH:MM:SS.ffffff]. *)
Definition time_of (s : str) : option (Z * Z * Z * Z) :=
  match s with
  | [h1; h2] =>
      h ← number 2 [h1; h2]; Some (h, 0, 0, 0)
  | [h1; h2; ":"%char; m1; m2] =>
      h ← number 2 [h1; h2]; m ← number 2 [m1; m2]; Some (h, m, 0, 0)
  | [h1; h2; ":"%char; m1; m2; ":"%char; s1; s2] =>
      h ← number 2 [h1; h2]; m ← number 2 [m1; m2];
      sec ← number 2 [s1; s2]; Some (h, m, sec, 0)
  | h1 :: h2 :: ":"%char :: m1 :: m2 :: ":"%char :: s1 :: s2 :: "."%char :: f =>
      h ← number 2 [h1; h2]; m ← number 2 [m1; m2];
      sec ← number 2 [s1; s2]; us ← fraction f; Some (h, m, sec, us)
  | _ => None
  end.

(** [datetime.fromisoformat] on the layout a naive [isoformat] writes:
    [YYYY-MM-DD], then optionally one separator character and a time, every
    field a valid one. Every version of Python reads such a string as this
    datetime. [None] says that the string is not of that kind, not that it
    is refused: a UTC offset gives an aware datetime, and later versions
    read further layouts. *)
Definition fromisoformat (s : str) : option datetime :=
  match s with
  | y1 :: y2 :: y3 :: y4 :: "-"%char :: m1 :: m2 :: "-"%char :: d1 :: d2 :: rest =>
      y ← number 4 [y1; y2; y3; y4];
      m ← number 2 [m1; m2];
      d ← number 2 [d1; d2];
      '(h, mi, sec, us) ← match rest with
                          | [] => Some (0, 0, 0, 0)
                          | _ :: tstr => time_of tstr
                          end;
      let t := mkDatetime y m d h mi sec us in
      if DT.valid t then Some t else None
  | _ => None
  end.

End Iso.

Definition k_last : str := lit "last_message_timestamp".

(** [load_last_processed_timestamp]. A [JSONDecodeError] and the
    [ValueError] of [fromisoformat] are caught; a document that is no
    dictionary has no [get], and a truthy value that is no string is refused
    by [fromisoformat] with a [TypeError]: those two are not caught.

    Of the strings, those of the layout above are read as their datetime,
    and those of fewer than 7 characters are refused by every version with a
    [ValueError]. What [fromisoformat] makes of any other string (a
    [ValueError], a naive datetime or an aware one, which [main] cannot
    compare with the timestamp of a message) depends on the version: the run
    is not followed there. *)
Definition load_last_processed_timestamp : M (option datetime) :=
  fun w =>
    match w_file w with
    | Absent => (Ok None, w)
    | Garbled => (Ok None, w)
    | Holds (PDict payload) =>
        let ts := default PNone (payload !! k_last) in
        if truthy ts then
          match ts with
          | PStr s =>
              match Iso.fromisoformat s with
              | Some t => (Ok (Some t), w)
              | None =>
                  if (length s <? 7)%nat then (Ok None, w)
                  else (Raise Unmodelled, w)
              end
          | _ => (Raise TypeError, w)
          end
        else (Ok None, w)
    | Holds _ => (Raise AttributeError, w)
    end.

(** [save_last_processed_timestamp]. A [datetime] of the program is within
    the ranges of its constructor; a record that is not stands for no value
    of the program, and no text of it is modelled. *)
Definition save_last_processed_timestamp (ts : datetime) : M unit :=
  fun w =>
    if DT.valid ts then
      (Ok tt, mkWorld (Holds (PDict {[ k_last := PStr (DT.isoformat ts) ]}))
                      (w_calls w) (w_trace w) (w_sheet w) (w_mails w))
    else (Raise Unmodelled, w).

(** The cutoff filter of [main]: the comprehension over the deduplicated
    messages when a cursor was loaded (a [datetime] is always truthy), all of
    them otherwise. *)
Fixpoint newer_than (last_processed : datetime) (messages : list message)
  : list message :=
  match messages with
  | [] => []
  | m :: rest =>
      if last_processed <dt timestamp m
      then m :: newer_than last_processed rest
      else newer_than last_processed rest
  end.

Definition messages_to_analyze (last_processed : option datetime)
    (deduped_messages : list message) : list message :=
  match last_processed with
  | Some t => newer_than t deduped_messages
  | None => deduped_messages
  end.

(** [max(m["timestamp"] for m in messages)]: the first of the largest ones;
    [None] is the [ValueError] on an empty sequence. *)
Fixpoint max_timestamp_from (best : datetime) (messages : list message) : datetime :=
  match messages with
  | [] => best
  | m :: rest =>
      max_timestamp_from (if best <dt timestamp m then timestamp m else best) rest
  end.

Definition max_timestamp (messages : list message) : option datetime :=
  match messages with
  | [] => None
  | m :: rest => Some (max_timestamp_from (timestamp m) rest)
  end.

(** ** The run *)

(** The part of [validate_env]'s result the core reads. *)
Record config := mkConfig { openrouter_api_key : str }.

(** The text of a value where the program formats it into a cell or a key. *)
Definition text_of (ext : externals) (v : pyval) : str :=
  match v with PStr s => s | _ => str_of ext v end.

(** [ai_result.get(k, "")], as text. *)
Definition lookup_str (ext : externals) (d : gmap str pyval) (k : str) : str :=
  text_of ext (default (PStr []) (d !! k)).

(** The [skills] cell: a list is joined with a comma, leaving out the items
    whose text is blank; the text of the value is trimmed. *)
Definition skills_text (ext : externals) (d : gmap str pyval) : str :=
  match default (PStr []) (d !! lit "skills") with
  | PList l =>
      let items := filter (fun s => Str.strip s <> []) (map (text_of ext) l) in
      Str.strip (Str.join (lit ", ") items)
  | v => Str.strip (text_of ext v)
  end.

Definition job_of (ext : externals) (msg : message) (ai_result : gmap str pyval) : job :=
  mkJob (Strftime.strftime (lit "%Y-%m-%d %H:%M") (timestamp msg))
        (sender msg)
        (lookup_str ext ai_result (lit "company"))
        (lookup_str ext ai_result (lit "role"))
        (lookup_str ext ai_result (lit "location"))
        (lookup_str ext ai_result (lit "experience"))
        (skills_text ext ai_result)
        (lookup_str ext ai_result (lit "contact_email")).

(** The classification loop of [main]. *)
Fixpoint classify_all (ext : externals) (cfg : config) (messages : list message)
  : M (list job) :=
  match messages with
  | [] => ret []
  | msg :: rest =>
      let* ai_result := analyze_job_post ext (text msg)
                          (Some (openrouter_api_key cfg))
                          default_retries default_initial_delay in
      let* jobs := classify_all ext cfg rest in
      if truthy (default PNone (ai_result !! k_relevant))
      then ret (job_of ext msg ai_result :: jobs)
      else ret jobs
  end.

Definition sheet_headers : list str :=
  map lit [ "Date"; "Company"; "Role"; "Location"; "Experience"; "Skills";
            "Contact Email" ]%string.

(** [get_gspread_client] and [ensure_sheet]: the first row becomes the header
    row when it is not. *)
Definition ensure_sheet (ext : externals) : M unit :=
  fun w =>
    if sheets_up ext then
      let rows := match w_sheet w with
                  | [] => [sheet_headers]
                  | row :: rows' =>
                      if decide (row = sheet_headers) then row :: rows'
                      else (sheet_headers ++ drop 7 row) :: rows'
                  end in
      (Ok tt, mkWorld (w_file w) (w_calls w) (w_trace w) rows (w_mails w))
    else (Raise ExternalError, w).

(** [worksheet.get_all_values()]: the cells as the worksheet shows them. *)
Definition get_all_values (ext : externals) : M (list (list str)) :=
  fun w => if sheets_up ext then (Ok (w_sheet w), w) else (Raise ExternalError, w).

Definition job_row (j : job) : list str :=
  [date j; company j; role j; location j; experience j; skills j; contact_email j].

(** A row appended with [value_input_option="USER_ENTERED"]: every cell is
    taken as if it had been typed in, and shows as the worksheet formats
    what it made of it. *)
Definition entered_row (ext : externals) (row : list str) : list str :=
  map (user_entered ext) row.

(** [append_relevant_jobs] *)
Definition append_relevant_jobs (ext : externals) (jobs : list job) : M unit :=
  fun w =>
    match jobs with
    | [] => (Ok tt, w)
    | _ =>
        if sheets_up ext then
          (Ok tt, mkWorld (w_file w) (w_calls w) (w_trace w)
                          (w_sheet w ++ map (entered_row ext) (map job_row jobs))
                          (w_mails w))
        else (Raise ExternalError, w)
    end.

(** [send_email_summary] *)
Definition send_email_summary (ext : externals) (jobs : list job) : M unit :=
  fun w =>
    if smtp_up ext then
      (Ok tt, mkWorld (w_file w) (w_calls w) (w_trace w) (w_sheet w)
                      (w_mails w ++ [jobs]))
    else (Raise ExternalError, w).

(** Steps 6 to 9 of [main]. *)
Definition persist_jobs (ext : externals) (relevant_jobs : list job) : M unit :=
  match relevant_jobs with
  | [] => ret tt
  | _ =>
      let* _ := ensure_sheet ext in
      let* existing_rows := get_all_values ext in
      let unique_jobs := deduplicate_jobs_for_sheet existing_rows relevant_jobs in
      match unique_jobs with
      | [] => ret tt
      | _ =>
          let* _ := append_relevant_jobs ext unique_jobs in
          send_email_summary ext unique_jobs
      end
  end.



(** * Properties

    What the specification states, in terms of the definitions above. *)

(** A string that does not start, or does not end, with white space. *)
Definition no_lead (s : str) : Prop :=
  match s with c :: _ => Str.isspace c = false | [] => True end.

Definition no_trail (s : str) : Prop := Str.rstrip s = s.

(** The value of a run of decimal digits, from [acc]. *)
Definition value_from (acc : Z) (s : str) : Z :=
  foldl (fun acc c => 10 * acc + Str.digit_val c) acc s.

(** The worksheet is a header row followed by the store's rows: [k] is the
    key of a stored row with at least 7 cells. *)
Definition stored_key (worksheet : list (list str)) (k : str) : Prop :=
  exists row, row ∈ drop 1 worksheet /\ (7 <= length row)%nat
              /\ k = row_cells_key row.

(** The seven key fields of two jobs agree up to letter case. *)
Definition same_up_to_case (a b : job) : Prop :=
  Str.lower (date a) = Str.lower (date b)
  /\ Str.lower (company a) = Str.lower (company b)
  /\ Str.lower (role a) = Str.lower (role b)
  /\ Str.lower (location a) = Str.lower (location b)
  /\ Str.lower (experience a) = Str.lower (experience b)
  /\ Str.lower (skills a) = Str.lower (skills b)
  /\ Str.lower (contact_email a) = Str.lower (contact_email b).

(** No key field of [j] holds a bar. *)
Definition bar_free (j : job) : Prop :=
  Forall (fun s => "|"%char ∉ s) (job_row j).

(** What the key keeps of the seven fields: their letters up to case, without
    the white space before the date and after the contact. *)
Definition same_key_fields (a b : job) : Prop :=
  Str.lower (Str.lstrip (date a)) = Str.lower (Str.lstrip (date b))
  /\ Str.lower (company a) = Str.lower (company b)
  /\ Str.lower (role a) = Str.lower (role b)
  /\ Str.lower (location a) = Str.lower (location b)
  /\ Str.lower (experience a) = Str.lower (experience b)
  /\ Str.lower (skills a) = Str.lower (skills b)
  /\ Str.lower (Str.rstrip (contact_email a))
     = Str.lower (Str.rstrip (contact_email b)).

(** An attempt fails when the call raises, when [json.loads] raises, or when
    the decoded value is no dictionary (the merge raises a [TypeError]). *)
Definition attempt_fails (r : reply) : Prop :=
  match r with
  | Json (PDict _) => False
  | _ => True
  end.

(** What the all-failing client does: every attempt is a call, followed,
    unless it is the last one, by a sleep of [initial_delay * 2^(attempt-1)]. *)
Definition backoff_events (retries : Z) (initial_delay : Q) (attempts : list Z)
  : list event :=
  flat_map (fun a => Call a ::
                     if a <? retries
                     then [Sleep (initial_delay * inject_Z (2 ^ (a - 1)))%Q]
                     else [])
           attempts.

Definition calls_of (tr : list event) : list Z :=
  flat_map (fun e => match e with Call a => [a] | _ => [] end) tr.

Definition sleeps_of (tr : list event) : list Q :=
  flat_map (fun e => match e with Sleep d => [d] | _ => [] end) tr.

(** The pause after attempt [a] is one the handler can compute and
    [time.sleep] takes: the power is one a float holds, and the duration is
    neither negative nor above [sleep_max]. *)
Definition pause_accepted (initial_delay : Q) (a : Z) : Prop :=
  a <= 1024
  /\ (0 <= initial_delay * inject_Z (2 ^ (a - 1)))%Q
  /\ (initial_delay * inject_Z (2 ^ (a - 1)) <= sleep_max)%Q.

(** Every pause of a client that makes up to [retries] attempts is accepted:
    it pauses after each attempt but the last. *)
Definition backoff_accepted (retries : Z) (initial_delay : Q) : Prop :=
  forall a, 1 <= a < retries -> pause_accepted initial_delay a.

(** The keys of the schema and what a result must look like. *)
Definition business_fields : list str :=
  map lit ["company"; "role"; "location"; "experience"; "skills";
           "contact_email"]%string.

Definition job_shaped (d : gmap str pyval) : Prop :=
  (forall k, k ∈ business_fields -> is_Some (d !! k))
  /\ exists b, d !! k_relevant = Some (PBool b).

(** [t] is the largest timestamp of [l]. *)
Definition is_latest (l : list message) (t : datetime) : Prop :=
  (exists m, m ∈ l /\ timestamp m = t)
  /\ forall m, m ∈ l -> (timestamp m <=dt t) = true.


(** The classification client touches neither the cursor file, nor the
    worksheet, nor the mails. *)
Definition same_store (w w' : world) : Prop :=
  w_file w' = w_file w /\ w_sheet w' = w_sheet w /\ w_mails w' = w_mails w.



(** ** The header round trip *)

(** The template of [date_formats] with a day-first or a month-first date, a
    4- or a 2-digit year, and a 12- or a 24-hour time. *)
Definition template (day_first four_digit twelve_hour : bool) : str :=
  lit (if day_first then "%d/%m/" else "%m/%d/")
  ++ lit (if four_digit then "%Y" else "%y") ++ lit " "
  ++ lit (if twelve_hour then "%I:%M %p" else "%H:%M").

(** The date part and the time part of a template: what stands before and
    after its first blank. *)
Fixpoint split_template (fmt : str) : str * str :=
  match fmt with
  | [] => ([], [])
  | c :: fmt' =>
      if Ascii.eqb c " " then ([], fmt')
      else let '(d, t) := split_template fmt' in (c :: d, t)
  end.

(** The header of a message of [sender] at [t] as a transcript in the locale
    of the template [fmt] shows it: [[<time>, <date>] sender:]. *)
Definition synth_header (fmt sender : str) (t : datetime) : str :=
  let '(date_fmt, time_fmt) := split_template fmt in
  lit "[" ++ Strftime.strftime time_fmt t ++ lit ", "
  ++ Strftime.strftime date_fmt t ++ lit "] " ++ sender ++ lit ":".

Definition swap_day_month (t : datetime) : datetime :=
  mkDatetime (year t) (day t) (month t) (hour t) (minute t) (second t)
             (microsecond t).

(** How [parse_pre_plain_text] reads a date that was written day first:
    month first, when that is a date. *)
Definition first_reading (day_first : bool) (t : datetime) : datetime :=
  if day_first && (day t <=? 12) then swap_day_month t else t.

(** A timestamp that the header of a template can express: whole minutes,
    and a year the year field can hold. *)
Definition expressible (four_digit : bool) (t : datetime) : Prop :=
  DT.valid t = true /\ second t = 0 /\ microsecond t = 0
  /\ if four_digit then 1000 <= year t else 1969 <= year t <= 2068.

(** A sender the header shows as it is: trimmed and on one line. *)
Definition plain_sender (s : str) : Prop :=
  Str.strip s = s /\ Forall (fun c => c <> "010"%char) s.

(** The pattern of a directive of the table. *)
Definition re_of (c : ascii) : Re.re :=
  match Strptime.directive c with Some r => r | None => Re.Empty end.

(** The pattern [strptime] builds for a template. *)
Definition template_re (day_first four_digit twelve_hour : bool) : Re.re :=
  let slash := Re.Chr (Re.Lit "/") in
  let colon := Re.Chr (Re.Lit ":") in
  let blank := Re.Plus Re.Space in
  Re.Cat (re_of (if day_first then "d" else "m")) (Re.Cat slash
  (Re.Cat (re_of (if day_first then "m" else "d")) (Re.Cat slash
  (Re.Cat (re_of (if four_digit then "Y" else "y")) (Re.Cat blank
  (if twelve_hour
   then Re.Cat (re_of "I") (Re.Cat colon (Re.Cat (re_of "M")
        (Re.Cat blank (Re.Cat (re_of "p") Re.Empty))))
   else Re.Cat (re_of "H") (Re.Cat colon (Re.Cat (re_of "M") Re.Empty)))))))).

(** The text [strftime] writes for a template. *)
Definition date_text (day_first four_digit : bool) (t : datetime) (rest : str) : str :=
  Str.pad 2 (if day_first then day t else month t) ++ "/"%char ::
  Str.pad 2 (if day_first then month t else day t) ++ "/"%char ::
  (if four_digit then Str.pad 4 (year t) else Str.pad 2 (year t mod 100)) ++ rest.

Definition meridiem (t : datetime) : str :=
  if hour t <? 12 then lit "AM" else lit "PM".

Definition time_text (twelve_hour : bool) (t : datetime) : str :=
  if twelve_hour
  then Str.pad 2 (Strftime.hour12 (hour t)) ++ ":"%char ::
       Str.pad 2 (minute t) ++ " "%char :: meridiem t
  else Str.pad 2 (hour t) ++ ":"%char :: Str.pad 2 (minute t).

(** After a numeric field the pattern expects the separator [sep]. *)
Definition expect {R} (sep : ascii) (F : str -> Re.captures -> option R)
  : str -> Re.captures -> option R :=
  fun s caps =>
    match s with
    | c :: s' => if Re.cls_match true (Re.Lit sep) c then F s' caps else None
    | [] => None
    end.

(** The continuation of [re.match]: the groups and the input left. *)
Definition cont0 : str -> Re.captures -> option (Re.captures * str) :=
  fun s' caps => Some (caps, s').
(** * Further code of [main.py] *)

(** ** The scroll-back loop *)

(** One round of [scrape_all_loaded_messages]: the nodes [scrape_messages]
    finds in the page, and what [scroll_chat_up] reports afterwards. *)
Record scroll_round := mkRound {
  r_nodes : list raw_message;
  r_found : bool;                (* [metrics.get("found")] *)
  r_at_top : bool                (* [metrics.get("at_top")] *)
}.

(** The [while] loop. [rounds] are the rounds the clock allows: the time
    budget lasts before each of them and is used up after the last one. A
    round whose scroll finds no container, or reaches the top, ends the
    loop. *)
Fixpoint collect_rounds (all_messages : list message) (rounds : list scroll_round)
  : list message :=
  match rounds with
  | [] => all_messages
  | r :: rest =>
      let all_messages' := all_messages ++ scrape_messages (r_nodes r) in
      if negb (r_found r) then all_messages'
      else if r_at_top r then all_messages'
      else collect_rounds all_messages' rest
  end.

(** [scrape_all_loaded_messages] *)
Definition scrape_all_loaded_messages (rounds : list scroll_round) : list message :=
  sort_by_timestamp (deduplicate_messages (collect_rounds [] rounds)).

(** ** The completion request *)

(** What the HTTP exchange of [call_openrouter_api] comes to: the request,
    [raise_for_status] or [response.json()] raises, or the body decodes to
    [data]. *)
Inductive http_reply := HttpRaises | HttpData (data : pyval).

(** [json.dumps] and [json.loads]; [None] is a [JSONDecodeError]. *)
Record json_codec := mkCodec {
  dumps : pyval -> str;
  loads : str -> option pyval
}.

(** [data["choices"][0]["message"]["content"]]; [None] when one of the four
    subscripts raises. A string subscripted by [0] gives a string, which has
    no key ["message"]. *)
Definition content_of (data : pyval) : option pyval :=
  match data with
  | PDict d =>
      match d !! lit "choices" with
      | Some (PList (PDict choice :: _)) =>
          match choice !! lit "message" with
          | Some (PDict msg) => msg !! lit "content"
          | _ => None
          end
      | _ => None
      end
  | _ => None
  end.

(** [call_openrouter_api]; [None] when it raises. *)
Definition call_openrouter_api (j : json_codec) (h : http_reply) : option pyval :=
  match h with
  | HttpRaises => None
  | HttpData data =>
      Some (match content_of data with
            | Some content => content
            | None => PStr (dumps j data)
            end)
  end.

(** The call followed by [json.loads(content)], which accepts text only. *)
Definition attempt_reply (j : json_codec) (h : http_reply) : reply :=
  match call_openrouter_api j h with
  | None => CallRaises
  | Some (PStr content) =>
      match loads j content with
      | Some v => Json v
      | None => NotJson
      end
  | Some _ => NotJson
  end.

(** ** The environment *)

(** [os.environ] after [load_dotenv()]. *)
Definition environ := gmap str str.

Inductive env_error :=
| MissingVariables (names : list str)     (* the [ValueError] *)
| KeyError (name : str).                  (* [os.environ[name]] *)

Definition required_vars : list str :=
  map lit [ "GMAIL_USER"; "GMAIL_APP_PASSWORD"; "GOOGLE_SERVICE_ACCOUNT_FILE";
            "OPENROUTER_API_KEY" ]%string.

(** [os.getenv(var, dflt)] *)
Definition getenv (env : environ) (var : string) (dflt : str) : str :=
  default dflt (env !! lit var).

(** [[var for var in required_vars if not os.getenv(var)]] *)
Definition missing_vars (env : environ) : list str :=
  filter (fun var => default [] (env !! var) = []) required_vars.

Definition DEFAULT_SHEET_URL : str :=
  lit "https://docs.google.com/spreadsheets/d/1R5HHz-q7XYZ-AhVpO_Rv-40W7XiJYelBXKHQH3omAhc/edit?gid=0#gid=0".

(** The dictionary [validate_env] returns. *)
Record settings := mkSettings {
  s_openrouter_api_key : str;
  s_openrouter_model : str;
  s_openrouter_site_url : str;
  s_openrouter_site_name : str;
  s_gmail_user : str;
  s_gmail_app_password : str;
  s_service_account_file : str;
  s_google_sheet_url : str
}.

(** [validate_env] *)
Definition validate_env (env : environ) : settings + env_error :=
  match missing_vars env with
  | (_ :: _) as missing => inr (MissingVariables missing)
  | [] =>
      match env !! lit "GMAIL_USER", env !! lit "GMAIL_APP_PASSWORD",
            env !! lit "GOOGLE_SERVICE_ACCOUNT_FILE" with
      | Some user, Some password, Some file =>
          inl (mkSettings
                 (getenv env "OPENROUTER_API_KEY" [])
                 (getenv env "OPENROUTER_MODEL" (lit "openai/gpt-4o-mini"))
                 (getenv env "OPENROUTER_SITE_URL" [])
                 (getenv env "OPENROUTER_SITE_NAME" (lit "Job Scrapping - Whatsapp"))
                 user password file
                 (getenv env "GOOGLE_SHEET_URL" DEFAULT_SHEET_URL))
      | None, _, _ => inr (KeyError (lit "GMAIL_USER"))
      | _, None, _ => inr (KeyError (lit "GMAIL_APP_PASSWORD"))
      | _, _, None => inr (KeyError (lit "GOOGLE_SERVICE_ACCOUNT_FILE"))
      end
  end.

(** * Further properties *)

(** The deduplication keys of a list of messages, and of a batch of jobs. *)
Definition message_keys (l : list message) : list str := map message_dedup_key l.

Definition job_keys (l : list job) : list str := map job_dedup_key l.

(** Ascending timestamps. *)
Definition by_timestamp (a b : message) : Prop :=
  (timestamp a <=dt timestamp b) = true.

(** The messages of [l] that carry the timestamp [t], in their order. *)
Definition at_time (t : datetime) (l : list message) : list message :=
  filter (fun m => timestamp m = t) l.

(** What the parser produces: a trimmed sender, a trimmed text that is not
    empty, and a timestamp that is a date, at a whole minute. *)
Definition well_formed (m : message) : Prop :=
  Str.strip (sender m) = sender m
  /\ Str.strip (text m) = text m /\ text m <> []
  /\ DT.valid (timestamp m) = true
  /\ second (timestamp m) = 0 /\ microsecond (timestamp m) = 0.

(** A round that ends the scroll-back loop. *)
Definition stops (r : scroll_round) : Prop :=
  r_found r = false \/ r_at_top r = true.

(** The batches of the rounds, one after the other. *)
Definition batches (rounds : list scroll_round) : list message :=
  concat (map (fun r => scrape_messages (r_nodes r)) rounds).

(** The rows [ensure_sheet] leaves: the first seven cells of the first row
    are the headers. *)
Definition with_headers (sheet : list (list str)) : list (list str) :=
  match sheet with
  | [] => [sheet_headers]
  | row :: rows =>
      if decide (row = sheet_headers) then row :: rows
      else (sheet_headers ++ drop 7 row) :: rows
  end.

(** The worksheet shows the rows appended for [jobs] with the keys the jobs
    have: what it made of the cells that were entered differs from them at
    most in letter case and in white space at the two ends of the row. *)
Definition shown_with_key (ext : externals) (jobs : list job) : Prop :=
  forall j, j ∈ jobs ->
    row_key (entered_row ext (job_row j)) = Some (job_dedup_key j).

(** The world with other rows in the worksheet, or a further summary. *)
Definition set_sheet (w : world) (sheet : list (list str)) : world :=
  mkWorld (w_file w) (w_calls w) (w_trace w) sheet (w_mails w).

Definition add_mail (w : world) (jobs : list job) : world :=
  mkWorld (w_file w) (w_calls w) (w_trace w) (w_sheet w) (w_mails w ++ [jobs]).

(** The trace of a client that made the [k] attempts from attempt [a] on:
    call, sleep, call, ..., call, with no sleep before the first call or
    after the last one; the sleep that follows attempt [i] takes
    [initial_delay * 2^(i-1)] seconds. *)
Definition attempt_events_from (initial_delay : Q) (a : Z) (k : nat) : list event :=
  backoff_events (a + Z.of_nat k - 1) initial_delay (seqZ a (Z.of_nat k)).

Definition attempt_events (initial_delay : Q) (k : nat) : list event :=
  attempt_events_from initial_delay 1 k.

(** The date cell of a job whose year has four digits: [YYYY-MM-DD HH:MM]. *)
Definition date_cell (t : datetime) : str :=
  Str.pad 4 (year t) ++ "-"%char :: Str.pad 2 (month t) ++ "-"%char ::
  Str.pad 2 (day t) ++ " "%char :: Str.pad 2 (hour t) ++ ":"%char ::
  Str.pad 2 (minute t).

(** A variable that is set to a text that is not empty. *)
Definition is_set (env : environ) (var : str) : Prop :=
  exists v, env !! var = Some v /\ v <> [].

(** The header of a message the way the source's comment shows it,
    [[12:34 PM, 2/25/2026] Sender Name:]: hour, month and day without a
    leading zero, a 12-hour clock, the month first and a 4-digit year. *)
Definition typical_time (t : datetime) : str :=
  Str.dec (Strftime.hour12 (hour t)) ++ ":"%char ::
  Str.pad 2 (minute t) ++ " "%char :: meridiem t.

Definition typical_date (t : datetime) (rest : str) : str :=
  Str.dec (month t) ++ "/"%char :: Str.dec (day t) ++ "/"%char ::
  Str.pad 4 (year t) ++ rest.

Definition typical_header (sender : str) (t : datetime) : str :=
  lit "[" ++ typical_time t ++ lit ", " ++ typical_date t [] ++ lit "] "
  ++ sender ++ lit ":".

(** * Proofs *)

(** ** Strings *)

Module StrFacts.
Import Str.

Lemma lstrip_no_lead s : no_lead (lstrip s).
Proof.
  induction s as [|c s IH]; simpl; [done|].
  destruct (isspace c) eqn:E; [done|]. simpl. done.
Qed.

Lemma lstrip_id s : no_lead s -> lstrip s = s.
Proof. destruct s as [|c s]; simpl; [done|]. by intros ->. Qed.

Lemma rstrip_idem s : rstrip (rstrip s) = rstrip s.
Proof.
  induction s as [|c s IH]; simpl; [done|].
  destruct (rstrip s) as [|d r] eqn:E.
  - destruct (isspace c) eqn:Ec; simpl; [done|]. by rewrite Ec.
  - change (rstrip (c :: d :: r)) with
      (match rstrip (d :: r) with
       | [] => if isspace c then [] else [c]
       | x => c :: x
       end).
    by rewrite IH.
Qed.

Lemma rstrip_no_lead s : no_lead s -> no_lead (rstrip s).
Proof.
  destruct s as [|c s]; simpl; [done|]. intros Hc.
  destruct (rstrip s); [by rewrite Hc|done].
Qed.

Lemma strip_no_lead s : no_lead (strip s).
Proof. apply rstrip_no_lead, lstrip_no_lead. Qed.

Lemma strip_no_trail s : no_trail (strip s).
Proof. apply rstrip_idem. Qed.

Lemma strip_id s : no_lead s -> no_trail s -> strip s = s.
Proof. intros H1 H2. unfold strip. by rewrite lstrip_id. Qed.

Lemma strip_idem s : strip (strip s) = strip s.
Proof. apply strip_id; [apply strip_no_lead|apply strip_no_trail]. Qed.

Lemma rstrip_snoc s c : isspace c = false -> rstrip (s ++ [c]) = s ++ [c].
Proof.
  intros Hc. induction s as [|d s IH]; simpl; [by rewrite Hc|].
  rewrite IH. by destruct s.
Qed.

Lemma isspace_lower c : isspace (lower_char c) = isspace c.
Proof. by destruct c as [[] [] [] [] [] [] [] []]. Qed.

Lemma lower_lstrip s : lower (lstrip s) = lstrip (lower s).
Proof.
  induction s as [|c s IH]; simpl; [done|].
  rewrite isspace_lower. by destruct (isspace c).
Qed.

Lemma lower_rstrip s : lower (rstrip s) = rstrip (lower s).
Proof.
  induction s as [|c s IH]; simpl; [done|].
  rewrite <- IH, isspace_lower.
  destruct (rstrip s); simpl; [by destruct (isspace c)|done].
Qed.

Lemma lower_strip s : lower (strip s) = strip (lower s).
Proof. unfold strip. by rewrite lower_rstrip, lower_lstrip. Qed.

Lemma lower_app s t : lower (s ++ t) = lower s ++ lower t.
Proof. apply map_app. Qed.

Lemma lower_char_bar c : lower_char c = "|"%char -> c = "|"%char.
Proof.
  destruct c as [[] [] [] [] [] [] [] []]; vm_compute; intros H;
    first [reflexivity|discriminate H].
Qed.

Lemma lower_no_bar s : "|"%char ∉ s -> "|"%char ∉ lower s.
Proof.
  induction s as [|c s IH]; simpl; [done|].
  rewrite !not_elem_of_cons. intros [Hc Hs]. split; [|by apply IH].
  intros H. apply Hc. symmetry. by apply lower_char_bar.
Qed.

Lemma lstrip_no_bar s : "|"%char ∉ s -> "|"%char ∉ lstrip s.
Proof.
  induction s as [|c s IH]; simpl; [done|].
  intros H. destruct (isspace c); [|done].
  apply IH. intros Hs. apply H. by right.
Qed.

(** What is stripped at the left stands before the first bar, what is
    stripped at the right after the last one. *)
Lemma lstrip_bar a r : lstrip (a ++ "|"%char :: r) = lstrip a ++ "|"%char :: r.
Proof.
  induction a as [|c a IH]; simpl; [done|]. by destruct (isspace c).
Qed.

Lemma rstrip_bar l z : rstrip (l ++ "|"%char :: z) = l ++ "|"%char :: rstrip z.
Proof.
  induction l as [|c l IH].
  - simpl. by destruct (rstrip z).
  - change (rstrip ((c :: l) ++ "|"%char :: z))
      with (match rstrip (l ++ "|"%char :: z) with
            | [] => if isspace c then [] else [c]
            | r => c :: r
            end).
    rewrite IH. by destruct l.
Qed.

End StrFacts.

Section FirstBar.
Variable sep : ascii.

Lemma split_at_first a b x y :
  sep ∉ a -> sep ∉ b -> a ++ sep :: x = b ++ sep :: y -> a = b /\ x = y.
Proof.
  revert b. induction a as [|c a IH]; intros [|d b] Ha Hb E; simpl in E.
  - by inversion E.
  - inversion E; subst. exfalso. apply Hb. left.
  - inversion E; subst. exfalso. apply Ha. left.
  - inversion E; subst.
    destruct (IH b) as [-> ->]; auto.
    + intros H. apply Ha. by right.
    + intros H. apply Hb. by right.
Qed.

End FirstBar.


(** ** The order on datetimes *)

Module DTFacts.
Import DT.

Lemma lex_ltb_irrefl a : lex_ltb a a = false.
Proof.
  induction a as [|x a IH]; simpl; [done|].
  rewrite IH, Z.ltb_irrefl. by rewrite andb_false_r.
Qed.

Lemma lex_ltb_trans a b c :
  length a = length b -> length b = length c ->
  lex_ltb a b = true -> lex_ltb b c = true -> lex_ltb a c = true.
Proof.
  revert b c. induction a as [|x a IH]; intros [|y b] [|z c]; simpl; try done.
  intros Hab Hbc H1 H2.
  apply orb_true_iff in H1, H2. apply orb_true_iff.
  destruct H1 as [H1|H1], H2 as [H2|H2].
  - left. apply Z.ltb_lt. apply Z.ltb_lt in H1, H2. lia.
  - left. apply andb_true_iff in H2 as [H2 _].
    apply Z.ltb_lt. apply Z.ltb_lt in H1. apply Z.eqb_eq in H2. lia.
  - left. apply andb_true_iff in H1 as [H1 _].
    apply Z.ltb_lt. apply Z.ltb_lt in H2. apply Z.eqb_eq in H1. lia.
  - right. apply andb_true_iff in H1 as [H1 H1'], H2 as [H2 H2'].
    apply Z.eqb_eq in H1, H2. subst. rewrite Z.eqb_refl. simpl.
    apply (IH b c); congruence.
Qed.

Lemma lex_ltb_total a b :
  length a = length b -> lex_ltb a b = false -> lex_ltb b a = false -> a = b.
Proof.
  revert b. induction a as [|x a IH]; intros [|y b]; simpl; try done.
  intros Hlen H1 H2.
  apply orb_false_iff in H1 as [H1 H1'], H2 as [H2 H2'].
  apply Z.ltb_ge in H1, H2. assert (x = y) by lia. subst.
  rewrite Z.eqb_refl in H1', H2'. simpl in *.
  f_equal. apply IH; auto.
Qed.

Lemma ltb_irrefl t : (t <dt t) = false.
Proof. apply lex_ltb_irrefl. Qed.

Lemma ltb_trans a b c : (a <dt b) = true -> (b <dt c) = true -> (a <dt c) = true.
Proof. apply lex_ltb_trans; reflexivity. Qed.

Lemma ltb_leb a b : (a <dt b) = true -> (a <=dt b) = true.
Proof.
  intros H. unfold leb. destruct (b <dt a) eqn:E; [|done].
  pose proof (ltb_trans _ _ _ H E) as F. by rewrite ltb_irrefl in F.
Qed.

Lemma leb_refl a : (a <=dt a) = true.
Proof. unfold leb. by rewrite ltb_irrefl. Qed.

Lemma fields_inj a b : fields a = fields b -> a = b.
Proof. destruct a, b; unfold fields; simpl. congruence. Qed.

Lemma leb_ltb_trans a b c : (a <=dt b) = true -> (b <dt c) = true -> (a <dt c) = true.
Proof.
  unfold leb. intros H1 H2. apply negb_true_iff in H1.
  destruct (a <dt b) eqn:E; [by eapply ltb_trans|].
  assert (a = b) as ->; [|done].
  apply fields_inj, lex_ltb_total; auto.
Qed.

Lemma leb_trans a b c : (a <=dt b) = true -> (b <=dt c) = true -> (a <=dt c) = true.
Proof.
  intros H1 H2. unfold leb. apply negb_true_iff.
  destruct (c <dt a) eqn:E; [|done].
  pose proof (leb_ltb_trans _ _ _ H2 E) as F.
  unfold leb in H1. by rewrite F in H1.
Qed.

End DTFacts.

(** ** MessageDeduplicator *)

Lemma deduplicate_messages_from_absorb (messages : list message) :
  forall seen0 seen : gset str, seen0 ⊆ seen ->
    deduplicate_messages_from seen0 (deduplicate_messages_from seen messages)
    = deduplicate_messages_from seen messages.
Proof.
  induction messages as [|m rest IH]; intros seen0 seen Hsub; simpl; [done|].
  destruct (decide (message_dedup_key m ∈ seen)) as [Hin|Hout]; [by apply IH|].
  simpl. destruct (decide (message_dedup_key m ∈ seen0)) as [Hin0|_].
  - exfalso. exact (Hout (Hsub _ Hin0)).
  - f_equal. apply IH. by apply union_mono_l.
Qed.

(** C8. Message deduplication is idempotent: deduplicating the result of a
    deduplication changes nothing, for every sequence of messages. *)
Theorem deduplicate_messages_idempotent (messages : list message) :
  deduplicate_messages (deduplicate_messages messages)
  = deduplicate_messages messages.
Proof. by apply deduplicate_messages_from_absorb. Qed.

(** ** The cutoff filter *)

Lemma newer_than_filter (t : datetime) (messages : list message) :
  newer_than t messages = filter (fun m => t <dt timestamp m) messages.
Proof.
  induction messages as [|m rest IH]; simpl; [done|].
  rewrite filter_cons, IH.
  destruct (decide _) as [H|H]; destruct (t <dt timestamp m); simpl in *; done.
Qed.

(** C3. With a cursor [t] the cutoff filter returns exactly the messages whose
    timestamp is strictly greater than [t], in their order in the input (it is
    the order-preserving selection [filter], hence a subsequence whose members
    are the members of the input after [t]); without a cursor it returns the
    input unchanged. *)
Theorem cutoff_filter_correct (messages : list message) (t : datetime) :
  messages_to_analyze (Some t) messages
    = filter (fun m => t <dt timestamp m) messages
  /\ sublist (messages_to_analyze (Some t) messages) messages
  /\ (forall m, m ∈ messages_to_analyze (Some t) messages
                <-> m ∈ messages /\ (t <dt timestamp m) = true)
  /\ messages_to_analyze None messages = messages.
Proof.
  simpl. rewrite newer_than_filter. split; [done|]. split; [|split; [|done]].
  - apply sublist_filter.
  - intros m. rewrite list_elem_of_filter. split.
    + intros [H1 H2]. split; [done|]. by apply Is_true_true.
    + intros [H1 H2]. split; [by rewrite H2|done].
Qed.

(** ** RecordDeduplicator *)

Lemma row_key_Some row k :
  row_key row = Some k <-> (7 <= length row)%nat /\ k = row_cells_key row.
Proof.
  unfold row_key. destruct (length row <? 7)%nat eqn:E.
  - apply Nat.ltb_lt in E. split; [done|lia].
  - apply Nat.ltb_ge in E. split; [by intros [= <-]|by intros [_ ->]].
Qed.

Lemma elem_of_existing_keys_from rows : forall keys k,
  k ∈ existing_keys_from keys rows
  <-> k ∈ keys \/ exists row, row ∈ rows /\ row_key row = Some k.
Proof.
  induction rows as [|row rows IH]; intros keys k; simpl.
  - split; [by left|]. intros [H|(row & Hin & _)]; [done|]. by inversion Hin.
  - destruct (row_key row) as [k'|] eqn:E; rewrite IH.
    + split.
      * intros [H|(r & Hin & Hr)].
        -- apply elem_of_union in H as [H|H]; [|by left].
           apply elem_of_singleton in H as ->. right. exists row. split; [left|done].
        -- right. exists r. split; [by right|done].
      * intros [H|(r & Hin & Hr)]; [left; apply elem_of_union; by right|].
        apply elem_of_cons in Hin as [->|Hin].
        -- left. rewrite E in Hr. injection Hr as ->.
           apply elem_of_union. left. by apply elem_of_singleton.
        -- right. by exists r.
    + split.
      * intros [H|(r & Hin & Hr)]; [by left|]. right. exists r. split; [by right|done].
      * intros [H|(r & Hin & Hr)]; [by left|].
        apply elem_of_cons in Hin as [->|Hin]; [congruence|]. right. by exists r.
Qed.

Lemma elem_of_existing_keys worksheet k :
  k ∈ existing_keys worksheet <-> stored_key worksheet k.
Proof.
  unfold existing_keys, stored_key. rewrite elem_of_existing_keys_from. split.
  - intros [H|(row & Hin & Hr)]; [set_solver|].
    apply row_key_Some in Hr as [? ?]. by exists row.
  - intros (row & Hin & Hlen & Hk). right. exists row. split; [done|].
    by apply row_key_Some.
Qed.

Lemma deduplicate_jobs_unfold worksheet jobs :
  deduplicate_jobs_for_sheet worksheet jobs
  = unique_jobs_from (existing_keys worksheet) ∅ jobs.
Proof. by destruct jobs. Qed.

Lemma unique_jobs_from_snoc existing jobs : forall batch_seen j,
  let kept := unique_jobs_from existing batch_seen jobs in
  let dup := job_dedup_key j ∈ existing \/ job_dedup_key j ∈ batch_seen
             \/ exists j', j' ∈ kept /\ job_dedup_key j' = job_dedup_key j in
  (dup -> unique_jobs_from existing batch_seen (jobs ++ [j]) = kept)
  /\ (~ dup -> unique_jobs_from existing batch_seen (jobs ++ [j]) = kept ++ [j]).
Proof.
  induction jobs as [|x jobs IH]; intros batch_seen j; simpl.
  - split.
    + intros [H|[H|(j' & Hin & _)]]; [| |by inversion Hin];
        rewrite decide_True; tauto.
    + intros H. rewrite decide_False; [done|]. tauto.
  - destruct (decide (job_dedup_key x ∈ existing \/ job_dedup_key x ∈ batch_seen))
      as [Hx|Hx].
    + apply IH.
    + destruct (IH ({[job_dedup_key x]} ∪ batch_seen) j) as [IH1 IH2]. split.
      * intros Hdup. rewrite IH1; [done|].
        destruct Hdup as [H|[H|(j' & Hin & Hk)]];
          [by left|right; left; apply elem_of_union; by right|].
        apply elem_of_cons in Hin as [->|Hin].
        -- right; left. rewrite <- Hk.
           apply elem_of_union. left. by apply elem_of_singleton.
        -- right; right. by exists j'.
      * intros Hdup. rewrite IH2; [done|]. intros Hd. apply Hdup.
        destruct Hd as [H|[H|(j' & Hin & Hk)]]; [by left| |].
        -- apply elem_of_union in H as [H|H]; [|by right; left].
           apply elem_of_singleton in H. right; right. exists x. split; [left|done].
        -- right; right. exists j'. split; [by right|done].
Qed.

Lemma unique_jobs_from_sublist existing jobs : forall batch_seen,
  sublist (unique_jobs_from existing batch_seen jobs) jobs.
Proof.
  induction jobs as [|x jobs IH]; intros batch_seen; simpl; [done|].
  destruct (decide _); [by apply sublist_cons|by apply sublist_skip].
Qed.

Lemma cells_key_lower a0 a1 a2 a3 a4 a5 a6 :
  cells_key a0 a1 a2 a3 a4 a5 a6
  = Str.strip (Str.lower a0 ++ bar ++ Str.lower a1 ++ bar ++ Str.lower a2 ++ bar
               ++ Str.lower a3 ++ bar ++ Str.lower a4 ++ bar ++ Str.lower a5
               ++ bar ++ Str.lower a6).
Proof.
  unfold cells_key. rewrite StrFacts.lower_strip.
  by rewrite !StrFacts.lower_app.
Qed.

Lemma same_up_to_case_key a b :
  same_up_to_case a b -> job_dedup_key a = job_dedup_key b.
Proof.
  intros (H0 & H1 & H2 & H3 & H4 & H5 & H6). unfold job_dedup_key.
  rewrite !cells_key_lower. congruence.
Qed.

(** The key, field by field: only the ends of the joined text are trimmed. *)
Lemma cells_key_fields a0 a1 a2 a3 a4 a5 a6 :
  cells_key a0 a1 a2 a3 a4 a5 a6
  = Str.lower (Str.lstrip a0) ++ "|"%char :: Str.lower a1
    ++ "|"%char :: Str.lower a2 ++ "|"%char :: Str.lower a3
    ++ "|"%char :: Str.lower a4 ++ "|"%char :: Str.lower a5
    ++ "|"%char :: Str.lower (Str.rstrip a6).
Proof.
  unfold cells_key, Str.strip.
  change bar with ["|"%char]. cbn [app].
  rewrite StrFacts.lstrip_bar.
  replace (Str.lstrip a0 ++ "|"%char :: a1 ++ "|"%char :: a2 ++ "|"%char :: a3
           ++ "|"%char :: a4 ++ "|"%char :: a5 ++ "|"%char :: a6)
    with ((Str.lstrip a0 ++ "|"%char :: a1 ++ "|"%char :: a2 ++ "|"%char :: a3
           ++ "|"%char :: a4 ++ "|"%char :: a5) ++ "|"%char :: a6)
    by (repeat (rewrite <- app_assoc; cbn [app]); reflexivity).
  rewrite StrFacts.rstrip_bar.
  repeat (rewrite <- app_assoc; cbn [app]).
  repeat (rewrite StrFacts.lower_app; cbn [Str.lower map]).
  reflexivity.
Qed.

Lemma same_key_fields_key a b :
  bar_free a -> bar_free b ->
  job_dedup_key a = job_dedup_key b <-> same_key_fields a b.
Proof.
  intros Ha Hb. unfold job_dedup_key. rewrite !cells_key_fields.
  unfold same_key_fields. split.
  - intros E.
    unfold bar_free, job_row in Ha, Hb.
    rewrite !Forall_cons in Ha. rewrite !Forall_cons in Hb.
    destruct Ha as (A0 & A1 & A2 & A3 & A4 & A5 & A6 & _).
    destruct Hb as (B0 & B1 & B2 & B3 & B4 & B5 & B6 & _).
    apply (split_at_first "|") in E as [E0 E];
      [|by apply StrFacts.lower_no_bar, StrFacts.lstrip_no_bar..].
    apply (split_at_first "|") in E as [E1 E]; [|by apply StrFacts.lower_no_bar..].
    apply (split_at_first "|") in E as [E2 E]; [|by apply StrFacts.lower_no_bar..].
    apply (split_at_first "|") in E as [E3 E]; [|by apply StrFacts.lower_no_bar..].
    apply (split_at_first "|") in E as [E4 E]; [|by apply StrFacts.lower_no_bar..].
    apply (split_at_first "|") in E as [E5 E]; [|by apply StrFacts.lower_no_bar..].
    done.
  - intros (-> & -> & -> & -> & -> & -> & ->). done.
Qed.

Lemma row_key_take row :
  (7 <= length row)%nat ->
  row_key row = Some (Str.lower (Str.strip (Str.join bar (take 7 row)))).
Proof.
  intros Hlen. unfold row_key.
  assert ((length row <? 7)%nat = false) as -> by (apply Nat.ltb_ge; lia).
  do 7 (destruct row as [|? row]; [simpl in Hlen; lia|]). reflexivity.
Qed.

(** C5. Record-level deduplication, for every worksheet and every batch: a job
    that follows the batch prefix [pre] is dropped exactly when its key is the
    key of a stored row with at least 7 cells or the key of an earlier job
    kept from the batch, and is kept, after the ones kept before it,
    otherwise; the kept jobs are a subsequence of the batch; two jobs that
    differ only in letter case have one key, and only the first of them can
    be kept; a job whose key is stored is dropped also when it is the whole
    batch. The key of a job is the text of its date, company, role, location,
    experience, skills and contact_email joined by bars, trimmed and in lower
    case, and the key of a row is that of its first seven cells; so that two
    jobs without a bar in these fields have one key exactly when the fields
    agree up to letter case and to the white space before the date and after
    the contact. *)
Theorem record_dedup_by_key (worksheet : list (list str)) :
  (forall pre j,
     let kept := deduplicate_jobs_for_sheet worksheet pre in
     let dup := stored_key worksheet (job_dedup_key j)
                \/ exists j', j' ∈ kept /\ job_dedup_key j' = job_dedup_key j in
     (dup -> deduplicate_jobs_for_sheet worksheet (pre ++ [j]) = kept)
     /\ (~ dup -> deduplicate_jobs_for_sheet worksheet (pre ++ [j]) = kept ++ [j]))
  /\ (forall jobs, sublist (deduplicate_jobs_for_sheet worksheet jobs) jobs)
  /\ (forall a b, same_up_to_case a b ->
        job_dedup_key a = job_dedup_key b
        /\ deduplicate_jobs_for_sheet worksheet [a; b]
           = deduplicate_jobs_for_sheet worksheet [a])
  /\ (forall j, stored_key worksheet (job_dedup_key j) ->
        deduplicate_jobs_for_sheet worksheet [j] = [])
  /\ (forall j,
        job_dedup_key j
        = Str.lower (Str.strip (Str.join bar
            [date j; company j; role j; location j; experience j; skills j;
             contact_email j])))
  /\ (forall k, stored_key worksheet k <->
        exists row, row ∈ drop 1 worksheet /\ (7 <= length row)%nat
          /\ k = Str.lower (Str.strip (Str.join bar (take 7 row))))
  /\ (forall a b, bar_free a -> bar_free b ->
        (job_dedup_key a = job_dedup_key b <-> same_key_fields a b)
        /\ (~ same_key_fields a b ->
            ~ stored_key worksheet (job_dedup_key a) ->
            ~ stored_key worksheet (job_dedup_key b) ->
            deduplicate_jobs_for_sheet worksheet [a; b] = [a; b])).
Proof.
  split; [|split; [|split; [|split; [|split; [|split]]]]].
  - intros pre j kept dup. subst kept dup. rewrite !deduplicate_jobs_unfold.
    destruct (unique_jobs_from_snoc (existing_keys worksheet) pre ∅ j) as [H1 H2].
    split.
    + intros Hdup. apply H1. destruct Hdup as [H|H]; [|by right; right].
      left. by apply elem_of_existing_keys.
    + intros Hdup. apply H2. intros [H|[H|H]]; apply Hdup.
      * left. by apply elem_of_existing_keys.
      * set_solver.
      * by right.
  - intros jobs. rewrite deduplicate_jobs_unfold. apply unique_jobs_from_sublist.
  - intros a b Hab. pose proof (same_up_to_case_key a b Hab) as Hk.
    split; [done|]. simpl.
    destruct (decide (job_dedup_key a ∈ existing_keys worksheet
                      \/ job_dedup_key a ∈ (∅ : gset str))) as [Ha|Ha].
    + rewrite decide_True; [done|]. by rewrite <- Hk.
    + rewrite decide_True; [done|]. right. rewrite <- Hk. set_solver.
  - intros j Hj. simpl. rewrite decide_True; [done|].
    left. by apply elem_of_existing_keys.
  - reflexivity.
  - intros k. unfold stored_key. split.
    + intros (row & Hin & Hlen & ->). exists row. split; [done|]. split; [done|].
      pose proof (row_key_take row Hlen) as Hk. unfold row_key in Hk.
      assert ((length row <? 7)%nat = false) as E by (apply Nat.ltb_ge; lia).
      rewrite E in Hk. by injection Hk.
    + intros (row & Hin & Hlen & ->). exists row. split; [done|]. split; [done|].
      pose proof (row_key_take row Hlen) as Hk. unfold row_key in Hk.
      assert ((length row <? 7)%nat = false) as E by (apply Nat.ltb_ge; lia).
      rewrite E in Hk. by injection Hk.
  - intros a b Ha Hb. pose proof (same_key_fields_key a b Ha Hb) as Hiff.
    split; [done|]. intros Hne Hsa Hsb.
    assert (job_dedup_key a <> job_dedup_key b) as Hk by (by rewrite Hiff).
    simpl.
    rewrite decide_False.
    2:{ intros [H|H]; [|by apply elem_of_empty in H].
        apply Hsa. by apply elem_of_existing_keys. }
    rewrite decide_False; [done|].
    intros [H|H].
    + apply Hsb. by apply elem_of_existing_keys.
    + apply elem_of_union in H as [H|H]; [|by apply elem_of_empty in H].
      apply elem_of_singleton in H. by apply Hk.
Qed.

(** A stored row, a batch of one job that matches it in another letter case,
    that job twice in different case against an empty store, and two jobs of
    different companies, which are both kept. *)
Lemma record_dedup_by_key_witness :
  let row := map lit ["2026-01-02 09:00"; "ACME"; "QA Engineer"; "Pune";
                      "2 years"; "Selenium"; "hr@acme.test"]%string in
  let j := mkJob (lit "2026-01-02 09:00") (lit "Alice") (lit "Acme")
                 (lit "qa engineer") (lit "pune") (lit "2 Years")
                 (lit "selenium") (lit "HR@acme.test") in
  let j' := mkJob (lit "2026-01-02 09:00") (lit "Bob") (lit "ACME")
                  (lit "QA ENGINEER") (lit "PUNE") (lit "2 YEARS")
                  (lit "SELENIUM") (lit "hr@ACME.test") in
  let j2 := mkJob (lit "2026-01-02 09:00") (lit "Alice") (lit "Bolt")
                  (lit "qa engineer") (lit "pune") (lit "2 Years")
                  (lit "selenium") (lit "HR@acme.test") in
  deduplicate_jobs_for_sheet [sheet_headers; row] [j] = []
  /\ deduplicate_jobs_for_sheet [sheet_headers] [j; j']
     = deduplicate_jobs_for_sheet [sheet_headers] [j]
  /\ deduplicate_jobs_for_sheet [sheet_headers] [j; j2] = [j; j2].
Proof.
  intros row j j' j2. split; [|split].
  - apply (proj1 (proj2 (proj2 (proj2 (record_dedup_by_key [sheet_headers; row]))))).
    exists row. split; [left|]. split; [simpl; lia|]. vm_compute. reflexivity.
  - apply (proj1 (proj2 (proj2 (record_dedup_by_key [sheet_headers])))).
    by vm_compute.
  - apply (proj2 (proj2 (proj2 (proj2 (proj2 (proj2
             (record_dedup_by_key [sheet_headers])))))) j j2).
    + repeat constructor; vm_compute; intros H;
        repeat (apply elem_of_cons in H as [H|H]; [discriminate H|]);
        by apply elem_of_nil in H.
    + repeat constructor; vm_compute; intros H;
        repeat (apply elem_of_cons in H as [H|H]; [discriminate H|]);
        by apply elem_of_nil in H.
    + vm_compute. intros (_ & H & _). discriminate H.
    + intros (r & Hin & _). simpl in Hin. by apply elem_of_nil in Hin.
    + intros (r & Hin & _). simpl in Hin. by apply elem_of_nil in Hin.
Defined.

(** ** Scraping *)

Lemma insert_by_timestamp_perm m l : insert_by_timestamp m l ≡ₚ m :: l.
Proof.
  induction l as [|x l IH]; simpl; [done|].
  destruct (timestamp x <=dt timestamp m); [|done].
  rewrite IH. apply Permutation_swap.
Qed.

Lemma sort_by_timestamp_perm l : sort_by_timestamp l ≡ₚ l.
Proof.
  unfold sort_by_timestamp.
  assert (forall acc, foldl (fun acc m => insert_by_timestamp m acc) acc l ≡ₚ acc ++ l) as H.
  { induction l as [|x l IH]; intros acc; simpl; [by rewrite app_nil_r|].
    rewrite IH, insert_by_timestamp_perm.
    by rewrite (Permutation_middle acc l x). }
  apply H.
Qed.

Lemma parse_raw_messages_app a b :
  parse_raw_messages (a ++ b) = parse_raw_messages a ++ parse_raw_messages b.
Proof.
  induction a as [|x a IH]; simpl; [done|].
  destruct (parse_pre_plain_text _); [|done].
  destruct (decide _); [done|]. simpl. by rewrite IH.
Qed.

Lemma parse_raw_messages_text raw :
  Forall (fun m => text m <> [] /\ Str.strip (text m) = text m)
         (parse_raw_messages raw).
Proof.
  induction raw as [|x raw IH]; simpl; [constructor|].
  destruct (parse_pre_plain_text _); [|done].
  destruct (decide _) as [|Hne]; [done|].
  constructor; [|done]. simpl. split; [done|]. apply StrFacts.strip_idem.
Qed.

(** C9. For every list of raw nodes, a node whose body text is empty after
    trimming leaves no message in what [scrape_messages] returns, whatever its
    header parses to; and every returned message has a text that is trimmed
    and not empty. *)
Theorem scrape_messages_skips_blank_text (before after : list raw_message)
    (item : raw_message) :
  (Str.strip (raw_text item) = [] ->
     scrape_messages (before ++ item :: after) = scrape_messages (before ++ after))
  /\ Forall (fun m => text m <> [] /\ Str.strip (text m) = text m)
            (scrape_messages (before ++ item :: after)).
Proof.
  split.
  - intros Hblank. unfold scrape_messages. f_equal.
    rewrite !parse_raw_messages_app. f_equal. simpl.
    destruct (parse_pre_plain_text _); [|done]. by rewrite decide_True.
  - unfold scrape_messages. rewrite sort_by_timestamp_perm.
    apply parse_raw_messages_text.
Qed.

(** A node with a header that parses and a body of white space only. *)
Lemma scrape_messages_skips_blank_text_witness :
  let item := mkRaw (lit "[09:00 AM, 1/2/2026] Alice:") (lit "  ") in
  is_Some (parse_pre_plain_text (pre_plain_text item))
  /\ scrape_messages ([] ++ item :: []) = scrape_messages ([] ++ []).
Proof.
  intros item. split; [vm_compute; eauto|].
  apply (proj1 (scrape_messages_skips_blank_text [] [] item)).
  vm_compute. reflexivity.
Defined.

(** ** ClassificationClient *)

Lemma schema_template_lookup k :
  k ∈ business_fields -> schema_template !! k = Some (PStr []).
Proof.
  unfold business_fields. simpl. rewrite !elem_of_cons, elem_of_nil.
  intros [->|[->|[->|[->|[->|[->|[]]]]]]]; reflexivity.
Qed.

Lemma schema_template_relevant : schema_template !! k_relevant = Some (PBool false).
Proof. reflexivity. Qed.

Lemma business_fields_not_relevant k : k ∈ business_fields -> k <> k_relevant.
Proof.
  unfold business_fields. simpl. rewrite !elem_of_cons, elem_of_nil.
  intros [->|[->|[->|[->|[->|[->|[]]]]]]]; discriminate.
Qed.

Lemma schema_template_shaped : job_shaped schema_template.
Proof.
  split; [|by exists false].
  intros k Hk. rewrite schema_template_lookup; eauto.
Qed.

Lemma merge_result_lookup_ne payload k :
  k <> k_relevant ->
  merge_result payload !! k
  = match payload !! k with Some v => Some v | None => schema_template !! k end.
Proof.
  intros Hk. unfold merge_result. rewrite lookup_insert_ne by done.
  rewrite lookup_union. destruct (payload !! k), (schema_template !! k); done.
Qed.

Lemma merge_result_relevant payload :
  merge_result payload !! k_relevant
  = Some (PBool (truthy (default (PBool false) (payload !! k_relevant)))).
Proof.
  unfold merge_result. rewrite lookup_insert_eq. do 2 f_equal.
  rewrite lookup_union, schema_template_relevant.
  by destruct (payload !! k_relevant).
Qed.

Lemma merge_result_shaped payload : job_shaped (merge_result payload).
Proof.
  split; [|eexists; apply merge_result_relevant].
  intros k Hk.
  rewrite merge_result_lookup_ne by (by apply business_fields_not_relevant).
  rewrite schema_template_lookup by done. destruct (payload !! k); eauto.
Qed.

Lemma sleep_ok seconds w :
  (0 <= seconds)%Q -> (seconds <= sleep_max)%Q ->
  sleep seconds w
  = (Ok tt, mkWorld (w_file w) (w_calls w) (w_trace w ++ [Sleep seconds])
                    (w_sheet w) (w_mails w)).
Proof.
  intros H0 Hmax. unfold sleep.
  assert (Qle_bool (Qabs seconds) sleep_max = true) as ->.
  { apply Qle_bool_iff. by rewrite Qabs_pos. }
  by assert (Qle_bool 0 seconds = true) as -> by by apply Qle_bool_iff.
Qed.

(** An accepted pause is taken, and the loop goes on. *)
Lemma pause_ok {A} initial_delay a (k : M A) w :
  pause_accepted initial_delay a ->
  (let* sleep_seconds := backoff_seconds initial_delay a in
   let* _ := sleep sleep_seconds in k) w
  = k (mkWorld (w_file w) (w_calls w)
         (w_trace w ++ [Sleep (initial_delay * inject_Z (2 ^ (a - 1)))%Q])
         (w_sheet w) (w_mails w)).
Proof.
  intros (Ha & H0 & Hmax). unfold backoff_seconds.
  assert ((1024 <? a) = false) as -> by (apply Z.ltb_ge; lia).
  unfold bind at 1. unfold ret. unfold bind. by rewrite sleep_ok.
Qed.

(** A pause is taken, or it raises and leaves the world as it is. *)
Lemma pause_cases {A} initial_delay a (k : M A) w :
  (exists e,
     (let* sleep_seconds := backoff_seconds initial_delay a in
      let* _ := sleep sleep_seconds in k) w = (Raise e, w))
  \/ (let* sleep_seconds := backoff_seconds initial_delay a in
      let* _ := sleep sleep_seconds in k) w
     = k (mkWorld (w_file w) (w_calls w)
            (w_trace w ++ [Sleep (initial_delay * inject_Z (2 ^ (a - 1)))%Q])
            (w_sheet w) (w_mails w)).
Proof.
  unfold backoff_seconds. destruct (1024 <? a); [left; by eexists|].
  unfold bind at 1 3. unfold ret. unfold bind, sleep.
  destruct (Qle_bool (Qabs _) sleep_max).
  - destruct (Qle_bool 0 _); [by right|left; by eexists].
  - destruct (Qle_bool sleep_overflow _); left; by eexists.
Qed.

Lemma backoff_accepted_seqZ retries initial_delay a :
  backoff_accepted retries initial_delay ->
  a ∈ seqZ 1 retries -> a < retries -> pause_accepted initial_delay a.
Proof.
  intros Hacc Ha Hlt. apply Hacc. apply elem_of_seqZ in Ha. lia.
Qed.

(** With accepted pauses the loop returns, whatever the service does. *)
Lemma analyze_attempts_returns ext retries initial_delay attempts :
  (forall a, a ∈ attempts -> a < retries -> pause_accepted initial_delay a) ->
  forall w, exists d w',
    analyze_attempts ext retries initial_delay attempts w = (Ok d, w')
    /\ job_shaped d.
Proof.
  induction attempts as [|a rest IH]; intros Hacc w; simpl.
  - eexists _, _. split; [reflexivity|apply schema_template_shaped].
  - unfold bind at 1. simpl.
    set (w1 := mkWorld _ _ _ _ _).
    assert (exists d w',
      (if retries <=? a then ret schema_template
       else let* sleep_seconds := backoff_seconds initial_delay a in
            let* _ := sleep sleep_seconds in
            analyze_attempts ext retries initial_delay rest) w1 = (Ok d, w')
      /\ job_shaped d) as Hfail.
    { destruct (Z.leb_spec retries a) as [Hle|Hlt].
      - eexists _, _. split; [reflexivity|apply schema_template_shaped].
      - rewrite pause_ok by (apply Hacc; [left|done]).
        apply IH. intros a' Ha'. apply Hacc. by right. }
    destruct (service ext (w_calls w)) as [| |v]; try exact Hfail.
    destruct v; try exact Hfail.
    eexists _, _. split; [reflexivity|apply merge_result_shaped].
Qed.

(** The defaults: pauses of 2 and 4 seconds. *)
Lemma default_backoff_accepted :
  backoff_accepted default_retries default_initial_delay.
Proof.
  intros a Ha. unfold default_retries in Ha.
  assert (a = 1 \/ a = 2) as [-> | ->] by lia;
    repeat split; vm_compute; discriminate.
Defined.

(** The loop when the attempts [a, a+1, ..., retries] all fail. *)
Lemma analyze_attempts_all_fail ext retries initial_delay (n : nat) :
  backoff_accepted retries initial_delay ->
  forall a w,
    1 <= a ->
    a + Z.of_nat n = retries + 1 ->
    (forall i, (i < n)%nat -> attempt_fails (service ext (w_calls w + i))) ->
    analyze_attempts ext retries initial_delay (seqZ a (Z.of_nat n)) w
    = (Ok schema_template,
       mkWorld (w_file w) (w_calls w + n)
               (w_trace w ++ backoff_events retries initial_delay (seqZ a (Z.of_nat n)))
               (w_sheet w) (w_mails w)).
Proof.
  intros Hd. induction n as [|n IH]; intros a w H1 Ha Hfail.
  - simpl. unfold ret. destruct w; simpl. by rewrite Nat.add_0_r, app_nil_r.
  - rewrite seqZ_cons by lia.
    replace (Z.pred (Z.of_nat (S n))) with (Z.of_nat n) by lia.
    cbn [analyze_attempts backoff_events flat_map].
    unfold bind at 1. cbn [call_service].
    pose proof (Hfail 0%nat ltac:(lia)) as H0. rewrite Nat.add_0_r in H0.
    set (w1 := mkWorld _ _ _ _ _).
    assert ((if retries <=? a then ret schema_template
             else let* sleep_seconds := backoff_seconds initial_delay a in
                  let* _ := sleep sleep_seconds in
                  analyze_attempts ext retries initial_delay
                    (seqZ (Z.succ a) (Z.of_nat n))) w1
            = (Ok schema_template,
               mkWorld (w_file w) (w_calls w + S n)
                 (w_trace w ++
                    (Call a :: (if a <? retries
                                then [Sleep (initial_delay * inject_Z (2 ^ (a - 1)))%Q]
                                else []))
                    ++ backoff_events retries initial_delay
                         (seqZ (Z.succ a) (Z.of_nat n)))
                 (w_sheet w) (w_mails w))) as Hres.
    { destruct (Z.leb_spec retries a) as [Hle|Hlt].
      - assert (n = 0%nat) as -> by lia. simpl.
        assert ((a <? retries) = false) as -> by (apply Z.ltb_ge; lia).
        unfold ret, w1. simpl. by rewrite Nat.add_1_r.
      - assert ((a <? retries) = true) as -> by (apply Z.ltb_lt; lia).
        rewrite pause_ok by (apply Hd; lia).
        rewrite IH; [|lia|lia|].
        + unfold w1. simpl. do 2 f_equal; [lia|].
          by rewrite <- !app_assoc.
        + intros i Hi. unfold w1. cbn [w_calls].
          replace (S (w_calls w) + i)%nat with (w_calls w + S i)%nat by lia.
          apply Hfail. lia. }
    destruct (service ext (w_calls w)) as [| |v]; try exact Hres.
    destruct v; try exact Hres. done.
Qed.

Lemma calls_of_backoff retries initial_delay attempts :
  calls_of (backoff_events retries initial_delay attempts) = attempts.
Proof.
  induction attempts as [|a rest IH]; simpl; [done|].
  unfold calls_of in *. simpl. destruct (a <? retries); simpl; by rewrite IH.
Qed.

Lemma sleeps_of_backoff initial_delay (n : nat) : forall a retries,
  a + Z.of_nat n = retries + 1 ->
  sleeps_of (backoff_events retries initial_delay (seqZ a (Z.of_nat n)))
  = map (fun a => (initial_delay * inject_Z (2 ^ (a - 1)))%Q)
        (seqZ a (Z.of_nat n - 1)).
Proof.
  induction n as [|n IH]; intros a retries Ha.
  - by rewrite !seqZ_nil by lia.
  - rewrite seqZ_cons by lia.
    replace (Z.pred (Z.of_nat (S n))) with (Z.of_nat n) by lia.
    unfold sleeps_of, backoff_events in *. cbn [flat_map].
    destruct (Z.ltb_spec a retries) as [Hlt|Hge].
    + cbn [flat_map app]. rewrite (IH (Z.succ a) retries) by lia.
      rewrite (seqZ_cons a) by lia. simpl. do 3 f_equal. lia.
    + assert (n = 0%nat) as -> by lia. by rewrite !seqZ_nil by lia.
Qed.

(** C1, as the code has it. When every classification attempt raises, with
    a key that [clean_key] keeps, a retry count that is not negative and
    pauses that [time.sleep] takes, [analyze_job_post] returns the
    zero-valued default schema: every business field the empty string and
    [relevant] false. The service was called exactly [retries] times, for the
    attempts 1 to [retries]; after each attempt but the last the client slept
    [initial_delay * 2^(attempt-1)] seconds, and it did nothing else: the
    trace is call, sleep, call, ..., call. *)
Theorem classification_fail_open (ext : externals) (text : str)
    (key : option str) (retries : Z) (initial_delay : Q) (w : world) :
  clean_key key <> [] ->
  0 <= retries ->
  backoff_accepted retries initial_delay ->
  (forall n, attempt_fails (service ext n)) ->
  let tr := backoff_events retries initial_delay (seqZ 1 retries) in
  analyze_job_post ext text key retries initial_delay w
  = (Ok schema_template,
     mkWorld (w_file w) (w_calls w + Z.to_nat retries) (w_trace w ++ tr)
             (w_sheet w) (w_mails w))
  /\ schema_template !! k_relevant = Some (PBool false)
  /\ (forall k, k ∈ business_fields -> schema_template !! k = Some (PStr []))
  /\ calls_of tr = seqZ 1 retries
  /\ Z.of_nat (length (calls_of tr)) = retries
  /\ sleeps_of tr = map (fun a => (initial_delay * inject_Z (2 ^ (a - 1)))%Q)
                        (seqZ 1 (retries - 1)).
Proof.
  intros Hkey Hretries Hdelay Hfail tr. subst tr.
  split; [|split; [done|split; [apply schema_template_lookup|split; [|split]]]].
  - unfold analyze_job_post. rewrite decide_False by done.
    rewrite <- (Z2Nat.id retries) at 2 4 by done.
    rewrite analyze_attempts_all_fail; [by rewrite Z2Nat.id| done | lia | lia | auto].
  - apply calls_of_backoff.
  - rewrite calls_of_backoff, length_seqZ. lia.
  - rewrite <- (Z2Nat.id retries) at 2 3 by done.
    rewrite (sleeps_of_backoff initial_delay (Z.to_nat retries) 1 retries) by lia.
    by rewrite Z2Nat.id.
Qed.

(** The defaults of [analyze_job_post] against a service that always raises:
    three calls, with sleeps of 2 and 4 seconds between them. *)
Lemma classification_fail_open_witness :
  let ext := mkExternals (fun _ => CallRaises) (fun _ => []) true true
                         (fun s => s) OutreachSkipped in
  analyze_job_post ext (lit "hello") (Some (lit "sk-or-v1-0123"))
                   default_retries default_initial_delay
                   (mkWorld Absent 0 [] [] [])
  = (Ok schema_template,
     mkWorld Absent 3 [Call 1; Sleep 2; Call 2; Sleep 4; Call 3] [] []).
Proof.
  intros ext.
  refine (proj1 (classification_fail_open ext (lit "hello")
                   (Some (lit "sk-or-v1-0123")) default_retries
                   default_initial_delay (mkWorld Absent 0 [] [] []) _ _ _ _)).
  - vm_compute. discriminate.
  - vm_compute. discriminate.
  - apply default_backoff_accepted.
  - intros n. exact I.
Defined.

(** C1 as stated fails. With the placeholder key of an unedited
    configuration the attempts are never made: [analyze_job_post] raises a
    [RuntimeError] and returns no schema. With 2 retries and a delay of
    [10^10] seconds, the first attempt having raised, the pause is one
    [time.sleep] refuses: the [OverflowError] leaves the function after one
    call. *)
Lemma classification_raises_instead :
  let ext := mkExternals (fun _ => CallRaises) (fun _ => []) true true
                         (fun s => s) OutreachSkipped in
  let w := mkWorld Absent 0 [] [] [] in
  analyze_job_post ext (lit "hello") (Some (lit "replace_me"))
                   default_retries default_initial_delay w
  = (Raise RuntimeError, w)
  /\ analyze_job_post ext (lit "hello") (Some (lit "sk-or-v1-0123"))
                      2 10000000000 w
     = (Raise OverflowError, mkWorld Absent 1 [Call 1] [] []).
Proof. intros ext w. split; vm_compute; reflexivity. Qed.

(** The loop when the attempts before the [n]-th one fail and that one decodes
    to a dictionary. *)
Lemma analyze_attempts_object ext retries initial_delay payload (n : nat) :
  forall a (m : nat) w,
    (forall i, (i < n)%nat -> pause_accepted initial_delay (a + Z.of_nat i)) ->
    (n < m)%nat ->
    a + Z.of_nat m = retries + 1 ->
    (forall i, (i < n)%nat -> attempt_fails (service ext (w_calls w + i))) ->
    service ext (w_calls w + n) = Json (PDict payload) ->
    exists w', analyze_attempts ext retries initial_delay (seqZ a (Z.of_nat m)) w
               = (Ok (merge_result payload), w').
Proof.
  induction n as [|n IH]; intros a m w Hd Hm Ha Hfail Hobj.
  - rewrite seqZ_cons by lia. cbn [analyze_attempts]. unfold bind at 1.
    cbn [call_service]. rewrite Nat.add_0_r in Hobj. rewrite Hobj.
    by eexists.
  - destruct m as [|m]; [lia|].
    rewrite seqZ_cons by lia.
    replace (Z.pred (Z.of_nat (S m))) with (Z.of_nat m) by lia.
    cbn [analyze_attempts]. unfold bind at 1. cbn [call_service].
    pose proof (Hfail 0%nat ltac:(lia)) as H0. rewrite Nat.add_0_r in H0.
    set (w1 := mkWorld _ _ _ _ _).
    assert (exists w',
      (if retries <=? a then ret schema_template
       else let* sleep_seconds := backoff_seconds initial_delay a in
            let* _ := sleep sleep_seconds in
            analyze_attempts ext retries initial_delay
              (seqZ (Z.succ a) (Z.of_nat m))) w1
      = (Ok (merge_result payload), w')) as Hres.
    { assert ((retries <=? a) = false) as -> by (apply Z.leb_gt; lia).
      rewrite pause_ok.
      2:{ specialize (Hd 0%nat ltac:(lia)). by rewrite Z.add_0_r in Hd. }
      apply IH; [|lia|lia| |].
      - intros i Hi. specialize (Hd (S i) ltac:(lia)).
        by replace (Z.succ a + Z.of_nat i) with (a + Z.of_nat (S i)) by lia.
      - intros i Hi. unfold w1. cbn [w_calls].
        replace (S (w_calls w) + i)%nat with (w_calls w + S i)%nat by lia.
        apply Hfail. lia.
      - unfold w1. cbn [w_calls].
        by replace (S (w_calls w) + n)%nat with (w_calls w + S n)%nat by lia. }
    destruct (service ext (w_calls w)) as [| |v]; try exact Hres.
    destruct v; try exact Hres. done.
Qed.

(** C6, as the code has it. When an attempt within the retry count decodes to
    a JSON object (the attempts before it having failed, each followed by a
    pause that [time.sleep] takes), [analyze_job_post] returns that object
    merged over the default schema: the result has the 6
    business fields company, role, location, experience, skills and
    contact_email, and [relevant]; every key other than [relevant] has the
    value of the response, or the empty string of the schema when the response
    lacks it; and [relevant] is the truth value of the response's [relevant],
    false when it is missing. *)
Theorem analyze_job_post_merges_object (ext : externals) (text : str)
    (key : option str) (retries : Z) (initial_delay : Q) (w : world)
    (payload : gmap str pyval) (n : nat) :
  clean_key key <> [] ->
  backoff_accepted (Z.of_nat n + 1) initial_delay ->
  (n < Z.to_nat retries)%nat ->
  (forall i, (i < n)%nat -> attempt_fails (service ext (w_calls w + i))) ->
  service ext (w_calls w + n) = Json (PDict payload) ->
  exists result w',
    analyze_job_post ext text key retries initial_delay w = (Ok result, w')
    /\ (forall k, k ∈ business_fields -> is_Some (result !! k))
    /\ (forall k, k <> k_relevant ->
          result !! k = match payload !! k with
                        | Some v => Some v
                        | None => schema_template !! k
                        end)
    /\ (forall k, k ∈ business_fields -> schema_template !! k = Some (PStr []))
    /\ result !! k_relevant
       = Some (PBool (truthy (default (PBool false) (payload !! k_relevant)))).
Proof.
  intros Hkey Hdelay Hn Hfail Hobj.
  assert (forall i, (i < n)%nat -> pause_accepted initial_delay (1 + Z.of_nat i))
    as Hpause by (intros i Hi; apply Hdelay; lia).
  destruct (analyze_attempts_object ext retries initial_delay payload n
              1 (Z.to_nat retries) w Hpause Hn ltac:(lia) Hfail Hobj) as [w' Hw'].
  assert (Z.of_nat (Z.to_nat retries) = retries) as Hr by lia.
  rewrite Hr in Hw'.
  exists (merge_result payload), w'. split; [|split; [|split; [|split]]].
  - unfold analyze_job_post. rewrite decide_False by exact Hkey. exact Hw'.
  - apply merge_result_shaped.
  - apply merge_result_lookup_ne.
  - apply schema_template_lookup.
  - apply merge_result_relevant.
Qed.

(** A response with a company, a non-boolean [relevant] and no other key,
    after one failed attempt. *)
Lemma analyze_job_post_merges_object_witness :
  let payload : gmap str pyval :=
    {[ lit "company" := PStr (lit "Acme"); k_relevant := PInt 1 ]} in
  let ext := mkExternals (fun n => match n with
                                   | O => NotJson
                                   | _ => Json (PDict payload)
                                   end) (fun _ => []) true true
                         (fun s => s) OutreachSkipped in
  exists result w',
    analyze_job_post ext (lit "hiring QA") (Some (lit "sk-or-v1-0123"))
                     default_retries default_initial_delay
                     (mkWorld Absent 0 [] [] []) = (Ok result, w')
    /\ result !! lit "role" = Some (PStr [])
    /\ result !! lit "company" = Some (PStr (lit "Acme"))
    /\ result !! k_relevant = Some (PBool true).
Proof.
  intros payload ext.
  destruct (analyze_job_post_merges_object ext (lit "hiring QA")
              (Some (lit "sk-or-v1-0123")) default_retries default_initial_delay
              (mkWorld Absent 0 [] [] []) payload 1%nat)
    as (result & w' & Hrun & _ & Hother & _ & Hrel).
  - vm_compute. discriminate.
  - intros a Ha. assert (a = 1) as -> by lia.
    repeat split; vm_compute; discriminate.
  - vm_compute. lia.
  - intros [|i] Hi; [exact I|lia].
  - reflexivity.
  - exists result, w'. split; [exact Hrun|]. split; [|split].
    + rewrite Hother by discriminate. reflexivity.
    + rewrite Hother by discriminate. reflexivity.
    + rewrite Hrel. reflexivity.
Defined.

(** C6 as stated fails: for the empty JSON object the result has 6 keys
    besides [relevant], not 7, and no [date] among them. *)
Lemma analyze_job_post_has_six_fields :
  let ext := mkExternals (fun _ => Json (PDict ∅)) (fun _ => []) true true
                         (fun s => s) OutreachSkipped in
  exists result w',
    analyze_job_post ext (lit "hiring QA") (Some (lit "sk-or-v1-0123"))
                     default_retries default_initial_delay
                     (mkWorld Absent 0 [] [] []) = (Ok result, w')
    /\ size (dom result ∖ {[k_relevant]}) = 6%nat
    /\ ~ (7 <= size (dom result ∖ {[k_relevant]}))%nat
    /\ result !! lit "date" = None.
Proof.
  intros ext. exists (merge_result ∅), (mkWorld Absent 1 [Call 1] [] []).
  split; [reflexivity|].
  split; [vm_compute; reflexivity|]. split; [vm_compute; lia|reflexivity].
Qed.

(** C7, as the code has it. For every text, every service behaviour, and
    every retry count and delay whose pauses [time.sleep] takes: with a key
    that [clean_key] keeps,
    [analyze_job_post] returns a mapping that has the business fields and a
    boolean [relevant], and raises nothing; with a key that [clean_key]
    rejects (blank, or one of the placeholders replace_me, none, null) it
    raises a [RuntimeError] before any call. *)
Theorem analyze_job_post_returns_or_rejects_key (ext : externals) (text : str)
    (key : option str) (retries : Z) (initial_delay : Q) (w : world) :
  backoff_accepted retries initial_delay ->
  (clean_key key <> [] ->
     exists d w',
       analyze_job_post ext text key retries initial_delay w = (Ok d, w')
       /\ job_shaped d)
  /\ (clean_key key = [] ->
        analyze_job_post ext text key retries initial_delay w
        = (Raise RuntimeError, w)).
Proof.
  intros Hdelay. unfold analyze_job_post. split; intros Hkey.
  - rewrite decide_False by done. apply analyze_attempts_returns.
    intros a. by apply backoff_accepted_seqZ.
  - by rewrite decide_True.
Qed.

(** A service that answers with a JSON list, which is no object. *)
Lemma analyze_job_post_returns_or_rejects_key_witness :
  let ext := mkExternals (fun _ => Json (PList [])) (fun _ => []) true true
                         (fun s => s) OutreachSkipped in
  let w := mkWorld Absent 0 [] [] [] in
  (exists d w',
     analyze_job_post ext (lit "hello") (Some (lit "sk-or-v1-0123"))
                      default_retries default_initial_delay w = (Ok d, w')
     /\ job_shaped d)
  /\ analyze_job_post ext (lit "hello") (Some (lit " NULL "))
                      default_retries default_initial_delay w
     = (Raise RuntimeError, w).
Proof.
  intros ext w. split.
  - apply (analyze_job_post_returns_or_rejects_key ext (lit "hello")
             (Some (lit "sk-or-v1-0123")) default_retries default_initial_delay w).
    + apply default_backoff_accepted.
    + vm_compute. discriminate.
  - apply (analyze_job_post_returns_or_rejects_key ext (lit "hello")
             (Some (lit " NULL ")) default_retries default_initial_delay w).
    + apply default_backoff_accepted.
    + vm_compute. reflexivity.
Defined.

(** C7 as stated fails: the placeholder key of an unedited configuration
    passes [validate_env], and [analyze_job_post] raises on it. *)
Lemma analyze_job_post_raises_on_placeholder_key :
  let ext := mkExternals (fun _ => Json (PDict ∅)) (fun _ => []) true true
                         (fun s => s) OutreachSkipped in
  let w := mkWorld Absent 0 [] [] [] in
  analyze_job_post ext (lit "hello") (Some (lit "replace_me"))
                   default_retries default_initial_delay w
  = (Raise RuntimeError, w).
Proof. intros ext w. vm_compute. reflexivity. Qed.

(** ** Decimal digits *)

Module DigitFacts.
Import Str.

Lemma code_chr n : 0 <= n < 256 -> code (chr n) = n.
Proof.
  intros Hn. unfold code, chr. rewrite N_ascii_embedding; lia.
Qed.

Lemma is_digit_digit x : 0 <= x <= 9 -> is_digit (digit x) = true.
Proof.
  intros Hx. unfold is_digit, digit. rewrite code_chr by lia.
  apply andb_true_iff. split; apply Z.leb_le; lia.
Qed.

Lemma digit_val_digit x : 0 <= x <= 9 -> digit_val (digit x) = x.
Proof.
  intros Hx. unfold digit_val, digit. rewrite code_chr by lia. lia.
Qed.

Lemma isspace_digit x : 0 <= x <= 9 -> isspace (digit x) = false.
Proof.
  intros Hx. unfold isspace, digit. cbv zeta. rewrite code_chr by lia.
  repeat (apply orb_false_iff; split);
    try (apply andb_false_iff; left; apply Z.leb_gt; lia);
    try (apply andb_false_iff; right; apply Z.leb_gt; lia);
    apply Z.eqb_neq; lia.
Qed.

Lemma digits_fixed_length w n : length (digits_fixed w n) = w.
Proof.
  revert n. induction w as [|w IH]; intros n; simpl; [done|].
  rewrite length_app, IH. simpl. lia.
Qed.

Lemma digits_fixed_all_digits w n :
  0 <= n -> forallb is_digit (digits_fixed w n) = true.
Proof.
  revert n. induction w as [|w IH]; intros n Hn; simpl; [done|].
  rewrite forallb_app, IH by (apply Z.div_pos; lia). simpl.
  rewrite is_digit_digit; [done|].
  pose proof (Z.mod_pos_bound n 10). lia.
Qed.

Lemma digits_fixed_value w n acc :
  0 <= n ->
  value_from acc (digits_fixed w n) = acc * 10 ^ Z.of_nat w + n mod 10 ^ Z.of_nat w.
Proof.
  unfold value_from. revert n acc.
  induction w as [|w IH]; intros n acc Hn.
  - simpl. rewrite Z.mod_1_r. lia.
  - cbn [digits_fixed]. rewrite foldl_app, IH by (apply Z.div_pos; lia).
    cbn [foldl]. pose proof (Z.mod_pos_bound n 10).
    rewrite digit_val_digit by lia.
    rewrite Nat2Z.inj_succ, Z.pow_succ_r by lia.
    rewrite (Z.rem_mul_r n 10 (10 ^ Z.of_nat w)) by lia. lia.
Qed.

Lemma pad_fixed w n : 0 <= n < 10 ^ Z.of_nat w -> pad w n = digits_fixed w n.
Proof.
  intros Hn. unfold pad.
  by assert ((n <? 10 ^ Z.of_nat w) = true) as -> by (apply Z.ltb_lt; lia).
Qed.

Lemma number_pad w n :
  0 <= n < 10 ^ Z.of_nat w -> Iso.number w (pad w n) = Some n.
Proof.
  intros Hn. rewrite pad_fixed by done. unfold Iso.number.
  rewrite decide_True.
  - f_equal. change (value_from 0 (digits_fixed w n) = n).
    rewrite digits_fixed_value by lia. rewrite Z.mod_small; lia.
  - split; [apply digits_fixed_length|apply digits_fixed_all_digits; lia].
Qed.

(** The first character of a padded number is a digit. *)
Lemma pad2_cons n :
  0 <= n < 100 -> pad 2 n = [digit (n / 10); digit (n mod 10)].
Proof.
  intros Hn. rewrite pad_fixed by (simpl; lia). simpl. do 2 f_equal.
  rewrite Z.mod_small; [done|]. split; [apply Z.div_pos; lia|].
  apply Z.div_lt_upper_bound; lia.
Qed.

End DigitFacts.

(** ** The persisted cursor *)

Lemma days_in_month_le_31 y m : DT.days_in_month y m <= 31.
Proof.
  unfold DT.days_in_month. destruct (DT.is_leap y);
    repeat (match goal with
            | |- context [match ?x with _ => _ end] => destruct x
            end); lia.
Qed.

Lemma valid_bounds t :
  DT.valid t = true ->
  1 <= year t <= 9999 /\ 1 <= month t <= 12
  /\ 1 <= day t <= DT.days_in_month (year t) (month t) /\ day t <= 31
  /\ 0 <= hour t <= 23 /\ 0 <= minute t <= 59 /\ 0 <= second t <= 59
  /\ 0 <= microsecond t <= 999999.
Proof.
  unfold DT.valid. rewrite !andb_true_iff, !Z.leb_le.
  pose proof (days_in_month_le_31 (year t) (month t)). lia.
Qed.

Lemma fromisoformat_isoformat t :
  DT.valid t = true -> Iso.fromisoformat (DT.isoformat t) = Some t.
Proof.
  intros Hv. pose proof (valid_bounds t Hv) as (Hy & Hm & Hd & Hd' & Hh & Hmi & Hs & Hus).
  destruct t as [y m d h mi s us]; simpl in *.
  unfold DT.isoformat; simpl.
  assert (Hn4 := DigitFacts.number_pad 4 y ltac:(simpl; lia)).
  assert (Hn2m := DigitFacts.number_pad 2 m ltac:(simpl; lia)).
  assert (Hn2d := DigitFacts.number_pad 2 d ltac:(simpl; lia)).
  assert (Hn2h := DigitFacts.number_pad 2 h ltac:(simpl; lia)).
  assert (Hn2mi := DigitFacts.number_pad 2 mi ltac:(simpl; lia)).
  assert (Hn2s := DigitFacts.number_pad 2 s ltac:(simpl; lia)).
  assert (Hn6 := DigitFacts.number_pad 6 us ltac:(simpl; lia)).
  rewrite (DigitFacts.pad_fixed 4 y) in * by (simpl; lia).
  rewrite (DigitFacts.pad_fixed 2 m) in * by (simpl; lia).
  rewrite (DigitFacts.pad_fixed 2 d) in * by (simpl; lia).
  rewrite (DigitFacts.pad_fixed 2 h) in * by (simpl; lia).
  rewrite (DigitFacts.pad_fixed 2 mi) in * by (simpl; lia).
  rewrite (DigitFacts.pad_fixed 2 s) in * by (simpl; lia).
  rewrite (DigitFacts.pad_fixed 6 us) in * by (simpl; lia).
  cbn [Str.digits_fixed app lit String.list_ascii_of_string] in *.
  cbn [Iso.fromisoformat]. rewrite Hn4, Hn2m, Hn2d. cbn [mbind option_bind].
  destruct (us =? 0) eqn:Eus.
  - apply Z.eqb_eq in Eus. subst us.
    cbn [app Iso.time_of]. rewrite Hn2h, Hn2mi, Hn2s. cbn [mbind option_bind].
    by rewrite Hv.
  - cbn [app Iso.time_of]. rewrite Hn2h, Hn2mi, Hn2s. cbn [mbind option_bind].
    unfold Iso.fraction. rewrite Hn6. cbn [mbind option_bind].
    by rewrite Hv.
Qed.

Lemma isoformat_nonempty t : DT.valid t = true -> DT.isoformat t <> [].
Proof.
  intros Hv. pose proof (valid_bounds t Hv) as (Hy & _).
  unfold DT.isoformat. rewrite (DigitFacts.pad_fixed 4) by (simpl; lia).
  simpl. by destruct (_ ++ _).
Qed.


Lemma load_after_save ts w w1 :
  DT.valid ts = true ->
  save_last_processed_timestamp ts w = (Ok tt, w1) ->
  load_last_processed_timestamp w1 = (Ok (Some ts), w1).
Proof.
  intros Hv. unfold save_last_processed_timestamp. rewrite Hv.
  intros [= <-]. unfold load_last_processed_timestamp. cbn [w_file].
  rewrite lookup_singleton_eq. unfold default, id.
  pose proof (isoformat_nonempty ts Hv) as Hne.
  pose proof (fromisoformat_isoformat ts Hv) as Hrt.
  destruct (DT.isoformat ts) eqn:E; [done|].
  cbn [truthy]. by rewrite Hrt.
Qed.

(** C10. The cursor round-trips: for every datetime [ts], loading right
    after [save_last_processed_timestamp ts] returns exactly [ts], because
    [fromisoformat] reads the ISO-8601 text of [ts] back to [ts]. *)
Theorem cursor_roundtrip (ts : datetime) (w : world) :
  DT.valid ts = true ->
  Iso.fromisoformat (DT.isoformat ts) = Some ts
  /\ forall w1, save_last_processed_timestamp ts w = (Ok tt, w1) ->
       load_last_processed_timestamp w1 = (Ok (Some ts), w1).
Proof.
  intros Hv. split; [by apply fromisoformat_isoformat|].
  intros w1 Hsave. by apply (load_after_save ts w).
Qed.

(** The cursor of the end-to-end scenario, and one with microseconds. *)
Lemma cursor_roundtrip_witness :
  let w := mkWorld Garbled 0 [] [] [] in
  let ts := mkDatetime 2026 1 2 9 0 0 0 in
  let ts' := mkDatetime 2024 2 29 23 59 59 1500 in
  Iso.fromisoformat (lit "2026-01-02T09:00:00") = Some ts
  /\ Iso.fromisoformat (DT.isoformat ts') = Some ts'
  /\ load_last_processed_timestamp (save_last_processed_timestamp ts w).2
     = (Ok (Some ts), (save_last_processed_timestamp ts w).2).
Proof.
  intros w ts ts'. split; [|split].
  - exact (proj1 (cursor_roundtrip ts w eq_refl)).
  - exact (proj1 (cursor_roundtrip ts' w eq_refl)).
  - exact (proj2 (cursor_roundtrip ts w eq_refl) _ eq_refl).
Defined.

(** ** The run and the cursor *)

Lemma same_store_refl w : same_store w w.
Proof. done. Qed.










(** [max] over a sequence that is not empty. *)
Lemma max_timestamp_from_spec rest : forall best,
  let r := max_timestamp_from best rest in
  (r = best \/ exists m, m ∈ rest /\ timestamp m = r)
  /\ (best <=dt r) = true
  /\ forall m, m ∈ rest -> (timestamp m <=dt r) = true.
Proof.
  induction rest as [|x rest IH]; intros best; simpl.
  - split; [by left|]. split; [apply DTFacts.leb_refl|]. intros m Hm. by inversion Hm.
  - destruct (best <dt timestamp x) eqn:E.
    + destruct (IH (timestamp x)) as (H1 & H2 & H3). split; [|split].
      * destruct H1 as [H1|(m & Hin & Hm)].
        -- right. exists x. split; [left|done].
        -- right. exists m. split; [by right|done].
      * eapply DTFacts.leb_trans; [|exact H2]. by apply DTFacts.ltb_leb.
      * intros m Hm. apply elem_of_cons in Hm as [->|Hm]; [done|by apply H3].
    + destruct (IH best) as (H1 & H2 & H3). split; [|split].
      * destruct H1 as [H1|(m & Hin & Hm)]; [by left|].
        right. exists m. split; [by right|done].
      * done.
      * intros m Hm. apply elem_of_cons in Hm as [->|Hm]; [|by apply H3].
        eapply DTFacts.leb_trans; [|exact H2]. unfold DT.leb. by rewrite E.
Qed.

Lemma max_timestamp_spec l :
  l <> [] -> exists t, max_timestamp l = Some t /\ is_latest l t.
Proof.
  destruct l as [|x rest]; [done|]. intros _. simpl. eexists. split; [done|].
  destruct (max_timestamp_from_spec rest (timestamp x)) as (H1 & H2 & H3).
  split.
  - destruct H1 as [H1|(m & Hin & Hm)].
    + exists x. split; [left|done].
    + exists m. split; [by right|done].
  - intros m Hm. apply elem_of_cons in Hm as [->|Hm]; [done|by apply H3].
Qed.

Lemma deduplicate_messages_from_sublist messages : forall seen,
  sublist (deduplicate_messages_from seen messages) messages.
Proof.
  induction messages as [|m rest IH]; intros seen; simpl; [done|].
  destruct (decide _); [by apply sublist_cons|by apply sublist_skip].
Qed.





(** ** HeaderParser: the round trip of a synthesized header *)

Lemma date_formats_templates :
  date_formats = [ template false true true; template true true true;
                   template false false true; template true false true;
                   template false true false; template true true false;
                   template false false false; template true false false ].
Proof. reflexivity. Qed.

Lemma pattern_template df y4 h12 :
  Strptime.pattern false (template df y4 h12) = Some (template_re df y4 h12).
Proof. destruct df, y4, h12; reflexivity. Qed.

Lemma year_text_pad y : 1000 <= y -> Strftime.year_text y = Str.pad 4 y.
Proof.
  intros Hy. unfold Strftime.year_text.
  by assert ((y <? 1000) = false) as -> by (apply Z.ltb_ge; lia).
Qed.

Lemma strftime_template df y4 h12 t :
  1000 <= year t ->
  Strftime.strftime (template df y4 h12) t
  = date_text df y4 t (" "%char :: time_text h12 t).
Proof.
  intros Hy.
  destruct df, y4, h12; cbn -[Str.pad Strftime.year_text];
    rewrite ?year_text_pad by done; unfold date_text, time_text, meridiem;
    rewrite ?app_nil_r; reflexivity.
Qed.

Lemma synth_header_template df y4 h12 sender t :
  1000 <= year t ->
  synth_header (template df y4 h12) sender t
  = "["%char :: time_text h12 t ++ ","%char :: " "%char
    :: date_text df y4 t [] ++ "]"%char :: " "%char :: sender ++ [":"%char].
Proof.
  intros Hy.
  destruct df, y4, h12; unfold synth_header; cbn -[Str.pad Strftime.year_text];
    rewrite ?year_text_pad by done;
    unfold date_text, time_text, meridiem; rewrite ?app_nil_r;
    repeat (rewrite <- app_assoc || rewrite <- app_comm_cons); reflexivity.
Qed.

(** *** The directives of [strptime] on the text [strftime] writes

    A two-digit field is one of a few dozen texts: the lemmas on the fields
    with alternatives ([%m %d %I %H %M]) run the matcher on each of them, with
    the rest of the input and the continuation left open. *)

(** Case analysis on an integer between two constants. *)
Ltac enum_Z v lo hi tac :=
  let rec go n :=
    let stop := eval cbv in (Z.ltb hi n) in
    lazymatch stop with
    | true => exfalso; lia
    | false =>
        destruct (Z.eq_dec v n) as [->|?];
        [ tac | let n' := eval cbv in (n + 1) in go n' ]
    end in
  go lo.

Lemma consumed_app p s : Re.consumed (p ++ s) s = p.
Proof.
  unfold Re.consumed. rewrite length_app.
  replace (length p + length s - length s)%nat with (length p) by lia.
  by rewrite take_app_length.
Qed.

Lemma consumed_2 a b s : Re.consumed (a :: b :: s) s = [a; b].
Proof. apply (consumed_app [a; b]). Qed.

Lemma consumed_4 a b c d s : Re.consumed (a :: b :: c :: d :: s) s = [a; b; c; d].
Proof. apply (consumed_app [a; b; c; d]). Qed.

(** Runs the matcher on a concrete field; when a later alternative exists,
    the continuation decides, and both outcomes agree. *)
Ltac run_alternatives :=
  cbv -[Re.consumed]; rewrite ?consumed_2;
  repeat match goal with
         | |- context [match ?x with Some _ => _ | None => _ end] => destruct x
         end;
  reflexivity.

Section Directives.
Context {R : Type}.
Implicit Types (F : str -> Re.captures -> option R) (caps : Re.captures).

Lemma exec_m_then v rest caps F :
  1 <= v <= 31 ->
  Re.exec true (re_of "m") (Str.pad 2 v ++ "/"%char :: rest) caps (expect "/" F)
  = if v <=? 12 then F rest (caps ++ [("m"%string, Str.pad 2 v)]) else None.
Proof. intros Hv. enum_Z v 1 31 ltac:(run_alternatives). Qed.

Lemma exec_d_then v rest caps F :
  1 <= v <= 31 ->
  Re.exec true (re_of "d") (Str.pad 2 v ++ "/"%char :: rest) caps (expect "/" F)
  = F rest (caps ++ [("d"%string, Str.pad 2 v)]).
Proof. intros Hv. enum_Z v 1 31 ltac:(run_alternatives). Qed.

Lemma exec_I_then v rest caps F :
  0 <= v <= 23 ->
  Re.exec true (re_of "I") (Str.pad 2 v ++ ":"%char :: rest) caps (expect ":" F)
  = if (1 <=? v) && (v <=? 12) then F rest (caps ++ [("I"%string, Str.pad 2 v)])
    else None.
Proof. intros Hv. enum_Z v 0 23 ltac:(run_alternatives). Qed.

Lemma exec_H_then v rest caps F :
  0 <= v <= 23 ->
  Re.exec true (re_of "H") (Str.pad 2 v ++ ":"%char :: rest) caps (expect ":" F)
  = F rest (caps ++ [("H"%string, Str.pad 2 v)]).
Proof. intros Hv. enum_Z v 0 23 ltac:(run_alternatives). Qed.

End Directives.

(** The year fields and the blank, on digits that stay symbolic. *)
Section Years.
Context {R : Type}.
Implicit Types (cont : str -> Re.captures -> option R) (caps : Re.captures).

Lemma pad4_cons y :
  0 <= y <= 9999 ->
  Str.pad 4 y = [Str.digit (y / 1000); Str.digit (y / 100 mod 10);
                 Str.digit (y / 10 mod 10); Str.digit (y mod 10)].
Proof.
  intros Hy. rewrite DigitFacts.pad_fixed by (simpl; lia).
  cbn [Str.digits_fixed app].
  rewrite !Z.div_div by lia. change (10 * 10 * 10) with 1000. change (10 * 10) with 100.
  do 1 f_equal. rewrite Z.mod_small; [done|].
  split; [apply Z.div_pos; lia|apply Z.div_lt_upper_bound; lia].
Qed.

Lemma digit_bounds y k : 0 <= y -> 0 <= y / k mod 10 <= 9.
Proof. intros. pose proof (Z.mod_pos_bound (y / k) 10). lia. Qed.

Lemma exec_Y4 r' y rest caps cont :
  0 <= y <= 9999 ->
  Re.exec true (Re.Cat (re_of "Y") r') (Str.pad 4 y ++ rest) caps cont
  = Re.exec true r' rest (caps ++ [("Y"%string, Str.pad 4 y)]) cont.
Proof.
  intros Hy. rewrite pad4_cons by done.
  unfold re_of, Strptime.directive, Strptime.two.
  cbn [Re.exec Re.cls_match app].
  rewrite !DigitFacts.is_digit_digit.
  - by rewrite consumed_4.
  - pose proof (Z.mod_pos_bound y 10). lia.
  - apply digit_bounds; lia.
  - apply digit_bounds; lia.
  - split; [apply Z.div_pos; lia|].
    assert (y / 1000 < 10) by (apply Z.div_lt_upper_bound; lia). lia.
Qed.

Lemma exec_Y4_short r' yy rest caps cont :
  0 <= yy <= 99 ->
  Re.exec true (Re.Cat (re_of "Y") r') (Str.pad 2 yy ++ " "%char :: rest) caps cont
  = None.
Proof.
  intros Hy. rewrite DigitFacts.pad2_cons by lia.
  unfold re_of, Strptime.directive, Strptime.two.
  cbn [Re.exec Re.cls_match app].
  rewrite !DigitFacts.is_digit_digit.
  - reflexivity.
  - pose proof (Z.mod_pos_bound yy 10). lia.
  - split; [apply Z.div_pos; lia|].
    assert (yy / 10 < 10) by (apply Z.div_lt_upper_bound; lia). lia.
Qed.

Lemma exec_y2 r' yy rest caps cont :
  0 <= yy <= 99 ->
  Re.exec true (Re.Cat (re_of "y") r') (Str.pad 2 yy ++ rest) caps cont
  = Re.exec true r' rest (caps ++ [("y"%string, Str.pad 2 yy)]) cont.
Proof.
  intros Hy. rewrite DigitFacts.pad2_cons by lia.
  unfold re_of, Strptime.directive, Strptime.two.
  cbn [Re.exec Re.cls_match app].
  rewrite !DigitFacts.is_digit_digit.
  - by rewrite consumed_2.
  - pose proof (Z.mod_pos_bound yy 10). lia.
  - split; [apply Z.div_pos; lia|].
    assert (yy / 10 < 10) by (apply Z.div_lt_upper_bound; lia). lia.
Qed.

Lemma exec_y2_long r' y rest caps cont :
  0 <= y <= 9999 ->
  Re.exec true (Re.Cat (re_of "y") (Re.Cat (Re.Plus Re.Space) r'))
          (Str.pad 4 y ++ rest) caps cont
  = None.
Proof.
  intros Hy. rewrite pad4_cons by done.
  unfold re_of, Strptime.directive, Strptime.two.
  cbn [Re.exec Re.cls_match app].
  rewrite !DigitFacts.is_digit_digit, DigitFacts.isspace_digit.
  - reflexivity.
  - apply digit_bounds; lia.
  - apply digit_bounds; lia.
  - split; [apply Z.div_pos; lia|].
    assert (y / 1000 < 10) by (apply Z.div_lt_upper_bound; lia). lia.
Qed.

Lemma exec_blank r' v rest caps cont :
  0 <= v <= 99 ->
  Re.exec true (Re.Cat (Re.Plus Re.Space) r')
          (" "%char :: Str.pad 2 v ++ rest) caps cont
  = Re.exec true r' (Str.pad 2 v ++ rest) caps cont.
Proof.
  intros Hv. rewrite DigitFacts.pad2_cons by lia.
  cbn [Re.exec Re.cls_match app Re.star_greedy].
  change (Str.isspace " ") with true. cbv iota.
  rewrite DigitFacts.isspace_digit; [done|].
  split; [apply Z.div_pos; lia|].
  assert (v / 10 < 10) by (apply Z.div_lt_upper_bound; lia). lia.
Qed.
End Years.

(** The minute field, which ends the 24-hour time and precedes the meridiem
    of the 12-hour time. *)
Section Minutes.
Implicit Types (caps : Re.captures).

Ltac run_minutes :=
  cbv -[Re.consumed]; rewrite ?consumed_2; reflexivity.

Lemma exec_M_end v caps :
  0 <= v <= 59 ->
  Re.exec true (Re.Cat (re_of "M") Re.Empty) (Str.pad 2 v) caps cont0
  = Some (caps ++ [("M"%string, Str.pad 2 v)], []).
Proof. intros Hv. enum_Z v 0 59 ltac:(run_minutes). Qed.

Lemma exec_M_end_left v rest caps :
  0 <= v <= 59 ->
  Re.exec true (Re.Cat (re_of "M") Re.Empty) (Str.pad 2 v ++ " "%char :: rest)
          caps cont0
  = Some (caps ++ [("M"%string, Str.pad 2 v)], " "%char :: rest).
Proof. intros Hv. enum_Z v 0 59 ltac:(run_minutes). Qed.

Lemma exec_M_p v h caps :
  0 <= v <= 59 ->
  Re.exec true (Re.Cat (re_of "M") (Re.Cat (Re.Plus Re.Space)
                  (Re.Cat (re_of "p") Re.Empty)))
          (Str.pad 2 v ++ " "%char :: (if h <? 12 then lit "AM" else lit "PM"))
          caps cont0
  = Some ((caps ++ [("M"%string, Str.pad 2 v)])
          ++ [("p"%string, if h <? 12 then lit "AM" else lit "PM")], []).
Proof.
  intros Hv. destruct (h <? 12); enum_Z v 0 59 ltac:(run_minutes).
Qed.

Lemma exec_M_blank_none {R} r' v caps (cont : str -> Re.captures -> option R) :
  0 <= v <= 59 ->
  Re.exec true (Re.Cat (re_of "M") (Re.Cat (Re.Plus Re.Space) r'))
          (Str.pad 2 v) caps cont
  = None.
Proof. intros Hv. enum_Z v 0 59 ltac:(cbv; reflexivity). Qed.
End Minutes.

(** The same for a field followed by its separator in the pattern. *)
Section CatForms.
Context {R : Type}.
Implicit Types (cont : str -> Re.captures -> option R) (caps : Re.captures).

Lemma exec_m r' v rest caps cont :
  1 <= v <= 31 ->
  Re.exec true (Re.Cat (re_of "m") (Re.Cat (Re.Chr (Re.Lit "/")) r'))
          (Str.pad 2 v ++ "/"%char :: rest) caps cont
  = if v <=? 12
    then Re.exec true r' rest (caps ++ [("m"%string, Str.pad 2 v)]) cont
    else None.
Proof.
  intros Hv.
  exact (exec_m_then v rest caps (fun s c => Re.exec true r' s c cont) Hv).
Qed.

Lemma exec_d r' v rest caps cont :
  1 <= v <= 31 ->
  Re.exec true (Re.Cat (re_of "d") (Re.Cat (Re.Chr (Re.Lit "/")) r'))
          (Str.pad 2 v ++ "/"%char :: rest) caps cont
  = Re.exec true r' rest (caps ++ [("d"%string, Str.pad 2 v)]) cont.
Proof.
  intros Hv.
  exact (exec_d_then v rest caps (fun s c => Re.exec true r' s c cont) Hv).
Qed.

Lemma exec_I r' v rest caps cont :
  0 <= v <= 23 ->
  Re.exec true (Re.Cat (re_of "I") (Re.Cat (Re.Chr (Re.Lit ":")) r'))
          (Str.pad 2 v ++ ":"%char :: rest) caps cont
  = if (1 <=? v) && (v <=? 12)
    then Re.exec true r' rest (caps ++ [("I"%string, Str.pad 2 v)]) cont
    else None.
Proof.
  intros Hv.
  exact (exec_I_then v rest caps (fun s c => Re.exec true r' s c cont) Hv).
Qed.

Lemma exec_H r' v rest caps cont :
  0 <= v <= 23 ->
  Re.exec true (Re.Cat (re_of "H") (Re.Cat (Re.Chr (Re.Lit ":")) r'))
          (Str.pad 2 v ++ ":"%char :: rest) caps cont
  = Re.exec true r' rest (caps ++ [("H"%string, Str.pad 2 v)]) cont.
Proof.
  intros Hv.
  exact (exec_H_then v rest caps (fun s c => Re.exec true r' s c cont) Hv).
Qed.
End CatForms.

Lemma strip_no_space s :
  Forall (fun c => Str.isspace c = false) s -> Str.strip s = s.
Proof.
  intros Hs. apply StrFacts.strip_id.
  - destruct Hs; simpl; done.
  - unfold no_trail. induction Hs as [|c s Hc Hs IH]; simpl; [done|].
    rewrite IH. destruct s; [by rewrite Hc|done].
Qed.

Lemma pad_no_space w n :
  0 <= n < 10 ^ Z.of_nat w -> Forall (fun c => Str.isspace c = false) (Str.pad w n).
Proof.
  intros Hn. rewrite DigitFacts.pad_fixed by done.
  assert (0 <= n) as Hn0 by lia. clear Hn. revert n Hn0.
  induction w as [|w IH]; intros n Hn; simpl; [constructor|].
  apply Forall_app. split; [apply IH; apply Z.div_pos; lia|].
  constructor; [|constructor]. apply DigitFacts.isspace_digit.
  pose proof (Z.mod_pos_bound n 10). lia.
Qed.

Lemma int_of_pad w n : 0 <= n < 10 ^ Z.of_nat w -> Strptime.int_of (Str.pad w n) = n.
Proof.
  intros Hn. unfold Strptime.int_of.
  rewrite strip_no_space by (by apply pad_no_space).
  rewrite DigitFacts.pad_fixed by done.
  change (value_from 0 (Str.digits_fixed w n) = n).
  rewrite DigitFacts.digits_fixed_value by lia. rewrite Z.mod_small; lia.
Qed.

Lemma hour12_bounds h : 0 <= h <= 23 -> 1 <= Strftime.hour12 h <= 12.
Proof.
  intros Hh. unfold Strftime.hour12.
  destruct (Z.eqb_spec (h mod 12) 0); [lia|].
  pose proof (Z.mod_pos_bound h 12). lia.
Qed.

Lemma hour_of_hour12 h :
  0 <= h <= 23 ->
  Strptime.hour_of (Strftime.hour12 h)
                   (Str.lower (if h <? 12 then lit "AM" else lit "PM")) = h.
Proof. intros Hh. enum_Z h 0 23 ltac:(vm_compute; reflexivity). Qed.

Lemma valid_swap t :
  DT.valid t = true -> day t <= 12 -> DT.valid (swap_day_month t) = true.
Proof.
  intros Hv Hd. pose proof (valid_bounds t Hv) as Hb.
  unfold DT.valid, swap_day_month. cbn [year month day hour minute second microsecond].
  assert (month t <= DT.days_in_month (year t) (day t)) as Hdim.
  { assert (28 <= DT.days_in_month (year t) (day t)); [|lia].
    assert (1 <= day t <= 12) as Hr by lia. revert Hr. generalize (day t) as d.
    intros d Hr. unfold DT.days_in_month.
    enum_Z d 1 12 ltac:(try destruct (DT.is_leap (year t)); lia). }
  rewrite !andb_true_iff, !Z.leb_le. lia.
Qed.

Lemma two_digit_year y :
  1969 <= y <= 2068 ->
  (if y mod 100 <=? 68 then y mod 100 + 2000 else y mod 100 + 1900) = y.
Proof.
  intros Hy. destruct (Z.leb_spec (y mod 100) 68);
    pose proof (Z.div_mod y 100 ltac:(lia)); pose proof (Z.mod_pos_bound y 100 ltac:(lia));
    assert (y / 100 = 19 \/ y / 100 = 20) as [Hq|Hq]
      by (assert (19 <= y / 100) by (apply Z.div_le_lower_bound; lia);
          assert (y / 100 < 21) by (apply Z.div_lt_upper_bound; lia); lia);
    lia.
Qed.

Ltac step_re :=
  first [ rewrite exec_m by lia | rewrite exec_d by lia
        | rewrite exec_Y4 by lia | rewrite exec_Y4_short by lia
        | rewrite exec_y2 by lia | rewrite exec_y2_long by lia
        | rewrite exec_blank by lia
        | rewrite exec_I by lia | rewrite exec_H by lia
        | rewrite exec_M_end by lia | rewrite exec_M_end_left by lia
        | rewrite exec_M_p by lia | rewrite exec_M_blank_none by lia ].

Lemma strptime_strftime df y4 h12 df' y4' h12' t :
  expressible y4 t ->
  Strptime.strptime (Strftime.strftime (template df y4 h12) t)
                    (template df' y4' h12')
  = if Bool.eqb y4 y4' && Bool.eqb h12 h12'
    then (if Bool.eqb df df' then Some t
          else if day t <=? 12 then Some (swap_day_month t) else None)
    else None.
Proof.
  intros (Hv & Hs & Hus & Hy).
  pose proof (valid_bounds t Hv) as (Hby & Hbm & Hbd & Hbd' & Hbh & Hbmi & _ & _).
  pose proof (hour12_bounds (hour t) Hbh) as Hb12.
  pose proof (Z.mod_pos_bound (year t) 100 ltac:(lia)) as Hyy.
  pose proof (valid_swap t Hv) as Hvs.
  destruct t as [y m d h mi s us]. simpl in *. subst s us.
  unfold Strptime.strptime.
  rewrite pattern_template, strftime_template by (simpl; destruct y4; lia).
  unfold Re.re_match. fold cont0.
  destruct df, y4, h12, df', y4', h12'; 
   unfold template_re, date_text, time_text, meridiem;
    cbn [year month day hour minute Bool.eqb andb];
    repeat step_re.
  all: assert ((m <=? 12) = true) as Em by (apply Z.leb_le; lia);
       assert (((1 <=? Strftime.hour12 h) && (Strftime.hour12 h <=? 12)) = true) as E12
         by (apply andb_true_iff; split; apply Z.leb_le; lia);
       rewrite ?Em, ?E12;
       try match goal with
           | |- context [if ?c then None else None] => destruct c
           end;
       destruct (Z.leb_spec d 12) as [Hd|Hd];
       cbn -[Strptime.int_of Str.pad Strptime.hour_of Str.lower DT.valid
             Strftime.hour12 lit];
       try reflexivity;
       rewrite ?int_of_pad by (simpl; lia);
       rewrite ?hour_of_hour12, ?two_digit_year by lia;
       unfold swap_day_month, Strptime.make_datetime in *;
       cbn -[DT.valid] in *;
       rewrite ?Hv, ?Hvs by lia; try reflexivity.
Qed.

(** *** The header pattern *)

Section HeaderPattern.
Context {R : Type}.
Implicit Types (cont : str -> Re.captures -> option R) (caps : Re.captures).

Lemma exec_lit r' c s caps cont :
  Re.exec false (Re.Cat (Re.Chr (Re.Lit c)) r') (c :: s) caps cont
  = Re.exec false r' s caps cont.
Proof. cbn [Re.exec Re.cls_match]. by rewrite Ascii.eqb_refl. Qed.

Lemma exec_space r' s caps cont :
  Re.exec false (Re.Cat (Re.Chr Re.Space) r') (" "%char :: s) caps cont
  = Re.exec false r' s caps cont.
Proof. reflexivity. Qed.

Lemma star_greedy_run ic k s c rest (cont1 : str -> option R) x :
  Forall (fun a => Re.cls_match ic k a = true) s ->
  Re.cls_match ic k c = false ->
  cont1 (c :: rest) = Some x ->
  Re.star_greedy ic k (s ++ c :: rest) cont1 = Some x.
Proof.
  intros Hs Hc Hx. induction Hs as [|a s Ha Hs IH]; simpl.
  - by rewrite Hc.
  - by rewrite Ha, IH.
Qed.

Lemma exec_plus_group ic name k r' T c rest caps cont x :
  T <> [] ->
  Forall (fun a => Re.cls_match ic k a = true) T ->
  Re.cls_match ic k c = false ->
  Re.exec ic r' (c :: rest) (caps ++ [(name, T)]) cont = Some x ->
  Re.exec ic (Re.Cat (Re.Group name (Re.Plus k)) r') (T ++ c :: rest) caps cont
  = Some x.
Proof.
  intros HT Hall Hc Hx. destruct T as [|a T]; [done|].
  inversion Hall as [|? ? Ha Hall']; subst.
  cbn [Re.exec app]. rewrite Ha.
  apply star_greedy_run; [done|done|].
  change (a :: T ++ c :: rest) with ((a :: T) ++ c :: rest).
  by rewrite consumed_app.
Qed.

Lemma star_lazy_run ic k s rest (cont1 : str -> option R) x :
  Forall (fun a => Re.cls_match ic k a = true) s ->
  (forall s1 s2, s = s1 ++ s2 -> s2 <> [] -> cont1 (s2 ++ rest) = None) ->
  cont1 rest = Some x ->
  Re.star_lazy ic k (s ++ rest) cont1 = Some x.
Proof.
  intros Hs. induction Hs as [|a s Ha Hs IH]; intros Hnone Hx.
  - simpl. destruct rest; simpl; by rewrite Hx.
  - pose proof (Hnone [] (a :: s) eq_refl ltac:(done)) as H0.
    cbn [app] in *. cbn [Re.star_lazy]. rewrite H0, Ha.
    apply IH; [|done]. intros s1 s2 -> Hs2.
    by apply (Hnone (a :: s1) s2).
Qed.

Lemma exec_lazy_group ic name k r' S rest caps cont x :
  Forall (fun a => Re.cls_match ic k a = true) S ->
  (forall s1 s2, S = s1 ++ s2 -> s2 <> [] ->
     Re.exec ic r' (s2 ++ rest) (caps ++ [(name, s1)]) cont = None) ->
  Re.exec ic r' rest (caps ++ [(name, S)]) cont = Some x ->
  Re.exec ic (Re.Cat (Re.Group name (Re.LazyStar k)) r') (S ++ rest) caps cont
  = Some x.
Proof.
  intros Hall Hnone Hx. cbn [Re.exec].
  apply star_lazy_run; [done| |].
  - intros s1 s2 -> Hs2. rewrite <- app_assoc, consumed_app. by apply Hnone.
  - by rewrite consumed_app.
Qed.

(** After the sender the pattern wants a colon, at most one blank, and the
    end of the text: that fails before the last colon of the header. *)
Lemma exec_colon_end_none s2 caps cont :
  s2 <> [] ->
  Re.exec false (Re.Cat (Re.Chr (Re.Lit ":")) (Re.Cat (Re.Opt Re.Space)
                   (Re.Cat Re.Eos Re.Empty)))
          (s2 ++ [":"%char]) caps cont = None.
Proof.
  intros Hs2. destruct s2 as [|a s2]; [done|].
  cbn [Re.exec Re.cls_match app].
  destruct (Ascii.eqb ":" a); [|done].
  destruct s2 as [|b s2]; cbn [app].
  - reflexivity.
  - destruct (Str.isspace b).
    + destruct s2 as [|c s2]; cbn [app]; [reflexivity|].
      by destruct s2.
    + by destruct s2.
Qed.

End HeaderPattern.

Lemma exec_colon_end caps :
  Re.exec false (Re.Cat (Re.Chr (Re.Lit ":")) (Re.Cat (Re.Opt Re.Space)
                   (Re.Cat Re.Eos Re.Empty)))
          [":"%char] caps cont0 = Some (caps, []).
Proof. reflexivity. Qed.

Lemma header_re_match T D S :
  T <> [] ->
  Forall (fun a => Re.cls_match false (Re.NoneOf [","; "]"]%char) a = true) T ->
  D <> [] ->
  Forall (fun a => Re.cls_match false (Re.NoneOf ["]"]%char) a = true) D ->
  Forall (fun a => a <> "010"%char) S ->
  Re.re_match false header_re
    ("["%char :: T ++ ","%char :: " "%char :: D ++ "]"%char :: " "%char
               :: S ++ [":"%char])
  = Some ([("time"%string, T); ("date"%string, D); ("sender"%string, S)], []).
Proof.
  intros HT HTall HD HDall HS.
  unfold Re.re_match, header_re, Re.cat. cbn [foldr]. fold cont0.
  rewrite exec_lit.
  apply exec_plus_group; [done|done|reflexivity|].
  rewrite exec_lit, exec_space.
  apply exec_plus_group; [done|done|reflexivity|].
  rewrite exec_lit, exec_space.
  apply exec_lazy_group.
  - eapply Forall_impl; [exact HS|]. intros a Ha. cbn [Re.cls_match].
    apply negb_true_iff. by apply Ascii.eqb_neq.
  - intros s1 s2 _ Hs2. by apply exec_colon_end_none.
  - apply exec_colon_end.
Qed.

Lemma no_space_no_trail s :
  Forall (fun c => Str.isspace c = false) s -> no_trail s.
Proof.
  intros Hs. unfold no_trail. induction Hs as [|c s Hc Hs IH]; simpl; [done|].
  rewrite IH. destruct s; [by rewrite Hc|done].
Qed.

Lemma no_trail_app a b : b <> [] -> no_trail b -> no_trail (a ++ b).
Proof.
  unfold no_trail. intros Hb Hnt. induction a as [|c a IH]; simpl; [done|].
  rewrite IH. destruct (a ++ b) eqn:E; [|done].
  by apply app_eq_nil in E as [_ ->].
Qed.

Lemma no_trail_cons c b : b <> [] -> no_trail b -> no_trail (c :: b).
Proof. apply (no_trail_app [c]). Qed.

Lemma digit_class c :
  Str.is_digit c = true ->
  Re.cls_match false (Re.NoneOf [","; "]"]%char) c = true
  /\ Re.cls_match false (Re.NoneOf ["]"]%char) c = true
  /\ Str.isspace c = false.
Proof.
  destruct c as [[] [] [] [] [] [] [] []]; vm_compute; intros H;
    (discriminate H || (repeat split; reflexivity)).
Qed.

Lemma pad_digits w n :
  0 <= n < 10 ^ Z.of_nat w -> Forall (fun c => Str.is_digit c = true) (Str.pad w n).
Proof.
  intros Hn. rewrite DigitFacts.pad_fixed by done.
  apply Forall_forall. intros c Hc.
  pose proof (DigitFacts.digits_fixed_all_digits w n ltac:(lia)) as Hall.
  rewrite forallb_forall in Hall. apply Hall. by apply list_elem_of_In.
Qed.

Lemma pad_nonempty w n : (0 < w)%nat -> 0 <= n < 10 ^ Z.of_nat w -> Str.pad w n <> [].
Proof.
  intros Hw Hn. rewrite DigitFacts.pad_fixed by done.
  intros E. apply (f_equal length) in E.
  rewrite DigitFacts.digits_fixed_length in E. simpl in E. lia.
Qed.

Lemma pad_class (P : ascii -> Prop) w n :
  (forall c, Str.is_digit c = true -> P c) ->
  0 <= n < 10 ^ Z.of_nat w -> Forall P (Str.pad w n).
Proof.
  intros HP Hn. eapply Forall_impl; [by apply pad_digits|]. exact HP.
Qed.

Section Texts.
Variables (t : datetime) (four_digit : bool).
Hypothesis Hexp : expressible four_digit t.

Lemma expressible_bounds :
  1 <= year t <= 9999 /\ 1 <= month t <= 12 /\ 1 <= day t <= 31
  /\ 0 <= hour t <= 23 /\ 0 <= minute t <= 59
  /\ 1 <= Strftime.hour12 (hour t) <= 12 /\ 0 <= year t mod 100 < 100.
Proof.
  destruct Hexp as (Hv & _).
  pose proof (valid_bounds t Hv) as (? & ? & ? & ? & ? & ? & _).
  pose proof (hour12_bounds (hour t) ltac:(lia)).
  pose proof (Z.mod_pos_bound (year t) 100 ltac:(lia)). lia.
Qed.

Lemma time_text_class twelve_hour :
  time_text twelve_hour t <> []
  /\ Forall (fun a => Re.cls_match false (Re.NoneOf [","; "]"]%char) a = true)
            (time_text twelve_hour t)
  /\ Str.strip (time_text twelve_hour t) = time_text twelve_hour t.
Proof.
  pose proof expressible_bounds as (Hy & Hm & Hd & Hh & Hmi & H12 & Hyy).
  assert (forall c, Str.is_digit c = true ->
            Re.cls_match false (Re.NoneOf [","; "]"]%char) c = true) as Hdig
    by (intros c Hc; by apply digit_class).
  unfold time_text, meridiem. split; [|split].
  - destruct twelve_hour; intros E; apply app_eq_nil in E as [E _];
      revert E; apply pad_nonempty; simpl; lia.
  - destruct twelve_hour, (hour t <? 12);
      repeat first [ apply Forall_app; split | apply Forall_cons; split
                   | apply Forall_nil ];
      first [ apply pad_class; [exact Hdig|simpl; lia] | reflexivity ].
  - apply StrFacts.strip_id.
    + destruct twelve_hour; rewrite DigitFacts.pad2_cons by lia; simpl;
        apply DigitFacts.isspace_digit;
        (split; [apply Z.div_pos; lia|
                 match goal with
                 | |- ?a / 10 <= 9 =>
                     assert (a / 10 < 10) by (apply Z.div_lt_upper_bound; lia); lia
                 end]).
    + destruct twelve_hour.
      * apply no_trail_app; [discriminate|]. apply no_trail_cons; [|].
        { intros E. apply app_eq_nil in E as [_ E]. discriminate E. }
        apply no_trail_app; [discriminate|].
        apply no_trail_cons; [by destruct (hour t <? 12)|].
        by destruct (hour t <? 12).
      * apply no_trail_app; [discriminate|]. apply no_trail_cons.
        -- apply pad_nonempty; simpl; lia.
        -- apply no_space_no_trail, pad_no_space. simpl; lia.
Qed.

Lemma date_text_class day_first :
  date_text day_first four_digit t [] <> []
  /\ Forall (fun a => Re.cls_match false (Re.NoneOf ["]"]%char) a = true)
            (date_text day_first four_digit t [])
  /\ Str.strip (date_text day_first four_digit t [])
     = date_text day_first four_digit t [].
Proof.
  pose proof expressible_bounds as (Hy & Hm & Hd & Hh & Hmi & H12 & Hyy).
  assert (forall c, Str.is_digit c = true ->
            Re.cls_match false (Re.NoneOf ["]"]%char) c = true) as Hdig
    by (intros c Hc; by apply digit_class).
  assert (forall c, Str.is_digit c = true -> Str.isspace c = false) as Hsp
    by (intros c Hc; by apply digit_class).
  unfold date_text. split; [|split].
  - intros E; apply app_eq_nil in E as [E _]; revert E.
    apply pad_nonempty; [lia|]. destruct day_first; simpl; lia.
  - destruct day_first, four_digit;
      repeat first [ apply Forall_app; split | apply Forall_cons; split
                   | apply Forall_nil ];
      first [ apply pad_class; [exact Hdig|simpl; lia] | reflexivity ].
  - apply strip_no_space.
    destruct day_first, four_digit;
      repeat first [ apply Forall_app; split | apply Forall_cons; split
                   | apply Forall_nil ];
      first [ apply pad_class; [exact Hsp|simpl; lia] | reflexivity ].
Qed.

Lemma date_text_app day_first rest :
  date_text day_first four_digit t [] ++ rest = date_text day_first four_digit t rest.
Proof.
  unfold date_text. rewrite app_nil_r.
  repeat (rewrite <- app_assoc || rewrite <- app_comm_cons). reflexivity.
Qed.

End Texts.

Lemma first_strptime_template df y4 h12 t :
  expressible y4 t ->
  first_strptime (Strftime.strftime (template df y4 h12) t) date_formats
  = Some (first_reading df t).
Proof.
  intros Hexp. rewrite date_formats_templates. cbn [first_strptime].
  rewrite !strptime_strftime by done. unfold first_reading.
  destruct df, y4, h12; cbn [Bool.eqb andb]; destruct (day t <=? 12); reflexivity.
Qed.

Lemma templates_cover fmt :
  fmt ∈ date_formats <-> exists df y4 h12, fmt = template df y4 h12.
Proof.
  rewrite date_formats_templates. split.
  - rewrite !elem_of_cons, elem_of_nil.
    intros [->|[->|[->|[->|[->|[->|[->|[->|[]]]]]]]]]; by eexists _, _, _.
  - intros (df & y4 & h12 & ->).
    destruct df, y4, h12; rewrite !elem_of_cons; tauto.
Qed.

Lemma first_reading_same df t :
  df = false \/ 12 < day t \/ day t = month t -> first_reading df t = t.
Proof.
  unfold first_reading. intros [->|[H|H]]; [done| |].
  - assert ((day t <=? 12) = false) as -> by (apply Z.leb_gt; lia).
    by rewrite andb_false_r.
  - destruct (df && (day t <=? 12)); [|done].
    destruct t; unfold swap_day_month; simpl in *. by subst.
Qed.

Ltac nonempty :=
  let E := fresh "E" in
  intros E; repeat (apply app_eq_nil in E as [_ E]); discriminate E.

(** C4, as the code has it. Each of the 8 templates is a day-first or
    month-first date with a 4- or 2-digit year and a 12- or 24-hour time. For
    each of them, the header [[<time>, <date>] Sender:] synthesized from a
    sender that is trimmed and on one line and from a timestamp at a whole
    minute whose year the year field holds (1000..9999 for [%Y], 1969..2068
    for [%y]) parses to that sender and to the timestamp read month first
    when that is a date. So the pair comes back exactly for the month-first
    templates, and for the day-first ones when the day is greater than 12 or
    equal to the month; for the other day-first dates the month-first
    template, which is tried first, wins, and day and month come back
    exchanged. *)
Theorem header_round_trip (day_first four_digit twelve_hour : bool)
    (sender : str) (t : datetime) :
  expressible four_digit t ->
  plain_sender sender ->
  let fmt := template day_first four_digit twelve_hour in
  fmt ∈ date_formats
  /\ (forall f, f ∈ date_formats -> exists df y4 h12, f = template df y4 h12)
  /\ parse_pre_plain_text (synth_header fmt sender t)
     = Some (mkHeader sender (first_reading day_first t))
  /\ (day_first = false \/ 12 < day t \/ day t = month t ->
      parse_pre_plain_text (synth_header fmt sender t)
      = Some (mkHeader sender t))
  /\ (day_first = true -> day t <= 12 ->
      parse_pre_plain_text (synth_header fmt sender t)
      = Some (mkHeader sender (swap_day_month t))).
Proof.
  intros Hexp [Hstrip Hline] fmt. subst fmt.
  assert (parse_pre_plain_text
            (synth_header (template day_first four_digit twelve_hour) sender t)
          = Some (mkHeader sender (first_reading day_first t))) as Hparse.
  { destruct (time_text_class t four_digit Hexp twelve_hour) as (HT & HTall & HTs).
    destruct (date_text_class t four_digit Hexp day_first) as (HD & HDall & HDs).
    assert (1000 <= year t) as Hyear
      by (destruct Hexp as (_ & _ & _ & Hy); destruct four_digit; lia).
    unfold parse_pre_plain_text. rewrite synth_header_template by done.
    rewrite StrFacts.strip_id.
    - rewrite header_re_match by done.
      cbn [Re.group String.eqb Ascii.eqb Bool.eqb default from_option id].
      rewrite HTs, HDs, Hstrip.
      change (lit " " ++ time_text twelve_hour t)
        with (" "%char :: time_text twelve_hour t).
      rewrite date_text_app, <- strftime_template by done.
      by rewrite first_strptime_template.
    - reflexivity.
    - repeat first [ apply no_trail_cons; [nonempty|]
                   | apply no_trail_app; [nonempty|] ].
      reflexivity. }
  split; [apply templates_cover; by eexists _, _, _|].
  split; [intros f Hf; by apply templates_cover|]. split; [done|]. split.
  - intros Hsame. by rewrite Hparse, first_reading_same.
  - intros -> Hday. rewrite Hparse. unfold first_reading.
    by assert ((day t <=? 12) = true) as -> by (apply Z.leb_le; lia).
Qed.

(** A day-first header with a 2-digit year and a 12-hour time: Christmas
    2026, five past one in the afternoon. *)
Lemma header_round_trip_witness :
  let t := mkDatetime 2026 12 25 13 5 0 0 in
  synth_header (lit "%d/%m/%y %I:%M %p") (lit "Alice") t
  = lit "[01:05 PM, 25/12/26] Alice:"
  /\ parse_pre_plain_text (lit "[01:05 PM, 25/12/26] Alice:")
     = Some (mkHeader (lit "Alice") t).
Proof.
  intros t. split; [reflexivity|].
  refine (proj1 (proj2 (proj2 (proj2
            (header_round_trip true false true (lit "Alice") t _ _)))) _).
  - split; [reflexivity|]. split; [reflexivity|]. split; [reflexivity|].
    simpl. lia.
  - split; [reflexivity|]. repeat constructor; discriminate.
  - right; left. simpl. lia.
Defined.

(** C4 as stated fails. With the second template, day first, the second of
    January is written 02/01/2026, and the first template, month first, reads
    it as the first of February. The seconds of a timestamp are not in the
    header, a 2-digit year is read into 1969..2068, and the sender comes
    back trimmed. *)
Lemma header_day_first_misread :
  let t := mkDatetime 2026 1 2 9 0 0 0 in
  let fmt := lit "%d/%m/%Y %I:%M %p" in
  fmt ∈ date_formats
  /\ synth_header fmt (lit "Alice") t = lit "[09:00 AM, 02/01/2026] Alice:"
  /\ parse_pre_plain_text (synth_header fmt (lit "Alice") t)
     = Some (mkHeader (lit "Alice") (mkDatetime 2026 2 1 9 0 0 0))
  /\ parse_pre_plain_text (synth_header fmt (lit "Alice") t)
     <> Some (mkHeader (lit "Alice") t)
  /\ parse_pre_plain_text
       (synth_header (lit "%m/%d/%Y %H:%M") (lit "Alice")
                     (mkDatetime 2026 1 2 9 0 30 0))
     = Some (mkHeader (lit "Alice") (mkDatetime 2026 1 2 9 0 0 0))
  /\ parse_pre_plain_text
       (synth_header (lit "%m/%d/%y %H:%M") (lit "Alice")
                     (mkDatetime 1950 1 2 9 0 0 0))
     = Some (mkHeader (lit "Alice") (mkDatetime 2050 1 2 9 0 0 0))
  /\ parse_pre_plain_text
       (synth_header (lit "%m/%d/%Y %H:%M") (lit " Alice") t)
     = Some (mkHeader (lit "Alice") t).
Proof.
  intros t fmt. split; [|split; [|split; [|split; [|split; [|split]]]]].
  - apply templates_cover. by exists true, true, true.
  - reflexivity.
  - vm_compute. reflexivity.
  - vm_compute. discriminate.
  - vm_compute. reflexivity.
  - vm_compute. reflexivity.
  - vm_compute. reflexivity.
Qed.

(** * The message pipeline beyond the specification *)

(** ** The message key *)

Lemma isoformat_no_bar t : DT.valid t = true -> "|"%char ∉ DT.isoformat t.
Proof.
  intros Hv. pose proof (valid_bounds t Hv) as B.
  assert (D : forall c, Str.is_digit c = true -> c <> "|"%char).
  { intros c Hc ->. vm_compute in Hc. discriminate. }
  assert (P : forall w n, 0 <= n < 10 ^ Z.of_nat w -> "|"%char ∉ Str.pad w n).
  { intros w n Hn Hin.
    pose proof (pad_class (fun c => c <> "|"%char) w n D Hn) as F.
    rewrite Forall_forall in F. by apply (F _ Hin). }
  unfold DT.isoformat.
  rewrite !not_elem_of_app.
  repeat split; try (apply P; simpl; lia);
    try (intros H; apply list_elem_of_singleton in H; discriminate H).
  destruct (microsecond t =? 0); [apply not_elem_of_nil|].
  rewrite not_elem_of_app. split.
  - intros H; apply list_elem_of_singleton in H; discriminate H.
  - apply P. simpl. lia.
Qed.

Lemma isoformat_inj a b :
  DT.valid a = true -> DT.valid b = true ->
  DT.isoformat a = DT.isoformat b -> a = b.
Proof.
  intros Ha Hb E.
  pose proof (fromisoformat_isoformat a Ha) as Fa.
  pose proof (fromisoformat_isoformat b Hb) as Fb.
  rewrite E in Fa. congruence.
Qed.

(** X1. Two messages whose senders hold no bar and whose timestamps are dates
    have the same key exactly when they have the same sender, the same
    timestamp and the same trimmed text. *)
Theorem message_dedup_key_inj (a b : message) :
  "|"%char ∉ sender a -> "|"%char ∉ sender b ->
  DT.valid (timestamp a) = true -> DT.valid (timestamp b) = true ->
  message_dedup_key a = message_dedup_key b
  <-> sender a = sender b /\ timestamp a = timestamp b
      /\ Str.strip (text a) = Str.strip (text b).
Proof.
  intros Sa Sb Va Vb. split.
  - unfold message_dedup_key. intros E.
    apply (split_at_first "|") in E as [Es E]; [|done..].
    apply (split_at_first "|") in E as [Et E];
      [|by apply isoformat_no_bar..].
    by apply isoformat_inj in Et.
  - intros (Es & Et & Ex). unfold message_dedup_key. by rewrite Es, Et, Ex.
Qed.

Lemma message_dedup_key_inj_witness :
  let a := mkMessage (lit "Asha") (mkDatetime 2026 2 25 12 34 0 0) (lit " QA role ") in
  let b := mkMessage (lit "Asha") (mkDatetime 2026 2 25 12 34 0 0) (lit "QA role") in
  message_dedup_key a = message_dedup_key b
  <-> sender a = sender b /\ timestamp a = timestamp b
      /\ Str.strip (text a) = Str.strip (text b).
Proof.
  intros a b. apply (message_dedup_key_inj a b).
  - vm_compute. intros H. repeat (inversion H as [|? ? ? H']; subst; clear H; rename H' into H).
  - vm_compute. intros H. repeat (inversion H as [|? ? ? H']; subst; clear H; rename H' into H).
  - reflexivity.
  - reflexivity.
Defined.

(** ** Message deduplication *)

Lemma deduplicate_messages_from_app l1 : forall seen l2,
  deduplicate_messages_from seen (l1 ++ l2)
  = deduplicate_messages_from seen l1
    ++ deduplicate_messages_from (list_to_set (message_keys l1) ∪ seen) l2.
Proof.
  induction l1 as [|m l1 IH]; intros seen l2; simpl.
  - f_equal. symmetry. apply (left_id_L ∅ (∪)).
  - destruct (decide (message_dedup_key m ∈ seen)) as [Hin|Hout].
    + rewrite IH. do 2 f_equal. apply set_eq. intros k.
      rewrite !elem_of_union, elem_of_singleton. intuition (subst; auto).
    + simpl. rewrite IH. do 3 f_equal. apply set_eq. intros k.
      rewrite !elem_of_union, elem_of_singleton. tauto.
Qed.

Lemma deduplicate_messages_from_keys l : forall seen,
  NoDup (message_keys (deduplicate_messages_from seen l))
  /\ forall m, m ∈ deduplicate_messages_from seen l -> message_dedup_key m ∉ seen.
Proof.
  induction l as [|m l IH]; intros seen; simpl.
  - split; [constructor|]. intros m H. by apply elem_of_nil in H.
  - destruct (decide (message_dedup_key m ∈ seen)) as [Hin|Hout]; [apply IH|].
    destruct (IH ({[message_dedup_key m]} ∪ seen)) as [ND Hnot].
    split.
    + simpl. constructor; [|done].
      intros H. apply list_elem_of_fmap in H as (m' & E & Hm').
      apply Hnot in Hm'. apply Hm'. rewrite <- E.
      apply elem_of_union. left. by apply elem_of_singleton.
    + intros m' H. apply elem_of_cons in H as [->|H]; [done|].
      apply Hnot in H. intros Hs. apply H, elem_of_union. by right.
Qed.

Lemma deduplicate_messages_from_covers l : forall seen m,
  m ∈ l -> message_dedup_key m ∉ seen ->
  message_dedup_key m ∈ message_keys (deduplicate_messages_from seen l).
Proof.
  induction l as [|x l IH]; intros seen m Hm Hs.
  - by apply elem_of_nil in Hm.
  - simpl. apply elem_of_cons in Hm as [<-|Hm].
    + rewrite decide_False by done. left.
    + destruct (decide (message_dedup_key x ∈ seen)) as [Hin|Hout].
      * by apply IH.
      * simpl. destruct (decide (message_dedup_key m = message_dedup_key x)) as [E|N].
        -- rewrite E. left.
        -- right. apply IH; [done|].
           by rewrite not_elem_of_union, not_elem_of_singleton.
Qed.

Lemma deduplicate_messages_from_id l : forall seen,
  NoDup (message_keys l) ->
  (forall m, m ∈ l -> message_dedup_key m ∉ seen) ->
  deduplicate_messages_from seen l = l.
Proof.
  induction l as [|x l IH]; intros seen ND Hs; [done|].
  simpl in *. apply NoDup_cons in ND as [Hx ND].
  rewrite decide_False by (apply Hs; left).
  f_equal. apply IH; [done|].
  intros m Hm. apply not_elem_of_union. split; [|apply Hs; by right].
  intros H. apply elem_of_singleton in H. apply Hx. rewrite <- H.
  apply list_elem_of_fmap. by exists m.
Qed.

(** X2. What [deduplicate_messages] keeps is a subsequence of its input in
    which no key occurs twice and every key of the input occurs; a message
    at the end of the input is kept exactly when no earlier message has its
    key. *)
Theorem deduplicate_messages_keeps_first (messages : list message) :
  deduplicate_messages messages `sublist_of` messages
  /\ NoDup (message_keys (deduplicate_messages messages))
  /\ (forall k, k ∈ message_keys (deduplicate_messages messages)
                <-> k ∈ message_keys messages)
  /\ forall m, deduplicate_messages (messages ++ [m])
               = deduplicate_messages messages
                 ++ (if decide (message_dedup_key m ∈ message_keys messages)
                     then [] else [m]).
Proof.
  unfold deduplicate_messages. repeat split.
  - apply deduplicate_messages_from_sublist.
  - apply deduplicate_messages_from_keys.
  - intros H. apply list_elem_of_fmap in H as (m & -> & Hm).
    apply list_elem_of_fmap. exists m. split; [done|].
    eapply elem_of_sublist; [exact Hm|apply deduplicate_messages_from_sublist].
  - intros H. apply list_elem_of_fmap in H as (m & -> & Hm).
    apply deduplicate_messages_from_covers; [done|apply not_elem_of_empty].
  - intros m. rewrite deduplicate_messages_from_app. f_equal. simpl.
    destruct (decide (message_dedup_key m ∈ message_keys messages)) as [Hin|Hout].
    + rewrite decide_True; [done|]. apply elem_of_union. left.
      by apply elem_of_list_to_set.
    + rewrite decide_False; [done|]. intros H. apply Hout.
      apply elem_of_union in H as [H|H]; [by apply elem_of_list_to_set in H|].
      by apply not_elem_of_empty in H.
Qed.

(** X3. [deduplicate_messages] leaves a list unchanged exactly when no two of
    its messages share a key. *)
Theorem deduplicate_messages_fixpoint (messages : list message) :
  deduplicate_messages messages = messages <-> NoDup (message_keys messages).
Proof.
  split.
  - intros E. rewrite <- E. apply deduplicate_messages_from_keys.
  - intros ND. apply deduplicate_messages_from_id; [done|].
    intros m _. apply not_elem_of_empty.
Qed.

(** X4. What the scroll-back loop has collected only grows: after a further
    batch the distinct messages found so far are still there, in their
    place, followed by messages of the batch; so the count the loop logs
    never decreases and grows by at most the size of the batch. *)
Theorem deduplicate_messages_extend (all_messages batch : list message) :
  exists fresh,
    deduplicate_messages (all_messages ++ batch)
    = deduplicate_messages all_messages ++ fresh
    /\ fresh `sublist_of` batch
    /\ (length (deduplicate_messages all_messages)
        <= length (deduplicate_messages (all_messages ++ batch))
        <= length (deduplicate_messages all_messages) + length batch)%nat.
Proof.
  unfold deduplicate_messages. rewrite deduplicate_messages_from_app.
  eexists. split; [reflexivity|].
  pose proof (deduplicate_messages_from_sublist batch
                (list_to_set (message_keys all_messages) ∪ ∅)) as Hs.
  split; [exact Hs|].
  apply sublist_length in Hs. rewrite length_app. lia.
Qed.

(** ** Sorting by timestamp *)

Lemma ltb_leb_trans a b c :
  (a <dt b) = true -> (b <=dt c) = true -> (a <dt c) = true.
Proof.
  intros Hab Hbc. destruct (a <dt c) eqn:E; [done|].
  assert (Hca : (c <=dt a) = true) by (unfold DT.leb; by rewrite E).
  pose proof (DTFacts.leb_ltb_trans c a b Hca Hab) as Hcb.
  unfold DT.leb in Hbc. by rewrite Hcb in Hbc.
Qed.

Lemma leb_false_ltb a b : (a <=dt b) = false -> (b <dt a) = true.
Proof. unfold DT.leb. by destruct (b <dt a). Qed.

Lemma insert_by_timestamp_sorted m l :
  StronglySorted by_timestamp l ->
  StronglySorted by_timestamp (insert_by_timestamp m l).
Proof.
  induction 1 as [|x l Hl IH Hx]; simpl.
  - repeat constructor.
  - destruct (timestamp x <=dt timestamp m) eqn:E.
    + constructor; [done|].
      rewrite Forall_forall. intros y Hy.
      rewrite insert_by_timestamp_perm in Hy.
      apply elem_of_cons in Hy as [->|Hy]; [done|].
      rewrite Forall_forall in Hx. by apply Hx.
    + apply leb_false_ltb in E.
      constructor; [by constructor|].
      constructor; [by apply DTFacts.ltb_leb|].
      eapply Forall_impl; [exact Hx|]. intros y Hy. unfold by_timestamp in *.
      apply DTFacts.ltb_leb. by eapply ltb_leb_trans.
Qed.

Lemma at_time_none t l :
  Forall (fun m => timestamp m <> t) l -> at_time t l = [].
Proof.
  unfold at_time. induction 1 as [|x l Hx Hl IH]; [done|].
  by rewrite filter_cons_False.
Qed.

Lemma insert_by_timestamp_at_time t m l :
  StronglySorted by_timestamp l ->
  at_time t (insert_by_timestamp m l)
  = at_time t l ++ (if decide (timestamp m = t) then [m] else []).
Proof.
  unfold at_time. induction 1 as [|x l Hl IH Hx]; simpl.
  - rewrite filter_cons, filter_nil. by destruct (decide (timestamp m = t)).
  - destruct (timestamp x <=dt timestamp m) eqn:E.
    + rewrite !filter_cons, IH. by destruct (decide (timestamp x = t)).
    + apply leb_false_ltb in E.
      rewrite (filter_cons _ m). destruct (decide (timestamp m = t)) as [Ht|Ht].
      * assert (N : at_time t (x :: l) = []).
        { apply at_time_none. constructor.
          - intros Hxt. rewrite Ht, Hxt in E.
            by rewrite DTFacts.ltb_irrefl in E.
          - eapply Forall_impl; [exact Hx|]. intros y Hy Hyt.
            unfold by_timestamp in Hy.
            pose proof (ltb_leb_trans _ _ _ E Hy) as L.
            rewrite Ht, Hyt in L. by rewrite DTFacts.ltb_irrefl in L. }
        unfold at_time in N. by rewrite N.
      * by rewrite app_nil_r.
Qed.

Lemma sort_from_sorted l : forall acc,
  StronglySorted by_timestamp acc ->
  StronglySorted by_timestamp (foldl (fun acc m => insert_by_timestamp m acc) acc l)
  /\ forall t, at_time t (foldl (fun acc m => insert_by_timestamp m acc) acc l)
               = at_time t acc ++ at_time t l.
Proof.
  induction l as [|m l IH]; intros acc Hacc; simpl.
  - split; [done|]. intros t. unfold at_time. by rewrite filter_nil, app_nil_r.
  - destruct (IH (insert_by_timestamp m acc)) as [S A];
      [by apply insert_by_timestamp_sorted|].
    split; [done|]. intros t. rewrite A, insert_by_timestamp_at_time by done.
    unfold at_time. rewrite (filter_cons _ m), <- app_assoc.
    by destruct (decide (timestamp m = t)).
Qed.

Lemma sort_by_timestamp_sorted l :
  StronglySorted by_timestamp (sort_by_timestamp l).
Proof. apply sort_from_sorted. constructor. Qed.

Lemma sort_by_timestamp_stable l t :
  at_time t (sort_by_timestamp l) = at_time t l.
Proof.
  unfold sort_by_timestamp.
  destruct (sort_from_sorted l []) as [_ A]; [constructor|]. by rewrite A.
Qed.

Lemma sort_by_timestamp_keys l :
  NoDup (message_keys l) -> NoDup (message_keys (sort_by_timestamp l)).
Proof.
  intros ND. unfold message_keys.
  by rewrite (fmap_Permutation _ _ _ (sort_by_timestamp_perm l)).
Qed.

(** ** What the parser returns *)

Lemma first_strptime_valid combined formats t :
  first_strptime combined formats = Some t ->
  DT.valid t = true /\ second t = 0 /\ microsecond t = 0.
Proof.
  induction formats as [|fmt formats IH]; simpl; [done|].
  destruct (Strptime.strptime combined fmt) as [t'|] eqn:E; [|exact IH].
  intros [= ->]. unfold Strptime.strptime in E.
  destruct (Strptime.pattern false fmt); [|done].
  destruct (Re.re_match true r combined) as [[caps [|]]|]; try done.
  unfold Strptime.make_datetime in E.
  match type of E with (if DT.valid ?d then _ else _) = _ =>
    destruct (DT.valid d) eqn:V; [|done] end.
  injection E as <-. by rewrite V.
Qed.

Lemma parse_pre_plain_text_header h hd :
  parse_pre_plain_text h = Some hd ->
  Str.strip (h_sender hd) = h_sender hd
  /\ DT.valid (h_timestamp hd) = true
  /\ second (h_timestamp hd) = 0 /\ microsecond (h_timestamp hd) = 0.
Proof.
  unfold parse_pre_plain_text.
  destruct (Re.re_match false header_re (Str.strip h)) as [[caps rest]|]; [|done].
  destruct (first_strptime _ date_formats) as [t|] eqn:E; [|done].
  intros [= <-]. simpl. split; [apply StrFacts.strip_idem|].
  by apply first_strptime_valid in E.
Qed.

Lemma parse_raw_messages_well_formed raw :
  Forall well_formed (parse_raw_messages raw).
Proof.
  induction raw as [|item raw IH]; simpl; [constructor|].
  destruct (parse_pre_plain_text (pre_plain_text item)) as [hd|] eqn:E; [|done].
  destruct (decide (Str.strip (raw_text item) = [])) as [|N]; [done|].
  constructor; [|done].
  apply parse_pre_plain_text_header in E as (Hs & Hv & H0 & H1).
  unfold well_formed. simpl. by rewrite StrFacts.strip_idem.
Qed.

(** X5. Every message [scrape_messages] returns has a trimmed sender, a
    trimmed text that is not empty, and a timestamp that is a date at a whole
    minute. *)
Theorem scrape_messages_well_formed (raw_messages : list raw_message) :
  Forall well_formed (scrape_messages raw_messages).
Proof.
  unfold scrape_messages.
  rewrite (sort_by_timestamp_perm (parse_raw_messages raw_messages)).
  apply parse_raw_messages_well_formed.
Qed.

(** X6. [scrape_messages] returns the parsed messages in ascending order of
    their timestamps, none lost and none added, the messages of one
    timestamp in the order of their nodes. *)
Theorem scrape_messages_sorted_stable (raw_messages : list raw_message) :
  StronglySorted by_timestamp (scrape_messages raw_messages)
  /\ scrape_messages raw_messages ≡ₚ parse_raw_messages raw_messages
  /\ forall t, at_time t (scrape_messages raw_messages)
               = at_time t (parse_raw_messages raw_messages).
Proof.
  unfold scrape_messages. split; [apply sort_by_timestamp_sorted|].
  split; [apply sort_by_timestamp_perm|]. intros t. apply sort_by_timestamp_stable.
Qed.

(** ** The scroll-back loop *)

Lemma collect_rounds_acc rounds : forall acc,
  collect_rounds acc rounds = acc ++ collect_rounds [] rounds.
Proof.
  induction rounds as [|r rounds IH]; intros acc; simpl.
  - by rewrite app_nil_r.
  - destruct (negb (r_found r)); [done|]. destruct (r_at_top r); [done|].
    rewrite IH, (IH (scrape_messages _)). by rewrite app_assoc.
Qed.

Lemma collect_rounds_stop before r after : forall acc,
  stops r ->
  collect_rounds acc (before ++ r :: after) = collect_rounds acc (before ++ [r]).
Proof.
  induction before as [|b before IH]; intros acc Hr; simpl.
  - destruct Hr as [-> | ->]; simpl; [done|]. by destruct (negb (r_found r)).
  - destruct (negb (r_found b)); [done|]. destruct (r_at_top b); [done|].
    by apply IH.
Qed.

Lemma collect_rounds_all rounds : forall acc,
  Forall (fun r => ~ stops r) rounds ->
  collect_rounds acc rounds = acc ++ batches rounds.
Proof.
  unfold batches. induction rounds as [|r rounds IH]; intros acc H; simpl.
  - by rewrite app_nil_r.
  - apply Forall_cons in H as [Hr H]. unfold stops in Hr.
    destruct (r_found r); [|exfalso; auto].
    destruct (r_at_top r); [exfalso; auto|]. simpl.
    rewrite IH by done. by rewrite app_assoc.
Qed.

Lemma collect_rounds_through before r : forall acc,
  Forall (fun r => ~ stops r) before -> stops r ->
  collect_rounds acc (before ++ [r])
  = acc ++ batches before ++ scrape_messages (r_nodes r).
Proof.
  unfold batches. induction before as [|b before IH]; intros acc Hb Hr; simpl.
  - destruct (negb (r_found r)); [done|]. by destruct (r_at_top r).
  - apply Forall_cons in Hb as [Hnb Hb]. unfold stops in Hnb.
    destruct (r_found b); [|exfalso; auto].
    destruct (r_at_top b); [exfalso; auto|]. simpl.
    rewrite IH by done. by rewrite <- !app_assoc.
Qed.

Lemma collect_rounds_well_formed rounds : forall acc,
  Forall well_formed acc -> Forall well_formed (collect_rounds acc rounds).
Proof.
  induction rounds as [|r rounds IH]; intros acc H; simpl; [done|].
  assert (H' : Forall well_formed (acc ++ scrape_messages (r_nodes r))).
  { apply Forall_app. split; [done|]. unfold scrape_messages.
    rewrite (sort_by_timestamp_perm (parse_raw_messages (r_nodes r))).
    apply parse_raw_messages_well_formed. }
  destruct (negb (r_found r)); [done|]. destruct (r_at_top r); [done|].
  by apply IH.
Qed.

(** X7. What [scrape_all_loaded_messages] returns is in ascending order of
    the timestamps, holds no key twice and only messages the parser
    produced; the deduplication [main] applies to it changes nothing. *)
Theorem scrape_all_loaded_messages_clean (rounds : list scroll_round) :
  StronglySorted by_timestamp (scrape_all_loaded_messages rounds)
  /\ NoDup (message_keys (scrape_all_loaded_messages rounds))
  /\ Forall well_formed (scrape_all_loaded_messages rounds)
  /\ deduplicate_messages (scrape_all_loaded_messages rounds)
     = scrape_all_loaded_messages rounds.
Proof.
  unfold scrape_all_loaded_messages.
  assert (ND : NoDup (message_keys (sort_by_timestamp
                (deduplicate_messages (collect_rounds [] rounds))))).
  { apply sort_by_timestamp_keys, deduplicate_messages_from_keys. }
  split; [apply sort_by_timestamp_sorted|]. split; [exact ND|]. split.
  - rewrite (sort_by_timestamp_perm (deduplicate_messages _)).
    pose proof (collect_rounds_well_formed rounds [] (Forall_nil_2 _)) as W.
    rewrite Forall_forall in W. apply Forall_forall. intros m Hm. apply W.
    eapply elem_of_sublist; [exact Hm|apply deduplicate_messages_from_sublist].
  - apply deduplicate_messages_from_id; [exact ND|].
    intros m _. apply not_elem_of_empty.
Qed.

(** X8. While no round stops, the loop scrapes every round the time budget
    allows. The first round whose scroll finds no container or reaches the
    top is the last one that is scraped: the rounds after it do not
    count. *)
Theorem scrape_all_loaded_messages_rounds (before : list scroll_round) :
  Forall (fun r => ~ stops r) before ->
  scrape_all_loaded_messages before
  = sort_by_timestamp (deduplicate_messages (batches before))
  /\ forall r after, stops r ->
       scrape_all_loaded_messages (before ++ r :: after)
       = sort_by_timestamp (deduplicate_messages (batches (before ++ [r]))).
Proof.
  intros Hb. unfold scrape_all_loaded_messages. split.
  - by rewrite collect_rounds_all.
  - intros r after Hr. rewrite collect_rounds_stop by done.
    rewrite collect_rounds_through by done.
    unfold batches. rewrite map_app, concat_app. simpl. by rewrite app_nil_r.
Qed.

Lemma scrape_all_loaded_messages_rounds_witness :
  let node := mkRaw (lit "[09:05, 25/02/2026] Asha:") (lit "QA role") in
  let before := [mkRound [node] true false] in
  Forall (fun r => ~ stops r) before
  /\ (scrape_all_loaded_messages before
      = sort_by_timestamp (deduplicate_messages (batches before))
      /\ forall r after, stops r ->
           scrape_all_loaded_messages (before ++ r :: after)
           = sort_by_timestamp (deduplicate_messages (batches (before ++ [r])))).
Proof.
  intros node before.
  assert (H : Forall (fun r => ~ stops r) before).
  { repeat constructor. intros [H|H]; discriminate H. }
  split; [exact H|]. exact (scrape_all_loaded_messages_rounds before H).
Defined.

(** * The record store beyond the specification *)

Lemma unique_jobs_from_keys existing jobs : forall batch_seen,
  NoDup (job_keys (unique_jobs_from existing batch_seen jobs))
  /\ forall j, j ∈ unique_jobs_from existing batch_seen jobs ->
       (job_dedup_key j ∉ existing) /\ (job_dedup_key j ∉ batch_seen).
Proof.
  induction jobs as [|x jobs IH]; intros batch_seen; simpl.
  - split; [constructor|]. intros j H. by apply elem_of_nil in H.
  - destruct (decide (job_dedup_key x ∈ existing \/ job_dedup_key x ∈ batch_seen))
      as [Hx|Hx]; [apply IH|].
    destruct (IH ({[job_dedup_key x]} ∪ batch_seen)) as [ND Hnot]. split.
    + simpl. constructor; [|done].
      intros H. apply list_elem_of_fmap in H as (j & E & Hj).
      apply Hnot in Hj as [_ Hj]. apply Hj. rewrite <- E.
      apply elem_of_union. left. by apply elem_of_singleton.
    + intros j H. apply elem_of_cons in H as [->|H]; [tauto|].
      apply Hnot in H as [H1 H2]. split; [done|].
      intros Hs. apply H2, elem_of_union. by right.
Qed.

Lemma unique_jobs_from_covers existing jobs : forall batch_seen j,
  j ∈ jobs -> job_dedup_key j ∉ existing -> job_dedup_key j ∉ batch_seen ->
  job_dedup_key j ∈ job_keys (unique_jobs_from existing batch_seen jobs).
Proof.
  induction jobs as [|x jobs IH]; intros batch_seen j Hj He Hs.
  - by apply elem_of_nil in Hj.
  - simpl. apply elem_of_cons in Hj as [<-|Hj].
    + rewrite decide_False by tauto. left.
    + destruct (decide (job_dedup_key x ∈ existing \/ job_dedup_key x ∈ batch_seen))
        as [Hx|Hx]; [by apply IH|].
      simpl. destruct (decide (job_dedup_key j = job_dedup_key x)) as [E|N].
      * rewrite E. left.
      * right. apply IH; [done..|].
        by rewrite not_elem_of_union, not_elem_of_singleton.
Qed.

Lemma unique_jobs_from_id existing jobs : forall batch_seen,
  NoDup (job_keys jobs) ->
  (forall j, j ∈ jobs ->
     (job_dedup_key j ∉ existing) /\ (job_dedup_key j ∉ batch_seen)) ->
  unique_jobs_from existing batch_seen jobs = jobs.
Proof.
  induction jobs as [|x jobs IH]; intros batch_seen ND Hs; [done|].
  simpl in *. apply NoDup_cons in ND as [Hx ND].
  destruct (Hs x) as [H1 H2]; [left|].
  rewrite decide_False by tauto. f_equal. apply IH; [done|].
  intros j Hj. destruct (Hs j) as [H3 H4]; [by right|]. split; [done|].
  apply not_elem_of_union. split; [|done].
  intros H. apply elem_of_singleton in H. apply Hx. rewrite <- H.
  apply list_elem_of_fmap. by exists j.
Qed.

Lemma unique_jobs_from_none existing jobs : forall batch_seen,
  (forall j, j ∈ jobs -> job_dedup_key j ∈ existing) ->
  unique_jobs_from existing batch_seen jobs = [].
Proof.
  induction jobs as [|x jobs IH]; intros batch_seen H; [done|]. simpl.
  rewrite decide_True by (left; apply H; left).
  apply IH. intros j Hj. apply H. by right.
Qed.

(** X9. What [deduplicate_jobs_for_sheet] keeps holds no key twice and no key
    of a stored row, and every key of the batch that is not stored is kept;
    deduplicating the kept jobs again changes nothing; the first row of the
    worksheet is never compared. *)
Theorem deduplicate_jobs_for_sheet_keys (worksheet : list (list str))
    (jobs : list job) :
  let kept := deduplicate_jobs_for_sheet worksheet jobs in
  NoDup (job_keys kept)
  /\ (forall j, j ∈ kept -> ~ stored_key worksheet (job_dedup_key j))
  /\ (forall j, j ∈ jobs -> ~ stored_key worksheet (job_dedup_key j) ->
        job_dedup_key j ∈ job_keys kept)
  /\ deduplicate_jobs_for_sheet worksheet kept = kept
  /\ forall row, deduplicate_jobs_for_sheet (row :: drop 1 worksheet) jobs = kept.
Proof.
  intros kept. subst kept. rewrite !deduplicate_jobs_unfold.
  destruct (unique_jobs_from_keys (existing_keys worksheet) jobs ∅) as [ND Hnot].
  split; [exact ND|]. split; [|split; [|split]].
  - intros j Hj Hs. apply Hnot in Hj as [Hj _]. apply Hj.
    by apply elem_of_existing_keys.
  - intros j Hj Hs. apply unique_jobs_from_covers; [done| |apply not_elem_of_empty].
    intros He. by apply Hs, elem_of_existing_keys.
  - apply unique_jobs_from_id; [exact ND|]. intros j Hj.
    apply Hnot in Hj as [Hj _]. split; [done|apply not_elem_of_empty].
  - intros row. rewrite deduplicate_jobs_unfold. by destruct worksheet.
Qed.

(** ** Appending and reading back *)

Lemma row_key_job_row j : row_key (job_row j) = Some (job_dedup_key j).
Proof. reflexivity. Qed.

Lemma stored_key_app worksheet jobs k :
  worksheet <> [] ->
  stored_key (worksheet ++ map job_row jobs) k
  <-> stored_key worksheet k \/ k ∈ job_keys jobs.
Proof.
  intros Hne. destruct worksheet as [|header rows]; [done|].
  unfold stored_key. simpl. rewrite !drop_0. split.
  - intros (row & Hin & Hlen & Hk). apply elem_of_app in Hin as [Hin|Hin].
    + left. by exists row.
    + right. apply list_elem_of_fmap in Hin as (j & -> & Hj).
      apply list_elem_of_fmap. by exists j.
  - intros [(row & Hin & Hlen & Hk)|Hk].
    + exists row. split; [apply elem_of_app; by left|done].
    + apply list_elem_of_fmap in Hk as (j & -> & Hj).
      exists (job_row j). split; [|split; [simpl; lia|done]].
      apply elem_of_app. right. apply list_elem_of_fmap. by exists j.
Qed.

Lemma deduplicate_appended worksheet jobs :
  worksheet <> [] ->
  deduplicate_jobs_for_sheet
    (worksheet ++ map job_row (deduplicate_jobs_for_sheet worksheet jobs)) jobs
  = [].
Proof.
  intros Hne. rewrite deduplicate_jobs_unfold. apply unique_jobs_from_none.
  intros j Hj. apply elem_of_existing_keys. apply stored_key_app; [done|].
  destruct (decide (job_dedup_key j ∈ existing_keys worksheet)) as [He|He].
  - left. by apply elem_of_existing_keys.
  - right. rewrite deduplicate_jobs_unfold.
    apply unique_jobs_from_covers; [done..|apply not_elem_of_empty].
Qed.

(** The same when the worksheet shows the appended rows with their keys. *)
Lemma deduplicate_entered ext worksheet jobs :
  worksheet <> [] ->
  shown_with_key ext (deduplicate_jobs_for_sheet worksheet jobs) ->
  deduplicate_jobs_for_sheet
    (worksheet ++ map (entered_row ext)
                      (map job_row (deduplicate_jobs_for_sheet worksheet jobs)))
    jobs
  = [].
Proof.
  intros Hne Hshown. rewrite deduplicate_jobs_unfold. apply unique_jobs_from_none.
  intros j Hj. apply elem_of_existing_keys.
  destruct worksheet as [|header rows]; [done|].
  destruct (decide (job_dedup_key j ∈ existing_keys (header :: rows))) as [He|He].
  - apply elem_of_existing_keys in He as (row & Hin & Hlen & Hk).
    exists row. split; [|done]. simpl in *. rewrite drop_0 in *.
    apply elem_of_app. by left.
  - assert (job_dedup_key j
            ∈ job_keys (deduplicate_jobs_for_sheet (header :: rows) jobs)) as Hk.
    { rewrite deduplicate_jobs_unfold.
      apply unique_jobs_from_covers; [done..|apply not_elem_of_empty]. }
    apply list_elem_of_fmap in Hk as (j' & Hk & Hj').
    pose proof (Hshown j' Hj') as Hrow. apply row_key_Some in Hrow as [Hlen Hrow].
    exists (entered_row ext (job_row j')). split; [|split; [done|congruence]].
    simpl. rewrite drop_0. apply elem_of_app. right.
    apply list_elem_of_fmap. exists (job_row j'). split; [done|].
    apply list_elem_of_fmap. by exists j'.
Qed.

(** X10. Once the kept jobs are appended to a worksheet that has its header
    row, the same batch deduplicates to nothing, and no later batch brings
    back the key of an appended or of a stored row. The rows are read back as
    they were appended. *)
Theorem deduplicate_after_append (worksheet : list (list str)) (jobs : list job) :
  worksheet <> [] ->
  let kept := deduplicate_jobs_for_sheet worksheet jobs in
  let worksheet' := worksheet ++ map job_row kept in
  deduplicate_jobs_for_sheet worksheet' jobs = []
  /\ forall later j, j ∈ deduplicate_jobs_for_sheet worksheet' later ->
       (job_dedup_key j ∉ job_keys kept)
       /\ ~ stored_key worksheet (job_dedup_key j).
Proof.
  intros Hne kept worksheet'. split.
  - by apply deduplicate_appended.
  - intros later j Hj. rewrite deduplicate_jobs_unfold in Hj.
    apply unique_jobs_from_keys in Hj as [Hj _].
    rewrite elem_of_existing_keys in Hj. subst worksheet'.
    rewrite stored_key_app in Hj by done. tauto.
Qed.

Lemma deduplicate_after_append_witness :
  let j := mkJob (lit "2026-02-25 12:34") (lit "Asha") (lit "Acme") (lit "QA")
                 (lit "Pune") (lit "2y") (lit "python") (lit "hr@acme.test") in
  let worksheet := [sheet_headers] in
  let kept := deduplicate_jobs_for_sheet worksheet [j; j] in
  let worksheet' := worksheet ++ map job_row kept in
  worksheet <> []
  /\ (deduplicate_jobs_for_sheet worksheet' [j; j] = []
      /\ forall later j', j' ∈ deduplicate_jobs_for_sheet worksheet' later ->
           (job_dedup_key j' ∉ job_keys kept)
           /\ ~ stored_key worksheet (job_dedup_key j')).
Proof.
  intros j worksheet kept worksheet'.
  assert (H : worksheet <> []) by discriminate.
  split; [exact H|]. exact (deduplicate_after_append worksheet [j; j] H).
Defined.

(** ** Steps 6 to 9 *)

Lemma with_headers_rows sheet : drop 1 (with_headers sheet) = drop 1 sheet.
Proof.
  destruct sheet as [|row rows]; [done|]. simpl.
  by destruct (decide (row = sheet_headers)).
Qed.

Lemma with_headers_nonempty sheet : with_headers sheet <> [].
Proof.
  destruct sheet as [|row rows]; [done|]. simpl.
  by destruct (decide (row = sheet_headers)).
Qed.

Lemma with_headers_idem sheet : with_headers (with_headers sheet) = with_headers sheet.
Proof.
  destruct sheet as [|row rows]; [done|]. unfold with_headers at 2 3.
  destruct (decide (row = sheet_headers)) as [->|N]; unfold with_headers.
  - by rewrite decide_True.
  - destruct (decide (sheet_headers ++ drop 7 row = sheet_headers)) as [E|N'];
      [done|].
    replace (drop 7 (sheet_headers ++ drop 7 row)) with (drop 7 row)
      by reflexivity.
    done.
Qed.

Lemma with_headers_app sheet rows :
  with_headers (with_headers sheet ++ rows) = with_headers sheet ++ rows.
Proof.
  pose proof (with_headers_idem sheet) as I.
  pose proof (with_headers_nonempty sheet) as N.
  destruct (with_headers sheet) as [|row rest]; [done|].
  change ((row :: rest) ++ rows) with (row :: (rest ++ rows)).
  unfold with_headers in I |- *.
  destruct (decide (row = sheet_headers)); [done|].
  injection I as I. f_equal. exact I.
Qed.


Lemma persist_jobs_up ext jobs w :
  sheets_up ext = true -> jobs <> [] ->
  persist_jobs ext jobs w
  = let sheet := with_headers (w_sheet w) in
    match deduplicate_jobs_for_sheet sheet jobs with
    | [] => (Ok tt, set_sheet w sheet)
    | kept =>
        let w1 := set_sheet w (sheet ++ map (entered_row ext) (map job_row kept)) in
        if smtp_up ext then (Ok tt, add_mail w1 kept)
        else (Raise ExternalError, w1)
    end.
Proof.
  intros Hup Hne. destruct jobs as [|j jobs]; [done|].
  unfold persist_jobs, bind, ensure_sheet, get_all_values, append_relevant_jobs,
    send_email_summary.
  rewrite Hup. cbn [w_sheet w_file w_calls w_trace w_mails].
  fold (with_headers (w_sheet w)). cbn zeta.
  destruct (deduplicate_jobs_for_sheet _ _) as [|k kept]; [done|].
  cbn. by destruct (smtp_up ext).
Qed.

(** X11. [persist_jobs] leaves the cursor file and the classification trace
    alone. It sends at most one summary, and only after the rows were
    appended: the summary lists exactly the jobs whose rows it appended (the
    worksheet shows them as it takes cells that are typed in), none of them
    stored before. *)
Theorem persist_jobs_mails_what_it_appends (ext : externals) (jobs : list job)
    (w w' : world) (r : res unit) :
  persist_jobs ext jobs w = (r, w') ->
  w_file w' = w_file w /\ w_calls w' = w_calls w /\ w_trace w' = w_trace w
  /\ (w_mails w' = w_mails w
      \/ exists kept sheet,
           kept <> [] /\ w_mails w' = w_mails w ++ [kept]
           /\ w_sheet w' = sheet ++ map (entered_row ext) (map job_row kept)
           /\ drop 1 sheet = drop 1 (w_sheet w)
           /\ kept = deduplicate_jobs_for_sheet sheet jobs
           /\ r = Ok tt).
Proof.
  destruct jobs as [|j jobs]; [intros [= <- <-]; tauto|].
  destruct (sheets_up ext) eqn:Hup.
  - rewrite persist_jobs_up by done. cbn zeta.
    destruct (deduplicate_jobs_for_sheet _ _) as [|k kept] eqn:E.
    + intros [= <- <-]. cbn. tauto.
    + destruct (smtp_up ext); intros [= <- <-]; cbn; [|tauto].
      repeat split; try done. right.
      exists (k :: kept), (with_headers (w_sheet w)).
      repeat split; try done. apply with_headers_rows.
  - unfold persist_jobs, bind, ensure_sheet. rewrite Hup.
    intros [= <- <-]. tauto.
Qed.

Lemma persist_jobs_mails_what_it_appends_witness :
  let j := mkJob (lit "2026-02-25 12:34") (lit "Asha") (lit "Acme") (lit "QA")
                 (lit "Pune") (lit "2y") (lit "python") (lit "hr@acme.test") in
  let ext := mkExternals (fun _ => CallRaises) (fun _ => []) true true
                         (fun s => s) OutreachSkipped in
  let w := mkWorld Absent 0 [] [] [] in
  let w' := mkWorld Absent 0 [] [sheet_headers; job_row j] [[j]] in
  persist_jobs ext [j] w = (Ok tt, w')
  /\ (w_file w' = w_file w /\ w_calls w' = w_calls w /\ w_trace w' = w_trace w
      /\ (w_mails w' = w_mails w
          \/ exists kept sheet,
               kept <> [] /\ w_mails w' = w_mails w ++ [kept]
               /\ w_sheet w' = sheet ++ map (entered_row ext) (map job_row kept)
               /\ drop 1 sheet = drop 1 (w_sheet w)
               /\ kept = deduplicate_jobs_for_sheet sheet [j]
               /\ Ok tt = Ok tt)).
Proof.
  intros j ext w w'.
  assert (H : persist_jobs ext [j] w = (Ok tt, w')) by (vm_compute; reflexivity).
  split; [exact H|].
  exact (persist_jobs_mails_what_it_appends ext [j] w w' (Ok tt) H).
Defined.

(** X12. When the mail transport fails after the rows were appended, the
    rows stay and the call raises. If the worksheet shows the appended rows
    with the keys of their jobs, persisting the same batch again appends
    nothing and sends nothing, so the summary of those rows is never
    sent. *)
Theorem persist_jobs_lost_summary (ext ext' : externals) (jobs : list job)
    (w : world) :
  sheets_up ext = true -> smtp_up ext = false -> sheets_up ext' = true ->
  let sheet := with_headers (w_sheet w) in
  let kept := deduplicate_jobs_for_sheet sheet jobs in
  kept <> [] ->
  shown_with_key ext kept ->
  let w1 := set_sheet w (sheet ++ map (entered_row ext) (map job_row kept)) in
  persist_jobs ext jobs w = (Raise ExternalError, w1)
  /\ persist_jobs ext' jobs w1 = (Ok tt, w1).
Proof.
  intros Hup Hdown Hup' sheet kept Hkept Hshown w1.
  assert (Hjobs : jobs <> []).
  { intros ->. by apply Hkept. }
  split.
  - rewrite persist_jobs_up by done. cbn zeta. fold sheet. fold kept.
    destruct kept as [|k kept'] eqn:E; [done|]. by rewrite Hdown.
  - rewrite persist_jobs_up by done. cbn zeta. subst w1. cbn [w_sheet set_sheet].
    subst sheet. rewrite with_headers_app.
    pose proof (deduplicate_entered ext (with_headers (w_sheet w)) jobs
                  (with_headers_nonempty _) Hshown) as E.
    fold kept in E. rewrite E. reflexivity.
Qed.

(** A worksheet that shows the cells as they were entered. *)
Lemma persist_jobs_lost_summary_witness :
  let j := mkJob (lit "2026-02-25 12:34") (lit "Asha") (lit "Acme") (lit "QA")
                 (lit "Pune") (lit "2y") (lit "python") (lit "hr@acme.test") in
  let ext := mkExternals (fun _ => CallRaises) (fun _ => []) true false
                         (fun s => s) OutreachSkipped in
  let ext' := mkExternals (fun _ => CallRaises) (fun _ => []) true true
                          (fun s => s) OutreachSkipped in
  let w := mkWorld Absent 0 [] [] [] in
  let w1 := mkWorld Absent 0 [] [sheet_headers; job_row j] [] in
  persist_jobs ext [j] w = (Raise ExternalError, w1)
  /\ persist_jobs ext' [j] w1 = (Ok tt, w1).
Proof.
  intros j ext ext' w w1.
  refine (persist_jobs_lost_summary ext ext' [j] w eq_refl eq_refl eq_refl _ _).
  - discriminate.
  - intros j0 Hj0.
    assert (j0 = j) as ->
      by (vm_compute in Hj0; by apply list_elem_of_singleton in Hj0).
    reflexivity.
Defined.

(** * The run beyond the specification *)

Lemma load_pure w : exists r, load_last_processed_timestamp w = (r, w).
Proof.
  unfold load_last_processed_timestamp.
  destruct (w_file w) as [| |doc]; try by eexists.
  destruct doc; try by eexists.
  destruct (truthy _); [|by eexists].
  destruct (default _ _) as [| | | |s| |]; try by eexists.
  destruct (Iso.fromisoformat s); [by eexists|].
  destruct (length s <? 7)%nat; by eexists.
Qed.









(** * The classification client beyond the specification *)

(** Whatever the service replies: the attempts are made in order, each one
    but the last followed by its sleep. *)
Lemma analyze_attempts_trace ext retries initial_delay (n : nat) :
  forall a w r w',
    ((0 < n)%nat -> a + Z.of_nat n = retries + 1) ->
    analyze_attempts ext retries initial_delay (seqZ a (Z.of_nat n)) w = (r, w') ->
    exists k : nat,
      (k <= n)%nat /\ ((0 < n)%nat -> (0 < k)%nat)
      /\ w_calls w' = (w_calls w + k)%nat
      /\ w_trace w' = w_trace w ++ attempt_events_from initial_delay a k
      /\ same_store w w'.
Proof.
  induction n as [|n IH]; intros a w r w' Hn.
  - rewrite seqZ_nil by lia. intros [= <- <-]. exists 0%nat.
    unfold attempt_events_from. rewrite seqZ_nil by lia. simpl.
    rewrite app_nil_r, Nat.add_0_r. repeat split; first [done|lia].
  - rewrite seqZ_cons by lia.
    replace (Z.pred (Z.of_nat (S n))) with (Z.of_nat n) by lia.
    cbn [analyze_attempts]. unfold bind at 1. cbn [call_service].
    set (w1 := mkWorld _ _ _ _ _).
    assert (Hone : forall r0, (r0, w1) = (r, w') ->
      exists k : nat,
        (k <= S n)%nat /\ ((0 < S n)%nat -> (0 < k)%nat)
        /\ w_calls w' = (w_calls w + k)%nat
        /\ w_trace w' = w_trace w ++ attempt_events_from initial_delay a k
        /\ same_store w w').
    { intros r0 [= <- <-]. exists 1%nat. subst w1.
      unfold attempt_events_from. rewrite seqZ_cons, seqZ_nil by lia.
      cbn [backoff_events flat_map w_calls w_trace].
      assert ((a <? a + Z.of_nat 1 - 1) = false) as -> by (apply Z.ltb_ge; lia).
      rewrite app_nil_r. repeat split; first [done|lia]. }
    assert (Hfail :
      (if retries <=? a then ret schema_template
       else let* sleep_seconds := backoff_seconds initial_delay a in
            let* _ := sleep sleep_seconds in
            analyze_attempts ext retries initial_delay
              (seqZ (Z.succ a) (Z.of_nat n))) w1 = (r, w') ->
      exists k : nat,
        (k <= S n)%nat /\ ((0 < S n)%nat -> (0 < k)%nat)
        /\ w_calls w' = (w_calls w + k)%nat
        /\ w_trace w' = w_trace w ++ attempt_events_from initial_delay a k
        /\ same_store w w').
    { destruct (Z.leb_spec retries a) as [Hle|Hgt]; [apply Hone|].
      destruct (pause_cases initial_delay a
                  (analyze_attempts ext retries initial_delay
                     (seqZ (Z.succ a) (Z.of_nat n))) w1) as [[e ->]| ->];
        [apply Hone|].
      set (w2 := mkWorld _ _ _ _ _). intros Hrest.
      apply IH in Hrest as (k & Hk & Hpos & Hc & Ht & Hs); [|lia].
      specialize (Hpos ltac:(lia)).
      exists (S k).
      split; [lia|]. split; [lia|]. split; [rewrite Hc; subst w2 w1; cbn; lia|].
      split.
      - rewrite Ht. subst w2 w1. cbn [w_trace]. rewrite <- !app_assoc.
        f_equal. unfold attempt_events_from.
        rewrite (seqZ_cons a) by lia.
        replace (Z.pred (Z.of_nat (S k))) with (Z.of_nat k) by lia.
        cbn [backoff_events flat_map].
        assert ((a <? a + Z.of_nat (S k) - 1) = true) as ->
          by (apply Z.ltb_lt; lia).
        replace (Z.succ a + Z.of_nat k - 1) with (a + Z.of_nat (S k) - 1) by lia.
        reflexivity.
      - destruct Hs as (H1 & H2 & H3). by subst w2 w1. }
    destruct (service ext (w_calls w)) as [| |v]; try exact Hfail.
    destruct v; try exact Hfail. apply Hone.
Qed.

(** X15. Whatever the service replies and however the call ends,
    [analyze_job_post] makes at most [retries] calls, for the attempts 1, 2,
    ... in order, and sleeps only between two attempts: what it adds to the
    trace is call, sleep, call, ..., call, the sleep after attempt [a] taking
    [initial_delay * 2^(a-1)] seconds. It touches neither the cursor file nor
    the worksheet nor the mails. *)
Theorem analyze_job_post_bounded (ext : externals) (text : str)
    (key : option str) (retries : Z) (initial_delay : Q) (w w' : world)
    (r : res (gmap str pyval)) :
  analyze_job_post ext text key retries initial_delay w = (r, w') ->
  exists k : nat,
    (k <= Z.to_nat retries)%nat
    /\ w_calls w' = (w_calls w + k)%nat
    /\ w_trace w' = w_trace w ++ attempt_events initial_delay k
    /\ match attempt_events initial_delay k with
       | [] => k = 0%nat
       | first :: _ =>
           first = Call 1
           /\ last (attempt_events initial_delay k) = Some (Call (Z.of_nat k))
       end
    /\ same_store w w'.
Proof.
  assert (Hends : forall k : nat,
    match attempt_events initial_delay k with
    | [] => k = 0%nat
    | first :: _ =>
        first = Call 1
        /\ last (attempt_events initial_delay k) = Some (Call (Z.of_nat k))
    end).
  { intros [|k]; [reflexivity|].
    assert (last (attempt_events initial_delay (S k))
            = Some (Call (Z.of_nat (S k)))) as Hlast.
    { unfold attempt_events, attempt_events_from.
      replace (seqZ 1 (Z.of_nat (S k)))
        with (seqZ 1 (Z.of_nat k) ++ [1 + Z.of_nat k]).
      2:{ rewrite Nat2Z.inj_succ. rewrite <- Z.add_1_r.
          rewrite seqZ_app; [|lia..].
          rewrite (seqZ_cons (1 + Z.of_nat k)); [|lia].
          rewrite (seqZ_nil (Z.succ (1 + Z.of_nat k))); [done|lia]. }
      unfold backoff_events. rewrite flat_map_app. cbn [flat_map].
      assert ((1 + Z.of_nat k <? 1 + Z.of_nat (S k) - 1) = false) as ->
        by (apply Z.ltb_ge; lia).
      rewrite app_nil_r.
      change (Call (1 + Z.of_nat k) :: []) with ([Call (1 + Z.of_nat k)]).
      rewrite last_snoc. do 2 f_equal. lia. }
    revert Hlast. unfold attempt_events, attempt_events_from.
    rewrite seqZ_cons by lia. cbn [backoff_events flat_map app].
    by intros ->. }
  unfold analyze_job_post. destruct (decide _).
  - intros [= <- <-]. exists 0%nat.
    change (attempt_events initial_delay 0) with (@nil event).
    rewrite app_nil_r, Nat.add_0_r. repeat split; first [done|lia].
  - intros Hrun.
    assert (Hseq : seqZ 1 retries = seqZ 1 (Z.of_nat (Z.to_nat retries))).
    { destruct (Z.le_gt_cases 0 retries); [by rewrite Z2Nat.id|].
      by rewrite !seqZ_nil by lia. }
    rewrite Hseq in Hrun.
    apply analyze_attempts_trace in Hrun as (k & Hk & _ & Hc & Ht & Hs); [|lia].
    exists k. split; [done|]. split; [done|]. split; [done|]. split; [|done].
    apply Hends.
Qed.

(** A failed attempt, a sleep of 2 seconds, and an attempt that returns. *)
Lemma analyze_job_post_bounded_witness :
  let ext := mkExternals (fun n => match n with
                                   | O => NotJson
                                   | _ => Json (PDict ∅)
                                   end) (fun _ => []) true true
                         (fun s => s) OutreachSkipped in
  let w := mkWorld Absent 0 [] [] [] in
  let w' := mkWorld Absent 2 [Call 1; Sleep 2; Call 2] [] [] in
  analyze_job_post ext (lit "hiring QA") (Some (lit "sk-or-v1-0123"))
                   default_retries default_initial_delay w
  = (Ok (merge_result ∅), w')
  /\ exists k : nat,
       (k <= Z.to_nat default_retries)%nat
       /\ w_calls w' = (w_calls w + k)%nat
       /\ w_trace w' = w_trace w ++ attempt_events default_initial_delay k
       /\ same_store w w'.
Proof.
  intros ext w w'.
  assert (Hrun : analyze_job_post ext (lit "hiring QA") (Some (lit "sk-or-v1-0123"))
                   default_retries default_initial_delay w
                 = (Ok (merge_result ∅), w')) by reflexivity.
  split; [exact Hrun|].
  destruct (analyze_job_post_bounded ext _ _ _ _ w w' _ Hrun)
    as (k & Hk & Hc & Ht & _ & Hs).
  by exists k.
Defined.

(** ** A response without a completion *)

(** X16. A response that decodes to an object without the path
    [choices[0].message.content] is not a failed attempt: its own text is
    what [json.loads] reads back, so the whole response is merged over the
    schema and returned after this one call, without a retry; when it has no
    [relevant] key the message counts as not relevant. *)
Theorem analyze_job_post_merges_whole_response (j : json_codec)
    (http : nat -> http_reply) (ext : externals) (text : str)
    (key : option str) (retries : Z) (initial_delay : Q) (w : world)
    (body : gmap str pyval) :
  (forall n, service ext n = attempt_reply j (http n)) ->
  clean_key key <> [] ->
  1 <= retries ->
  http (w_calls w) = HttpData (PDict body) ->
  content_of (PDict body) = None ->
  loads j (dumps j (PDict body)) = Some (PDict body) ->
  analyze_job_post ext text key retries initial_delay w
  = (Ok (merge_result body),
     mkWorld (w_file w) (S (w_calls w)) (w_trace w ++ [Call 1])
             (w_sheet w) (w_mails w))
  /\ (body !! k_relevant = None ->
      merge_result body !! k_relevant = Some (PBool false)).
Proof.
  intros Hext Hkey Hretries Hhttp Hnone Hloads. split.
  - unfold analyze_job_post. rewrite decide_False by done.
    rewrite seqZ_cons by lia. cbn [analyze_attempts]. unfold bind at 1.
    cbn [call_service]. rewrite Hext, Hhttp.
    unfold attempt_reply, call_openrouter_api. rewrite Hnone, Hloads.
    reflexivity.
  - intros Hrel. by rewrite merge_result_relevant, Hrel.
Qed.

Lemma analyze_job_post_merges_whole_response_witness :
  let body : gmap str pyval := {[ lit "error" := PStr (lit "rate limited") ]} in
  let j := mkCodec (fun _ => lit "{}") (fun _ => Some (PDict body)) in
  let ext := mkExternals (fun _ => attempt_reply j (HttpData (PDict body)))
                         (fun _ => []) true true (fun s => s) OutreachSkipped in
  let w := mkWorld Absent 0 [] [] [] in
  analyze_job_post ext (lit "hiring QA") (Some (lit "sk-or-v1-0123"))
                   default_retries default_initial_delay w
  = (Ok (merge_result body), mkWorld Absent 1 [Call 1] [] [])
  /\ (body !! k_relevant = None ->
      merge_result body !! k_relevant = Some (PBool false)).
Proof.
  intros body j ext w.
  refine (analyze_job_post_merges_whole_response j
            (fun _ => HttpData (PDict body)) ext _ _ _ _ w body _ _ _ _ _ _).
  - reflexivity.
  - vm_compute. discriminate.
  - vm_compute. discriminate.
  - reflexivity.
  - reflexivity.
  - reflexivity.
Defined.

(** ** The classification loop *)

Lemma analyze_job_post_calls ext text key w r w' :
  analyze_job_post ext text key default_retries default_initial_delay w = (r, w') ->
  (w_calls w' <= w_calls w + 3)%nat.
Proof.
  unfold analyze_job_post. destruct (decide _).
  - intros [= <- <-]. lia.
  - intros Hrun.
    apply (analyze_attempts_trace ext default_retries default_initial_delay 3 1)
      in Hrun as (k & Hk & _ & Hc & _); [lia|done].
Qed.

Lemma strftime_date_cell t :
  1000 <= year t ->
  Strftime.strftime (lit "%Y-%m-%d %H:%M") t = date_cell t.
Proof.
  intros Hy. cbn -[Str.pad Strftime.year_text]. rewrite year_text_pad by done.
  unfold date_cell. by rewrite app_nil_r.
Qed.

(** X17. The classification loop of [main] makes at most three calls per
    message, and the jobs it returns follow the order of the messages: each
    job carries the sender of its message and its timestamp, written as
    [strftime] writes [%Y-%m-%d %H:%M], which for a year from 1000 on is the
    text [YYYY-MM-DD HH:MM] of zero-padded fields. *)
Theorem classify_all_in_order (ext : externals) (cfg : config)
    (messages : list message) (w w' : world) (r : res (list job)) :
  classify_all ext cfg messages w = (r, w') ->
  (w_calls w' <= w_calls w + 3 * length messages)%nat
  /\ forall jobs, r = Ok jobs ->
       exists kept, kept `sublist_of` messages
         /\ Forall2 (fun j m =>
                       date j = Strftime.strftime (lit "%Y-%m-%d %H:%M") (timestamp m)
                       /\ (1000 <= year (timestamp m) ->
                           date j = date_cell (timestamp m))
                       /\ job_sender j = sender m) jobs kept.
Proof.
  revert w w' r. induction messages as [|m rest IH]; intros w w' r; simpl.
  - intros [= <- <-]. split; [lia|]. intros jobs [= <-]. by exists [].
  - unfold bind at 1.
    destruct (analyze_job_post _ _ _ _ _ w) as [[d|e] w1] eqn:Ea;
      apply analyze_job_post_calls in Ea.
    + unfold bind.
      destruct (classify_all ext cfg rest w1) as [[jobs|e] w2] eqn:Ec;
        apply IH in Ec as [Hc Hjobs].
      * destruct (Hjobs jobs eq_refl) as (kept & Hsub & Hall).
        destruct (truthy _); intros [= <- <-]; (split; [lia|]);
          intros jobs' [= <-].
        -- exists (m :: kept). split; [by apply sublist_skip|].
           constructor; [|done]. split; [done|]. split; [|done].
           intros Hy. cbn [job_of date]. by apply strftime_date_cell.
        -- exists kept. split; [by apply sublist_cons|done].
      * intros [= <- <-]. split; [lia|done].
    + intros [= <- <-]. split; [lia|done].
Qed.

(** One message that the service finds relevant. *)
Lemma classify_all_in_order_witness :
  let t1 := mkDatetime 2026 1 2 9 0 0 0 in
  let hello := mkMessage (lit "Alice") t1 (lit "hiring QA") in
  let ext := mkExternals
               (fun _ => Json (PDict {[ k_relevant := PBool true ]}))
               (fun _ => []) true true (fun s => s) OutreachSkipped in
  let cfg := mkConfig (lit "sk-or-v1-0123") in
  let w := mkWorld Absent 0 [] [] [] in
  exists jobs w',
    classify_all ext cfg [hello] w = (Ok jobs, w')
    /\ map date jobs = [lit "2026-01-02 09:00"]
    /\ (w_calls w' <= w_calls w + 3 * 1)%nat
    /\ exists kept, kept `sublist_of` [hello]
         /\ Forall2 (fun j m =>
                       date j = Strftime.strftime (lit "%Y-%m-%d %H:%M") (timestamp m)
                       /\ (1000 <= year (timestamp m) ->
                           date j = date_cell (timestamp m))
                       /\ job_sender j = sender m) jobs kept.
Proof.
  intros t1 hello ext cfg w.
  destruct (classify_all ext cfg [hello] w) as [r w'] eqn:Hrun.
  pose proof (classify_all_in_order ext cfg [hello] w w' r Hrun) as [Hc Hjobs].
  vm_compute in Hrun. injection Hrun as <- <-.
  eexists _, _. split; [reflexivity|]. split; [reflexivity|].
  split; [exact Hc|]. by apply Hjobs.
Defined.

(** * Configuration *)

(** ** The API key *)

(** X18. [clean_key] returns a canonical key: applying it again changes
    nothing; what it returns is empty, or else the trimmed input, which then
    is no placeholder in any letter case. *)
Theorem clean_key_canonical (value : option str) :
  let key := clean_key value in
  clean_key (Some key) = key
  /\ Str.strip key = key
  /\ (key <> [] ->
      key = Str.strip (default [] value)
      /\ Str.lower key ∉ [lit "replace_me"; lit "none"; lit "null"]).
Proof.
  intros key.
  assert (Hcases : key = []
            \/ (key = Str.strip (default [] value) /\ key <> []
                /\ Str.lower key ∉ [lit "replace_me"; lit "none"; lit "null"])).
  { subst key. unfold clean_key.
    destruct (decide (Str.strip (default [] value) = [])); [by left|].
    destruct (decide (Str.lower (Str.strip (default [] value)) ∈ _));
      [by left|by right]. }
  destruct Hcases as [->|(Hkey & Hne & Hp)]; [done|].
  split; [|split; [|done]].
  - unfold clean_key at 1. unfold default, id.
    assert (Hs : Str.strip key = key)
      by (rewrite Hkey; apply StrFacts.strip_idem).
    rewrite Hs, decide_False by done. by rewrite decide_False.
  - rewrite Hkey. apply StrFacts.strip_idem.
Qed.

(** ** The environment *)

Lemma not_is_set env var : ~ is_set env var <-> default [] (env !! var) = [].
Proof.
  unfold is_set. destruct (env !! var) as [v|]; simpl.
  - split.
    + intros H. destruct v; [done|]. exfalso. apply H. by eexists.
    + intros -> (v' & [= <-] & Hv). done.
  - split; [done|]. by intros _ (v' & Hv & _).
Qed.

Lemma elem_of_missing_vars env var :
  var ∈ missing_vars env <-> var ∈ required_vars /\ ~ is_set env var.
Proof.
  unfold missing_vars. rewrite list_elem_of_filter, not_is_set. tauto.
Qed.

Lemma is_set_lookup env var :
  is_set env var -> exists v, env !! var = Some v /\ v <> [] /\ default [] (env !! var) = v.
Proof. intros (v & Hv & Hne). exists v. by rewrite Hv. Qed.

(** X19. [validate_env] returns the settings exactly when the four required
    variables are set to a text that is not empty; it then passes the
    credentials on as they are set, and uses the default of an optional
    variable only when the variable is unset. Otherwise it raises the error
    that names the required variables that are unset or empty, in the order
    of the list, and it never fails on a lookup. *)
Theorem validate_env_outcome (env : environ) :
  match validate_env env with
  | inl st =>
      (forall var, var ∈ required_vars -> is_set env var)
      /\ env !! lit "OPENROUTER_API_KEY" = Some (s_openrouter_api_key st)
      /\ env !! lit "GMAIL_USER" = Some (s_gmail_user st)
      /\ env !! lit "GMAIL_APP_PASSWORD" = Some (s_gmail_app_password st)
      /\ env !! lit "GOOGLE_SERVICE_ACCOUNT_FILE" = Some (s_service_account_file st)
      /\ s_openrouter_model st
         = default (lit "openai/gpt-4o-mini") (env !! lit "OPENROUTER_MODEL")
      /\ s_openrouter_site_url st = default [] (env !! lit "OPENROUTER_SITE_URL")
      /\ s_openrouter_site_name st
         = default (lit "Job Scrapping - Whatsapp") (env !! lit "OPENROUTER_SITE_NAME")
      /\ s_google_sheet_url st
         = default DEFAULT_SHEET_URL (env !! lit "GOOGLE_SHEET_URL")
  | inr (MissingVariables names) =>
      names <> []
      /\ names `sublist_of` required_vars
      /\ forall var, var ∈ names <-> var ∈ required_vars /\ ~ is_set env var
  | inr (KeyError _) => False
  end.
Proof.
  unfold validate_env. destruct (missing_vars env) as [|name names] eqn:E.
  - assert (Hall : forall var, var ∈ required_vars -> is_set env var).
    { intros var Hvar. destruct (decide (default [] (env !! var) = [])) as [Hd|Hd].
      - assert (Hin : var ∈ missing_vars env)
          by (apply list_elem_of_filter; by split).
        rewrite E in Hin. by apply elem_of_nil in Hin.
      - unfold is_set. destruct (env !! var) as [v|]; [|done]. by exists v. }
    destruct (is_set_lookup env (lit "GMAIL_USER")) as (u & -> & _);
      [apply Hall; unfold required_vars; cbn [map]; repeat constructor|].
    destruct (is_set_lookup env (lit "GMAIL_APP_PASSWORD")) as (p & -> & _);
      [apply Hall; unfold required_vars; cbn [map]; repeat constructor|].
    destruct (is_set_lookup env (lit "GOOGLE_SERVICE_ACCOUNT_FILE")) as (f & -> & _);
      [apply Hall; unfold required_vars; cbn [map]; repeat constructor|].
    destruct (is_set_lookup env (lit "OPENROUTER_API_KEY")) as (k & Hk & _);
      [apply Hall; unfold required_vars; cbn [map]; repeat constructor|].
    cbn [s_openrouter_api_key s_gmail_user s_gmail_app_password
         s_service_account_file s_openrouter_model s_openrouter_site_url
         s_openrouter_site_name s_google_sheet_url].
    unfold getenv. rewrite Hk. repeat split; done.
  - split; [done|]. rewrite <- E. split; [apply sublist_filter|].
    apply elem_of_missing_vars.
Qed.

(** * The header as the transcript shows it *)

Lemma consumed_1 a s : Re.consumed (a :: s) s = [a].
Proof. apply (consumed_app [a]). Qed.

(** Runs the matcher on a concrete field of one or two digits. *)
Ltac run_field :=
  cbv -[Re.consumed]; rewrite ?consumed_2, ?consumed_1;
  repeat match goal with
         | |- context [match ?x with Some _ => _ | None => _ end] => destruct x
         end;
  reflexivity.

Section PlainFields.
Context {R : Type}.
Implicit Types (F : str -> Re.captures -> option R) (caps : Re.captures).
Implicit Types (cont : str -> Re.captures -> option R).

Lemma exec_m_dec_then v rest caps F :
  1 <= v <= 12 ->
  Re.exec true (re_of "m") (Str.dec v ++ "/"%char :: rest) caps (expect "/" F)
  = F rest (caps ++ [("m"%string, Str.dec v)]).
Proof. intros Hv. enum_Z v 1 12 ltac:(run_field). Qed.

Lemma exec_d_dec_then v rest caps F :
  1 <= v <= 31 ->
  Re.exec true (re_of "d") (Str.dec v ++ "/"%char :: rest) caps (expect "/" F)
  = F rest (caps ++ [("d"%string, Str.dec v)]).
Proof. intros Hv. enum_Z v 1 31 ltac:(run_field). Qed.

Lemma exec_I_dec_then v rest caps F :
  1 <= v <= 12 ->
  Re.exec true (re_of "I") (Str.dec v ++ ":"%char :: rest) caps (expect ":" F)
  = F rest (caps ++ [("I"%string, Str.dec v)]).
Proof. intros Hv. enum_Z v 1 12 ltac:(run_field). Qed.

Lemma exec_m_dec r' v rest caps cont :
  1 <= v <= 12 ->
  Re.exec true (Re.Cat (re_of "m") (Re.Cat (Re.Chr (Re.Lit "/")) r'))
          (Str.dec v ++ "/"%char :: rest) caps cont
  = Re.exec true r' rest (caps ++ [("m"%string, Str.dec v)]) cont.
Proof.
  intros Hv.
  exact (exec_m_dec_then v rest caps (fun s c => Re.exec true r' s c cont) Hv).
Qed.

Lemma exec_d_dec r' v rest caps cont :
  1 <= v <= 31 ->
  Re.exec true (Re.Cat (re_of "d") (Re.Cat (Re.Chr (Re.Lit "/")) r'))
          (Str.dec v ++ "/"%char :: rest) caps cont
  = Re.exec true r' rest (caps ++ [("d"%string, Str.dec v)]) cont.
Proof.
  intros Hv.
  exact (exec_d_dec_then v rest caps (fun s c => Re.exec true r' s c cont) Hv).
Qed.

Lemma exec_I_dec r' v rest caps cont :
  1 <= v <= 12 ->
  Re.exec true (Re.Cat (re_of "I") (Re.Cat (Re.Chr (Re.Lit ":")) r'))
          (Str.dec v ++ ":"%char :: rest) caps cont
  = Re.exec true r' rest (caps ++ [("I"%string, Str.dec v)]) cont.
Proof.
  intros Hv.
  exact (exec_I_dec_then v rest caps (fun s c => Re.exec true r' s c cont) Hv).
Qed.

Lemma exec_blank_dec r' v rest caps cont :
  1 <= v <= 12 ->
  Re.exec true (Re.Cat (Re.Plus Re.Space) r')
          (" "%char :: Str.dec v ++ rest) caps cont
  = Re.exec true r' (Str.dec v ++ rest) caps cont.
Proof. intros Hv. enum_Z v 1 12 ltac:(reflexivity). Qed.

End PlainFields.

Lemma dec_small v :
  1 <= v <= 31 ->
  Str.dec v <> [] /\ Forall (fun c => Str.is_digit c = true) (Str.dec v)
  /\ Strptime.int_of (Str.dec v) = v.
Proof.
  intros Hv.
  enum_Z v 1 31 ltac:(split; [discriminate|split;
                        [repeat constructor|vm_compute; reflexivity]]).
Qed.

Lemma strptime_typical t :
  expressible true t ->
  Strptime.strptime (typical_date t (" "%char :: typical_time t))
                    (template false true true)
  = Some t.
Proof.
  intros (Hv & Hs & Hus & Hy).
  pose proof (valid_bounds t Hv) as (Hby & Hbm & Hbd & Hbd' & Hbh & Hbmi & _ & _).
  pose proof (hour12_bounds (hour t) Hbh) as Hb12.
  destruct (dec_small (month t)) as (_ & _ & Im); [lia|].
  destruct (dec_small (day t)) as (_ & _ & Id); [lia|].
  destruct (dec_small (Strftime.hour12 (hour t))) as (_ & _ & Ih); [lia|].
  destruct t as [y m d h mi s us]. simpl in *. subst s us.
  unfold Strptime.strptime. rewrite pattern_template.
  unfold Re.re_match. fold cont0.
  unfold template_re, typical_date, typical_time, meridiem.
  cbn [year month day hour minute].
  rewrite exec_m_dec, exec_d_dec, exec_Y4, exec_blank_dec, exec_I_dec, exec_M_p
    by lia.
  cbn -[Strptime.int_of Str.pad Str.dec Strptime.hour_of Str.lower DT.valid
        Strftime.hour12 lit].
  rewrite Im, Id, Ih, !int_of_pad by (simpl; lia).
  rewrite hour_of_hour12 by lia.
  unfold Strptime.make_datetime. cbn -[DT.valid]. by rewrite Hv.
Qed.

Section TypicalTexts.
Variable t : datetime.
Hypothesis Hexp : expressible true t.

Lemma typical_time_class :
  typical_time t <> []
  /\ Forall (fun a => Re.cls_match false (Re.NoneOf [","; "]"]%char) a = true)
            (typical_time t)
  /\ Str.strip (typical_time t) = typical_time t.
Proof.
  pose proof (expressible_bounds t true Hexp) as (Hy & Hm & Hd & Hh & Hmi & H12 & Hyy).
  assert (Hdig : forall c, Str.is_digit c = true ->
            Re.cls_match false (Re.NoneOf [","; "]"]%char) c = true)
    by (intros c Hc; by apply digit_class).
  destruct (dec_small (Strftime.hour12 (hour t))) as (Hne & Hall & _); [lia|].
  unfold typical_time, meridiem. split; [|split].
  - intros E. by apply app_eq_nil in E as [E _].
  - apply Forall_app. split; [by eapply Forall_impl|].
    apply Forall_cons. split; [reflexivity|]. apply Forall_app. split.
    + apply pad_class; [exact Hdig|simpl; lia].
    + by destruct (hour t <? 12); repeat constructor.
  - apply StrFacts.strip_id.
    + destruct (Str.dec (Strftime.hour12 (hour t))) as [|c s]; [done|].
      apply Forall_cons in Hall as [Hc _]. by apply digit_class.
    + apply no_trail_app; [discriminate|]. apply no_trail_cons.
      { intros E. apply app_eq_nil in E as [_ E]. discriminate E. }
      apply no_trail_app; [discriminate|].
      apply no_trail_cons; by destruct (hour t <? 12).
Qed.

Lemma typical_date_class :
  typical_date t [] <> []
  /\ Forall (fun a => Re.cls_match false (Re.NoneOf ["]"]%char) a = true)
            (typical_date t [])
  /\ Str.strip (typical_date t []) = typical_date t [].
Proof.
  pose proof (expressible_bounds t true Hexp) as (Hy & Hm & Hd & Hh & Hmi & H12 & Hyy).
  destruct (dec_small (month t)) as (Hne & Hmall & _); [lia|].
  destruct (dec_small (day t)) as (_ & Hdall & _); [lia|].
  assert (Hdigits : Forall (fun c => Str.is_digit c = true \/ c = "/"%char)
                           (typical_date t [])).
  { unfold typical_date.
    repeat first [ apply Forall_app; split | apply Forall_cons; split
                 | apply Forall_nil ];
      first [ exact I | by right
            | eapply Forall_impl; [eassumption|]; by left
            | apply pad_class; [by left|simpl; lia] ]. }
  split; [|split].
  - unfold typical_date. intros E. by apply app_eq_nil in E as [E _].
  - eapply Forall_impl; [exact Hdigits|]. intros c [Hc| ->]; [|reflexivity].
    by apply digit_class.
  - apply strip_no_space. eapply Forall_impl; [exact Hdigits|].
    intros c [Hc| ->]; [|reflexivity]. by apply digit_class.
Qed.

End TypicalTexts.

(** X20. The header of the transcript as the source shows it,
    [[12:34 PM, 2/25/2026] Sender Name:], with hour, month and day written
    without a leading zero, parses to its sender and its timestamp: for every
    sender that is trimmed and on one line, and every timestamp at a whole
    minute of a year of four digits. *)
Theorem typical_header_parses (sender : str) (t : datetime) :
  expressible true t ->
  plain_sender sender ->
  parse_pre_plain_text (typical_header sender t) = Some (mkHeader sender t).
Proof.
  intros Hexp [Hstrip Hline].
  destruct (typical_time_class t Hexp) as (HT & HTall & HTs).
  destruct (typical_date_class t Hexp) as (HD & HDall & HDs).
  unfold parse_pre_plain_text, typical_header.
  change (lit "[" ++ typical_time t ++ lit ", " ++ typical_date t [] ++ lit "] "
          ++ sender ++ lit ":")
    with ("["%char :: typical_time t ++ ","%char :: " "%char
          :: typical_date t [] ++ "]"%char :: " "%char :: sender ++ [":"%char]).
  rewrite StrFacts.strip_id.
  - rewrite header_re_match by done.
    cbn [Re.group String.eqb Ascii.eqb Bool.eqb default from_option id].
    rewrite HTs, HDs, Hstrip.
    change (lit " " ++ typical_time t) with (" "%char :: typical_time t).
    replace (typical_date t [] ++ " "%char :: typical_time t)
      with (typical_date t (" "%char :: typical_time t)).
    + rewrite date_formats_templates. cbn [first_strptime].
      by rewrite strptime_typical.
    + unfold typical_date. rewrite app_nil_r.
      repeat (rewrite <- app_assoc || rewrite <- app_comm_cons). reflexivity.
  - reflexivity.
  - repeat first [ apply no_trail_cons; [nonempty|]
                 | apply no_trail_app; [nonempty|] ].
    reflexivity.
Qed.

(** The header of the source's comment. *)
Lemma typical_header_parses_witness :
  let t := mkDatetime 2026 2 25 12 34 0 0 in
  typical_header (lit "Sender Name") t = lit "[12:34 PM, 2/25/2026] Sender Name:"
  /\ parse_pre_plain_text (lit "[12:34 PM, 2/25/2026] Sender Name:")
     = Some (mkHeader (lit "Sender Name") t).
Proof.
  intros t. split; [reflexivity|].
  refine (typical_header_parses (lit "Sender Name") t _ _).
  - split; [reflexivity|]. split; [reflexivity|]. split; [reflexivity|].
    simpl. lia.
  - split; [reflexivity|]. repeat constructor; discriminate.
Defined.

(** * The cursor beyond the specification *)

Lemma leb_antisym a b : (a <=dt b) = true -> (b <=dt a) = true -> a = b.
Proof.
  unfold DT.leb, DT.ltb. intros H1 H2.
  apply negb_true_iff in H1, H2.
  apply DTFacts.fields_inj, DTFacts.lex_ltb_total; [by destruct a, b|done..].
Qed.

Lemma sorted_filter (P : message -> Prop) `{!forall m, Decision (P m)} l :
  StronglySorted by_timestamp l -> StronglySorted by_timestamp (filter P l).
Proof.
  induction 1 as [|x l Hl IH Hx]; [constructor|].
  rewrite filter_cons. destruct (decide (P x)); [|done].
  constructor; [done|]. apply Forall_forall. intros y Hy.
  apply list_elem_of_filter in Hy as [_ Hy].
  rewrite Forall_forall in Hx. by apply Hx.
Qed.

Lemma max_timestamp_sorted l m :
  StronglySorted by_timestamp l -> last l = Some m ->
  max_timestamp l = Some (timestamp m).
Proof.
  intros Hs Hlast. apply last_Some in Hlast as [l' ->].
  destruct (max_timestamp_spec (l' ++ [m])) as (t & -> & (x & Hx & <-) & Hmax).
  { by destruct l'. }
  f_equal. apply leb_antisym.
  - apply elem_of_app in Hx as [Hx|Hx].
    + apply (StronglySorted_app_1_elem_of by_timestamp l' [m]); [done..|left].
    + apply list_elem_of_singleton in Hx as ->. apply DTFacts.leb_refl.
  - apply Hmax. apply elem_of_app. right. left.
Qed.

(** X21. On the transcript [scrape_all_loaded_messages] returns, the messages
    [main] analyzes are in ascending order, and the cursor a completed run
    saves is the timestamp of the last of them. *)
Theorem cursor_is_last_analyzed (rounds : list scroll_round)
    (last_processed : option datetime) (m : message) :
  let to_analyze :=
    messages_to_analyze last_processed
      (deduplicate_messages (scrape_all_loaded_messages rounds)) in
  last to_analyze = Some m ->
  StronglySorted by_timestamp to_analyze
  /\ max_timestamp to_analyze = Some (timestamp m).
Proof.
  intros to_analyze Hlast.
  assert (Hs : StronglySorted by_timestamp to_analyze).
  { subst to_analyze.
    assert (Hd : deduplicate_messages (scrape_all_loaded_messages rounds)
                 = scrape_all_loaded_messages rounds).
    { apply deduplicate_messages_from_id; [|intros ? _; apply not_elem_of_empty].
      apply sort_by_timestamp_keys, deduplicate_messages_from_keys. }
    rewrite Hd. destruct last_processed as [t|]; cbn [messages_to_analyze].
    - rewrite newer_than_filter. apply sorted_filter, sort_by_timestamp_sorted.
    - apply sort_by_timestamp_sorted. }
  split; [exact Hs|]. by apply max_timestamp_sorted.
Qed.

Lemma cursor_is_last_analyzed_witness :
  let early := mkRaw (lit "[09:05, 25/02/2026] Asha:") (lit "QA role") in
  let late := mkRaw (lit "[10:15, 25/02/2026] Ravi:") (lit "SDET role") in
  let rounds := [mkRound [late] true false; mkRound [early; late] true true] in
  let m := mkMessage (lit "Ravi") (mkDatetime 2026 2 25 10 15 0 0) (lit "SDET role") in
  let to_analyze :=
    messages_to_analyze None
      (deduplicate_messages (scrape_all_loaded_messages rounds)) in
  last to_analyze = Some m
  /\ StronglySorted by_timestamp to_analyze
  /\ max_timestamp to_analyze = Some (timestamp m).
Proof.
  intros early late rounds m to_analyze.
  assert (H : last to_analyze = Some m) by (vm_compute; reflexivity).
  split; [exact H|]. exact (cursor_is_last_analyzed rounds None m H).
Defined.

(** ** Loading the cursor *)

Lemma fromisoformat_valid s t :
  Iso.fromisoformat s = Some t -> DT.valid t = true.
Proof.
  unfold Iso.fromisoformat. intros H.
  repeat case_match; try discriminate.
  all: repeat match goal with
              | H : mbind _ _ = Some _ |- _ => apply bind_Some in H as (? & ? & H)
              end.
  all: repeat case_match; try discriminate.
  all: by injection H as <-.
Qed.

Lemma fromisoformat_short s : (length s < 7)%nat -> Iso.fromisoformat s = None.
Proof.
  intros Hlen. destruct (Iso.fromisoformat s) as [t|] eqn:E; [|done].
  exfalso. revert E. unfold Iso.fromisoformat.
  do 7 (destruct s as [|? s];
        [intros E; repeat case_match; discriminate E|]).
  simpl in Hlen. lia.
Qed.

(** X22. [load_last_processed_timestamp] never writes. It returns no cursor
    when the file is absent or no JSON, when the object lacks the key, when
    the value is null or the empty text, and when the text has fewer than 7
    characters, which [fromisoformat] refuses. A text in the layout a naive
    [isoformat] writes is read as its datetime. The call raises, uncaught,
    when the document is not an object, and when the value is truthy and no
    text. A cursor it returns is always a date. Of any other text nothing is
    stated. *)
Theorem load_last_processed_timestamp_edges (w : world) :
  (w_file w = Absent \/ w_file w = Garbled ->
   load_last_processed_timestamp w = (Ok None, w))
  /\ (forall d, w_file w = Holds (PDict d) ->
        d !! k_last = None \/ d !! k_last = Some PNone
        \/ d !! k_last = Some (PStr []) ->
        load_last_processed_timestamp w = (Ok None, w))
  /\ (forall d s, w_file w = Holds (PDict d) ->
        d !! k_last = Some (PStr s) -> s <> [] -> (length s < 7)%nat ->
        load_last_processed_timestamp w = (Ok None, w))
  /\ (forall d s t, w_file w = Holds (PDict d) ->
        d !! k_last = Some (PStr s) -> Iso.fromisoformat s = Some t ->
        load_last_processed_timestamp w = (Ok (Some t), w))
  /\ (forall doc, w_file w = Holds doc -> (forall d, doc <> PDict d) ->
        load_last_processed_timestamp w = (Raise AttributeError, w))
  /\ (forall d v, w_file w = Holds (PDict d) ->
        d !! k_last = Some v -> truthy v = true -> (forall s, v <> PStr s) ->
        load_last_processed_timestamp w = (Raise TypeError, w))
  /\ (forall r w', load_last_processed_timestamp w = (r, w') ->
        w' = w /\ forall t, r = Ok (Some t) -> DT.valid t = true).
Proof.
  split; [|split; [|split; [|split; [|split; [|split]]]]].
  - unfold load_last_processed_timestamp. by intros [-> | ->].
  - unfold load_last_processed_timestamp.
    intros d -> [-> | [-> | ->]]; reflexivity.
  - unfold load_last_processed_timestamp. intros d s -> -> Hs Hlen.
    cbn [default from_option id truthy]. destruct s as [|c s]; [done|].
    rewrite fromisoformat_short by done.
    by assert ((length (c :: s) <? 7)%nat = true) as -> by (by apply Nat.ltb_lt).
  - unfold load_last_processed_timestamp. intros d s t -> -> Hs.
    cbn [default from_option id truthy].
    destruct s as [|c s]; [discriminate Hs|]. by rewrite Hs.
  - unfold load_last_processed_timestamp.
    intros doc -> Hdoc. destruct doc; try reflexivity. by destruct (Hdoc d).
  - unfold load_last_processed_timestamp. intros d v -> -> Hv Hs.
    cbn [default from_option id]. rewrite Hv.
    destruct v; try reflexivity. by destruct (Hs s).
  - intros r w' Hload. destruct (load_pure w) as [r' Hr].
    rewrite Hr in Hload. injection Hload as -> <-. split; [done|].
    intros t ->. revert Hr. unfold load_last_processed_timestamp.
    destruct (w_file w) as [| |doc]; try by intros [= ?].
    destruct doc; try by intros [= ?].
    destruct (truthy _); [|by intros [= ?]].
    destruct (default _ _) as [| | | |s| |]; try by intros [= ?].
    destruct (Iso.fromisoformat s) as [t'|] eqn:E.
    + intros [= <-]. by apply fromisoformat_valid in E.
    + destruct (length s <? 7)%nat; by intros [= ?].
Qed.

(** A file that holds a cursor, one that holds a text too short to be a
    date, and one that holds a number. *)
Lemma load_last_processed_timestamp_edges_witness :
  let w x := mkWorld (Holds (PDict {[ k_last := x ]})) 0 [] [] [] in
  load_last_processed_timestamp (w (PStr (lit "2026-01-02T09:00:00")))
  = (Ok (Some (mkDatetime 2026 1 2 9 0 0 0)), w (PStr (lit "2026-01-02T09:00:00")))
  /\ load_last_processed_timestamp (w (PStr (lit "never")))
     = (Ok None, w (PStr (lit "never")))
  /\ load_last_processed_timestamp (w (PInt 5)) = (Raise TypeError, w (PInt 5)).
Proof.
  intros w. split; [|split].
  - apply (proj1 (proj2 (proj2 (proj2 (load_last_processed_timestamp_edges
             (w (PStr (lit "2026-01-02T09:00:00")))))))
           {[ k_last := PStr (lit "2026-01-02T09:00:00") ]}
           (lit "2026-01-02T09:00:00")); reflexivity.
  - apply (proj1 (proj2 (proj2 (load_last_processed_timestamp_edges
             (w (PStr (lit "never"))))))
           {[ k_last := PStr (lit "never") ]} (lit "never"));
      [reflexivity|reflexivity|discriminate|vm_compute; lia].
  - apply (proj1 (proj2 (proj2 (proj2 (proj2 (proj2
             (load_last_processed_timestamp_edges (w (PInt 5))))))))
           {[ k_last := PInt 5 ]} (PInt 5));
      [reflexivity|reflexivity|reflexivity|discriminate].
Defined.
